(** * Stack snippets: envelope recognition, serialization and escape retagging

    A shallow embedding of [src/shared/plugins/stack-snippets/schema.ts] and of
    the escape-preserving inline rule, with the properties of the specification
    stated over it, and further properties read off the code.

    Strings are [String.string]: a JavaScript string is read as its sequence of
    code units, and the embedding covers the code units below 256.  Arrays are
    lists, [undefined] and [null] are [None]. *)

From Stdlib Require Import List Bool Arith Lia ZArith Permutation Sorted Ascii String.
Import ListNotations.
Open Scope string_scope.

(* ===================================================================== *)
(** ** JavaScript strings *)
(* ===================================================================== *)

Module JsString.

Definition LF : ascii := "010"%char.
Definition CR : ascii := "013"%char.
Definition SPACE : ascii := " "%char.
Definition TAB : ascii := "009"%char.

Fixpoint take (n : nat) (s : string) : string :=
  match n, s with
  | S n', String c r => String c (take n' r)
  | _, _ => ""
  end.

Fixpoint drop (n : nat) (s : string) : string :=
  match n, s with
  | S n', String _ r => drop n' r
  | _, _ => s
  end.

(** [s.slice(b, e)] for non-negative arguments; an [undefined] start counts as
    0 and an [undefined] end as the length of [s]. *)
Definition slice (s : string) (b e : option nat) : string :=
  let b' := match b with Some n => n | None => 0 end in
  let e' := match e with Some n => n | None => length s end in
  take (e' - b') (drop b' s).

(** [s.charCodeAt(i)]: [None] stands for NaN; an [undefined] position counts
    as 0. *)
Definition charCodeAt (s : string) (i : option nat) : option nat :=
  option_map nat_of_ascii (get (match i with Some n => n | None => 0 end) s).

(** [s.split("\n")] *)
Fixpoint split_lines (s : string) : list string :=
  match s with
  | "" => [""]
  | String c r =>
      if Ascii.eqb c LF then "" :: split_lines r
      else match split_lines r with
           | h :: t => String c h :: t
           | [] => [String c ""]
           end
  end.

(** [arr.join(sep)] is [String.concat sep arr]. *)
Definition join (sep : string) (ls : list string) : string := concat sep ls.

(** A literal at the current position of a regular expression: the rest of
    the input after the literal, when the input starts with it. *)
Fixpoint strip_prefix (p s : string) : option string :=
  match p with
  | "" => Some s
  | String a p' =>
      match s with
      | String b s' => if Ascii.eqb a b then strip_prefix p' s' else None
      | "" => None
      end
  end.

(** An alternation of literals [(?:a|b|c)], tried from left to right.  The
    alternations of this file have alternatives with pairwise different first
    characters, so at most one of them matches and backtracking into a later
    alternative never succeeds. *)
Fixpoint first_alt (alts : list string) (s : string) : option (string * string) :=
  match alts with
  | [] => None
  | a :: rest =>
      match strip_prefix a s with
      | Some r => Some (a, r)
      | None => first_alt rest s
      end
  end.

(** The class [\s] on code units below 256: TAB, LF, VT, FF, CR, SPACE and
    NBSP. *)
Definition is_regex_space (c : ascii) : bool :=
  let n := nat_of_ascii c in
  (((9 <=? n) && (n <=? 13)) || (n =? 32) || (n =? 160))%nat.

(** [.] matches every code unit but the line terminators; below 256 these are
    LF and CR. *)
Definition is_line_terminator (c : ascii) : bool :=
  Ascii.eqb c LF || Ascii.eqb c CR.

Fixpoint no_line_terminator (s : string) : bool :=
  match s with
  | "" => true
  | String c r => negb (is_line_terminator c) && no_line_terminator r
  end.

(** A greedy run of [.] followed by [-->] and the end of the input: the rest
    of the input ends in [-->] and has no line terminator before it. *)
Definition dots_then_arrow_at_end (s : string) : bool :=
  let n := length s in
  (3 <=? n)%nat && (drop (n - 3) s =? "-->") && no_line_terminator (take (n - 3) s).

End JsString.

Import JsString.

(* ===================================================================== *)
(** ** schema.ts: meta-lines *)
(* ===================================================================== *)

(** [validSnippetRegex.test(line)]: the line starts with [<!-- ], then one of
    [begin snippet:], [end snippet ], [language:], then any run of [.], and
    ends in [-->]. *)
Definition validSnippetRegex (line : string) : bool :=
  match strip_prefix "<!-- " line with
  | None => false
  | Some r =>
      match first_alt ["begin snippet:"; "end snippet "; "language:"] r with
      | None => false
      | Some (_, r') => dots_then_arrow_at_end r'
      end
  end.

(** [line.match(/^<!-- language: lang-(?<lang>css|html|js) -->/)]: the group
    [lang] of the match, if any. *)
Definition langSnippetRegex (line : string) : option string :=
  match strip_prefix "<!-- language: lang-" line with
  | None => None
  | Some r =>
      match first_alt ["css"; "html"; "js"] r with
      | None => None
      | Some (lang, r') =>
          match strip_prefix " -->" r' with
          | Some _ => Some lang
          | None => None
          end
      end
  end.

(** One field of the begin marker: [(?:name: (?<name>(?:true|false|null))\s)]. *)
Definition snippet_field (name : string) (s : string) : option (string * string) :=
  match strip_prefix (name ++ ": ") s with
  | None => None
  | Some r =>
      match first_alt ["true"; "false"; "null"] r with
      | None => None
      | Some (v, String c r') => if is_regex_space c then Some (v, r') else None
      | Some (_, "") => None
      end
  end.

(** The named groups of a match of [startSnippetRegex]. *)
Record StartGroups := {
  g_hide : string;
  g_console : string;
  g_babel : string;
  g_babelPresetReact : string;
  g_babelPresetTS : string
}.

Definition startSnippetRegex (line : string) : option StartGroups :=
  match strip_prefix "<!-- begin snippet: js " line with
  | None => None
  | Some r0 =>
  match snippet_field "hide" r0 with
  | None => None
  | Some (h, r1) =>
  match snippet_field "console" r1 with
  | None => None
  | Some (c, r2) =>
  match snippet_field "babel" r2 with
  | None => None
  | Some (b, r3) =>
  match snippet_field "babelPresetReact" r3 with
  | None => None
  | Some (br, r4) =>
  match snippet_field "babelPresetTS" r4 with
  | None => None
  | Some (bt, r5) =>
  match strip_prefix "-->" r5 with
  | None => None
  | Some _ =>
      Some {| g_hide := h; g_console := c; g_babel := b;
              g_babelPresetReact := br; g_babelPresetTS := bt |}
  end end end end end end end.

Record RawContext := { line : string; index : nat }.

(** [type MetaLine = BeginMetaLine | EndMetaLine | LangMetaLine]; the fields of
    [Begin] in the order of the interface: babel, babelPresetReact,
    babelPresetTS, console, hide. *)
Inductive MetaLine :=
| Begin (index : nat) (babel babelPresetReact babelPresetTS console hide : string)
| End_ (index : nat)
| Lang (index : nat) (language : string).

Definition meta_index (m : MetaLine) : nat :=
  match m with
  | Begin i _ _ _ _ _ => i
  | End_ i => i
  | Lang i _ => i
  end.

(** A string in a condition: the empty string is falsy. *)
Definition truthy_string (s : string) : bool := negb (s =? "").

(** [s || "null"] *)
Definition or_null (s : string) : string := if truthy_string s then s else "null".

Definition mapMetaLine (rawContext : RawContext) : option MetaLine :=
  let line := line rawContext in
  let index := index rawContext in
  if line =? "<!-- end snippet -->" then Some (End_ index)
  else
    match langSnippetRegex line with
    | Some lang => Some (Lang index lang)
    | None =>
        match startSnippetRegex line with
        | Some g =>
            if truthy_string (g_babel g) && truthy_string (g_babelPresetReact g)
               && truthy_string (g_babelPresetTS g) && truthy_string (g_console g)
               && truthy_string (g_hide g)
            then Some (Begin index (or_null (g_babel g)) (or_null (g_babelPresetReact g))
                             (or_null (g_babelPresetTS g)) (or_null (g_console g))
                             (or_null (g_hide g)))
            else None
        | None => None
        end
    end.

(* ===================================================================== *)
(** ** schema.ts: the region validator *)
(* ===================================================================== *)

Record ValidationResult := {
  valid : bool;
  beginIndex : option nat;
  endIndex : option nat;
  htmlIndex : option nat;
  cssIndex : option nat;
  jsIndex : option nat;
  reason : option string
}.

(** [if (x)] on a [number | undefined]: 0 and [undefined] are falsy. *)
Definition truthy (o : option nat) : bool :=
  match o with
  | Some (S _) => true
  | _ => false
  end.

(** [x != null] *)
Definition not_null (o : option nat) : bool :=
  match o with
  | Some _ => true
  | None => false
  end.

Definition initialResult : ValidationResult :=
  {| valid := false; beginIndex := None; endIndex := None; htmlIndex := None;
     cssIndex := None; jsIndex := None;
     reason := Some "Did not discover beginning and end" |}.

(** [{ valid: false, reason }] *)
Definition duplicate (r : string) : ValidationResult :=
  {| valid := false; beginIndex := None; endIndex := None; htmlIndex := None;
     cssIndex := None; jsIndex := None; reason := Some r |}.

Definition set_beginIndex (v : ValidationResult) (i : nat) : ValidationResult :=
  {| valid := valid v; beginIndex := Some i; endIndex := endIndex v;
     htmlIndex := htmlIndex v; cssIndex := cssIndex v; jsIndex := jsIndex v;
     reason := reason v |}.
Definition set_endIndex (v : ValidationResult) (i : nat) : ValidationResult :=
  {| valid := valid v; beginIndex := beginIndex v; endIndex := Some i;
     htmlIndex := htmlIndex v; cssIndex := cssIndex v; jsIndex := jsIndex v;
     reason := reason v |}.
Definition set_htmlIndex (v : ValidationResult) (i : nat) : ValidationResult :=
  {| valid := valid v; beginIndex := beginIndex v; endIndex := endIndex v;
     htmlIndex := Some i; cssIndex := cssIndex v; jsIndex := jsIndex v;
     reason := reason v |}.
Definition set_cssIndex (v : ValidationResult) (i : nat) : ValidationResult :=
  {| valid := valid v; beginIndex := beginIndex v; endIndex := endIndex v;
     htmlIndex := htmlIndex v; cssIndex := Some i; jsIndex := jsIndex v;
     reason := reason v |}.
Definition set_jsIndex (v : ValidationResult) (i : nat) : ValidationResult :=
  {| valid := valid v; beginIndex := beginIndex v; endIndex := endIndex v;
     htmlIndex := htmlIndex v; cssIndex := cssIndex v; jsIndex := Some i;
     reason := reason v |}.
(** [validationResult.valid = true; validationResult.reason = null] *)
Definition set_valid (v : ValidationResult) : ValidationResult :=
  {| valid := true; beginIndex := beginIndex v; endIndex := endIndex v;
     htmlIndex := htmlIndex v; cssIndex := cssIndex v; jsIndex := jsIndex v;
     reason := None |}.

(** The [switch] of the loop body either returns from the function or falls
    through to the test after it. *)
Inductive switch_flow :=
| Return (r : ValidationResult)
| Next (v : ValidationResult).

Definition validate_switch (v : ValidationResult) (m : MetaLine) : switch_flow :=
  match m with
  | Begin i _ _ _ _ _ =>
      if truthy (beginIndex v) then Return (duplicate "Duplicate Begin block")
      else Next (set_beginIndex v i)
  | End_ i =>
      if truthy (endIndex v) then Return (duplicate "Duplicate End block")
      else Next (set_endIndex v i)
  | Lang i language =>
      if language =? "js" then
        if truthy (jsIndex v) then Return (duplicate "Duplicate JS block")
        else Next (set_jsIndex v i)
      else if language =? "html" then
        if truthy (htmlIndex v) then Return (duplicate "Duplicate HTML block")
        else Next (set_htmlIndex v i)
      else if language =? "css" then
        if truthy (cssIndex v) then Return (duplicate "Duplicate CSS block")
        else Next (set_cssIndex v i)
      else Next v
  end.

(** How the [for] loop over [metaLines] is left: by a [return] inside the
    [switch], by the [break] after both positions are recorded, or by running
    past the last element. *)
Inductive loop_exit :=
| Returned (r : ValidationResult)
| Broke (v : ValidationResult)
| Exhausted (v : ValidationResult).

(** The [for] loop over [metaLines], from the current element on. *)
Fixpoint validate_loop (v : ValidationResult) (ms : list MetaLine) : loop_exit :=
  match ms with
  | [] => Exhausted v
  | m :: rest =>
      match validate_switch v m with
      | Return r => Returned r
      | Next v' =>
          if not_null (beginIndex v') && not_null (endIndex v')
          then Broke (set_valid v')
          else validate_loop v' rest
      end
  end.

Definition validateMetaLines (metaLines : list MetaLine) : ValidationResult :=
  match validate_loop initialResult metaLines with
  | Returned r => r
  | Broke v => v
  | Exhausted v => v
  end.

(* ===================================================================== *)
(** ** The host tokenizer: tokens and block state *)
(* ===================================================================== *)

(** The rule runs inside markdown-it.  What it uses of the host is embedded
    after the host's own code: [Token] with [attrSet] and [attrGet], and
    [StateBlock] with its constructor, [push] and [getLines]. *)

(** The part of the host's [Token] that the rules of this repository read or
    write.  [attrs] is [null] until the first attribute is set; the empty list
    stands for both.  [map_] is the field [map]. *)
Record Token := {
  type : string;
  tag : string;
  nesting : Z;
  attrs : list (string * string);
  map_ : option (nat * nat);
  level : Z;
  content : string;
  info : string;
  block : bool
}.

Definition new_Token (type tag : string) (nesting : Z) : Token :=
  {| type := type; tag := tag; nesting := nesting; attrs := []; map_ := None;
     level := 0; content := ""; info := ""; block := false |}.

Definition set_type (t : Token) (ty : string) : Token :=
  {| type := ty; tag := tag t; nesting := nesting t; attrs := attrs t;
     map_ := map_ t; level := level t; content := content t; info := info t;
     block := block t |}.
Definition set_attrs (t : Token) (a : list (string * string)) : Token :=
  {| type := type t; tag := tag t; nesting := nesting t; attrs := a;
     map_ := map_ t; level := level t; content := content t; info := info t;
     block := block t |}.
Definition set_map (t : Token) (m : nat * nat) : Token :=
  {| type := type t; tag := tag t; nesting := nesting t; attrs := attrs t;
     map_ := Some m; level := level t; content := content t; info := info t;
     block := block t |}.
Definition set_content (t : Token) (c : string) : Token :=
  {| type := type t; tag := tag t; nesting := nesting t; attrs := attrs t;
     map_ := map_ t; level := level t; content := c; info := info t;
     block := block t |}.
Definition set_level_block (t : Token) (l : Z) : Token :=
  {| type := type t; tag := tag t; nesting := nesting t; attrs := attrs t;
     map_ := map_ t; level := l; content := content t; info := info t;
     block := true |}.

(** [token.attrSet(name, value)]: replace the pair of that name, or push. *)
Fixpoint attrs_set (a : list (string * string)) (name value : string) : list (string * string) :=
  match a with
  | [] => [(name, value)]
  | (n, v) :: rest =>
      if n =? name then (name, value) :: rest
      else (n, v) :: attrs_set rest name value
  end.

Definition attrSet (t : Token) (name value : string) : Token :=
  set_attrs t (attrs_set (attrs t) name value).

(** [token.attrGet(name)]: the value of the first pair of that name, or
    [null]. *)
Fixpoint attrs_get (a : list (string * string)) (name : string) : option string :=
  match a with
  | [] => None
  | (n, v) :: rest => if n =? name then Some v else attrs_get rest name
  end.

Definition attrGet (t : Token) (name : string) : option string :=
  attrs_get (attrs t) name.

(** The host keeps five parallel arrays with one entry per line, always pushed
    together; they are one list of per-line records here. *)
Record LineMarks := {
  bMark : nat;
  eMark : nat;
  tShift_ : nat;
  sCount_ : Z;
  bsCount_ : nat
}.

Record StateBlock := {
  src : string;
  marks : list LineMarks;
  blkIndent : Z;
  state_line : nat;          (* state.line *)
  state_level : Z;           (* state.level *)
  tokens : list Token
}.

(** [state.bMarks[i]] and the like; [None] is [undefined]. *)
Definition bMarks (st : StateBlock) (i : nat) : option nat :=
  option_map bMark (nth_error (marks st) i).
Definition eMarks (st : StateBlock) (i : nat) : option nat :=
  option_map eMark (nth_error (marks st) i).
Definition tShift (st : StateBlock) (i : nat) : option nat :=
  option_map tShift_ (nth_error (marks st) i).
Definition sCount (st : StateBlock) (i : nat) : option Z :=
  option_map sCount_ (nth_error (marks st) i).

(** [state.lineMax]: the last entry of the arrays is a fake line. *)
Definition lineMax (st : StateBlock) : nat := List.length (marks st) - 1.

Definition set_tokens (st : StateBlock) (level' : Z) (toks : list Token) : StateBlock :=
  {| src := src st; marks := marks st; blkIndent := blkIndent st;
     state_line := state_line st; state_level := level'; tokens := toks |}.

Definition set_line (st : StateBlock) (l : nat) : StateBlock :=
  {| src := src st; marks := marks st; blkIndent := blkIndent st;
     state_line := l; state_level := state_level st; tokens := tokens st |}.

(** [state.push(type, tag, nesting)].  The token returned is the object that
    now sits at the end of [state.tokens]; it is handed back as its position in
    that array, and later writes to it go through [update_token]. *)
Definition push (st : StateBlock) (type tag : string) (nesting : Z)
  : nat * StateBlock :=
  let lvl := if (nesting <? 0)%Z then (state_level st - 1)%Z else state_level st in
  let token := set_level_block (new_Token type tag nesting) lvl in
  let lvl' := if (0 <? nesting)%Z then (lvl + 1)%Z else lvl in
  (List.length (tokens st), set_tokens st lvl' (tokens st ++ [token])%list).

Fixpoint update_nth {A : Type} (i : nat) (f : A -> A) (l : list A) : list A :=
  match l, i with
  | [], _ => []
  | x :: r, 0 => f x :: r
  | x :: r, S i' => x :: update_nth i' f r
  end.

Definition update_token (st : StateBlock) (h : nat) (f : Token -> Token) : StateBlock :=
  set_tokens st (state_level st) (update_nth h f (tokens st)).

Definition isSpace (code : option nat) : bool :=
  match code with
  | Some 9 => true
  | Some 32 => true
  | _ => false
  end.

Definition is_code (code : option nat) (n : nat) : bool :=
  match code with
  | Some c => (c =? n)%nat
  | None => false
  end.

(** The [while] loop of [getLines]: skip up to [indent] columns at the start of
    the line.  Every turn adds at least one column, so [indent] turns are
    enough; [fuel] counts them. *)
Fixpoint skip_indent (src : string) (m : LineMarks) (last indent : nat)
    (fuel first lineIndent : nat) : nat * nat :=
  match fuel with
  | 0 => (first, lineIndent)
  | S fuel' =>
      if ((first <? last) && (lineIndent <? indent))%nat then
        let ch := charCodeAt src (Some first) in
        if isSpace ch then
          let lineIndent' :=
            if is_code ch 9
            then lineIndent + (4 - (lineIndent + bsCount_ m) mod 4)
            else lineIndent + 1 in
          skip_indent src m last indent fuel' (first + 1) lineIndent'
        else if (first - bMark m <? tShift_ m)%nat then
          skip_indent src m last indent fuel' (first + 1) (lineIndent + 1)
        else (first, lineIndent)
      else (first, lineIndent)
  end.

Fixpoint spaces (n : nat) : string :=
  match n with
  | 0 => ""
  | S n' => String SPACE (spaces n')
  end.

(** One turn of the [for] loop of [getLines]: the text queued for [line].  For
    a line past the arrays every mark is [undefined]: the loop is not entered
    and the slice is empty when its end is [undefined + 1], the whole source
    otherwise. *)
Definition getLines_line (st : StateBlock) (end_ indent : nat) (keepLastLF : bool)
    (line : nat) : string :=
  let withLF := ((line + 1 <? end_)%nat || keepLastLF)%bool in
  match nth_error (marks st) line with
  | None => if withLF then "" else src st
  | Some m =>
      let last := if withLF then eMark m + 1 else eMark m in
      let '(first, lineIndent) :=
        skip_indent (src st) m last indent indent (bMark m) 0 in
      if (indent <? lineIndent)%nat
      then spaces (lineIndent - indent) ++ slice (src st) (Some first) (Some last)
      else slice (src st) (Some first) (Some last)
  end.

(** [state.getLines(begin, end, indent, keepLastLF)] *)
Definition getLines (st : StateBlock) (begin end_ indent : nat) (keepLastLF : bool)
  : string :=
  if (end_ <=? begin)%nat then ""
  else join "" (List.map (getLines_line st end_ indent keepLastLF)
                         (seq begin (end_ - begin))).

(** The line scan of the host's [StateBlock] constructor over the rest [s] of
    the source from position [pos]; [pos === len - 1] is [s] having one
    character left. *)
Fixpoint scan_lines (s : string) (pos start indent offset : nat)
    (indent_found : bool) (acc : list LineMarks) : list LineMarks :=
  match s with
  | "" => acc
  | String c rest =>
      let ch := nat_of_ascii c in
      if (negb indent_found && isSpace (Some ch))%bool then
        scan_lines rest (pos + 1) start (indent + 1)
          (if (ch =? 9)%nat then offset + (4 - offset mod 4) else offset + 1)
          false acc
      else if ((ch =? 10)%nat || (rest =? ""))%bool then
        let pos' := if (ch =? 10)%nat then pos else pos + 1 in
        scan_lines rest (pos' + 1) (pos' + 1) 0 0 false
          (acc ++ [{| bMark := start; eMark := pos'; tShift_ := indent;
                      sCount_ := Z.of_nat offset; bsCount_ := 0 |}])%list
      else scan_lines rest (pos + 1) start indent offset true acc
  end.

(** [new StateBlock(src, md, env, [])] *)
Definition mkState (text : string) : StateBlock :=
  {| src := text;
     marks := (scan_lines text 0 0 0 0 false []
               ++ [{| bMark := length text; eMark := length text; tShift_ := 0;
                      sCount_ := 0%Z; bsCount_ := 0 |}])%list;
     blkIndent := 0%Z;
     state_line := 0;
     state_level := 0%Z;
     tokens := [] |}.

(* ===================================================================== *)
(** ** schema.ts: the block rule *)
(* ===================================================================== *)

(** A call either returns or throws a [TypeError] (a property read on
    [undefined]). *)
Inductive outcome (A : Type) :=
| Ret (a : A)
| Throw.
Arguments Ret {A} a.
Arguments Throw {A}.

(** The scan loop of [parseSnippetBlock] over the lines [startLine ..
    endLine - 1]; 60 is the code of [<]. *)
Definition scan_step (state : StateBlock) (rawMetaLines : list RawContext) (i : nat)
  : list RawContext :=
  if negb (is_code (charCodeAt (src state) (bMarks state i)) 60) then rawMetaLines
  else
    let line := slice (src state) (bMarks state i) (eMarks state i) in
    if negb (validSnippetRegex line) then rawMetaLines
    else (rawMetaLines ++ [{| line := line; index := i |}])%list.

Definition scanMetaLines (state : StateBlock) (startLine endLine : nat)
  : list RawContext :=
  fold_left (scan_step state) (seq startLine (endLine - startLine)) [].

(** [rawMetaLines.map(mapMetaLine).filter((m) => m != null)] *)
Fixpoint map_filter_null {A B : Type} (f : A -> option B) (l : list A) : list B :=
  match l with
  | [] => []
  | x :: r =>
      match f x with
      | Some y => y :: map_filter_null f r
      | None => map_filter_null f r
      end
  end.

Definition collectMetaLines (state : StateBlock) (startLine endLine : nat)
  : list MetaLine :=
  map_filter_null mapMetaLine (scanMetaLines state startLine endLine).

(** [metaLines.pop()]: the array without its last element, and that element. *)
Fixpoint pop (l : list MetaLine) : option (list MetaLine * MetaLine) :=
  match l with
  | [] => None
  | [x] => Some ([], x)
  | x :: r =>
      match pop r with
      | Some (r', y) => Some (x :: r', y)
      | None => None
      end
  end.

Definition is_lang (m : MetaLine) : bool :=
  match m with
  | Lang _ _ => true
  | _ => false
  end.

(** [m.language]; only read on the entries of [langSort], which the filter
    before the sort leaves with [Lang] entries only. *)
Definition meta_language (m : MetaLine) : string :=
  match m with
  | Lang _ language => language
  | _ => ""
  end.

(** [sort((a, b) => a.index - b.index)]: a stable sort by index. *)
Fixpoint insert_by_index (m : MetaLine) (l : list MetaLine) : list MetaLine :=
  match l with
  | [] => [m]
  | x :: r =>
      if (meta_index m <=? meta_index x)%nat then m :: x :: r
      else x :: insert_by_index m r
  end.

Definition sort_by_index (l : list MetaLine) : list MetaLine :=
  fold_right insert_by_index [] l.

(** The [for] loop that emits one token per language, from the entry [l] of
    [langSort] on; [end.index] is [endIndex].  [langEnd - 1] is taken in the
    naturals: at [langEnd = 0] both -1 and 0 lie below the first line asked
    for, and [getLines] returns the empty string. *)
Fixpoint emit_langs (endIndex : nat) (langSort : list MetaLine) (state : StateBlock)
  : StateBlock :=
  match langSort with
  | [] => state
  | l :: rest =>
      let langEnd :=
        match rest with
        | [] => endIndex
        | next :: _ => meta_index next
        end in
      let langBlock := getLines state (meta_index l + 2) (langEnd - 1) 4 false in
      let '(langToken, state) := push state "stack_snippet_lang" "code" 1 in
      let state := update_token state langToken (fun t => set_content t langBlock) in
      let state := update_token state langToken
                     (fun t => set_map t (meta_index l, langEnd)) in
      let state := update_token state langToken
                     (fun t => attrSet t "language" (meta_language l)) in
      emit_langs endIndex rest state
  end.

Definition parseSnippetBlock (state : StateBlock) (startLine endLine : nat)
    (silent : bool) : outcome (bool * StateBlock) :=
  (* if it's indented more than 3 spaces, it should be a code block *)
  if match sCount state startLine with
     | Some sc => (4 <=? sc - blkIndent state)%Z
     | None => false
     end
  then Ret (false, state)
  (* snippets cannot be indented *)
  else if (negb (blkIndent state =? 0)%Z
           || match tShift state startLine with
              | Some ts => negb (ts =? 0)%nat
              | None => true
              end)%bool
  then Ret (false, state)
  else
    let openingLine :=
      slice (src state) (bMarks state startLine) (eMarks state startLine) in
    if negb (validSnippetRegex openingLine) then Ret (false, state)
    else
      let metaLines := collectMetaLines state startLine endLine in
      let validationResult := validateMetaLines metaLines in
      if (silent || negb (valid validationResult))%bool
      then Ret (valid validationResult, state)
      else
        match metaLines with
        | [] => Throw
        | Begin _ babel babelPresetReact babelPresetTS console hide :: metaLines =>
            match pop metaLines with
            | None => Throw
            | Some (metaLines, End_ endIndex) =>
                let langSort := sort_by_index (filter is_lang metaLines) in
                if negb (forallb is_lang langSort) then Ret (false, state)
                else
                  let '(openToken, state) :=
                    push state "stack_snippet_open" "code" 1 in
                  let state := update_token state openToken
                                 (fun t => attrSet t "hide" hide) in
                  let state := update_token state openToken
                                 (fun t => attrSet t "console" console) in
                  let state := update_token state openToken
                                 (fun t => attrSet t "babel" babel) in
                  let state := update_token state openToken
                                 (fun t => attrSet t "babelPresetReact" babelPresetReact) in
                  let state := update_token state openToken
                                 (fun t => attrSet t "babelPresetTS" babelPresetTS) in
                  let state := emit_langs endIndex langSort state in
                  let '(_, state) := push state "stack_snippet_close" "code" (-1) in
                  let state := set_line state (endIndex + 1) in
                  Ret (true, state)
            | Some (_, _) => Ret (false, state)
            end
        | _ :: _ => Ret (false, state)
        end.

(* ===================================================================== *)
(** ** schema.ts: nodes, token-to-node attributes, serializer *)
(* ===================================================================== *)

(** A [stack_snippet_lang] node: its [language] attribute and its text. *)
Record LangNode := {
  language : option string;
  textContent : string
}.

(** A [stack_snippet] node: its five attributes and its children. *)
Record SnippetNode := {
  hide : option string;
  console : option string;
  babel : option string;
  babelPresetReact : option string;
  babelPresetTS : option string;
  children : list LangNode
}.

(** [stackSnippetRichTextNodeSpec]: each of the five attributes of
    [stack_snippet] defaults to the string [null]; the attribute [language] of
    [stack_snippet_lang] defaults to the empty string and validates as a
    string among js, css, html. *)
Definition stack_snippet_attr_default : string := "null".

Definition stack_snippet_lang_default : string := "".

Definition language_validate (value : string) : bool :=
  existsb (String.eqb value) ["js"; "css"; "html"].

(** The content expression of [stack_snippet] in
    [stackSnippetRichTextNodeSpec]: exactly three [stack_snippet_lang]. *)
Definition stack_snippet_content : list string :=
  ["stack_snippet_lang"; "stack_snippet_lang"; "stack_snippet_lang"].

(** The layer that builds the tree from the tokens is the host's
    (prosemirror-markdown over prosemirror-model).  What it does with the
    tokens of this rule, under [stackSnippetMarkdownParser] and
    [stackSnippetRichTextNodeSpec], is embedded after the host's own code. *)

(** [withoutTrailingNewline(str)]:
    [str[str.length - 1] == LF ? str.slice(0, str.length - 1) : str] *)
Definition withoutTrailingNewline (str : string) : string :=
  match get (length str - 1) str with
  | Some c => if Ascii.eqb c LF then take (length str - 1) str else str
  | None => str
  end.

(** The handler of a token with [noCloseToken]: the node is opened with the
    attributes [stackSnippetMarkdownParser.stack_snippet_lang.getAttrs] reads
    off the token, the content of the token is added as text without one
    trailing line feed, and the node is closed. *)
Definition langNode_of_token (tok : Token) : LangNode :=
  {| language := attrGet tok "language";
     textContent := withoutTrailingNewline (content tok) |}.

(** The tokens between the open and the close token of the block: a language
    token adds a child to the open node, the close token ends the run. *)
Fixpoint langNodes_of_tokens (toks : list Token) : option (list LangNode) :=
  match toks with
  | [] => None
  | [t] => if type t =? "stack_snippet_close" then Some [] else None
  | t :: rest =>
      if type t =? "stack_snippet_lang" then
        match langNodes_of_tokens rest with
        | Some ns => Some (langNode_of_token t :: ns)
        | None => None
        end
      else None
  end.

(** The node the host creates for a missing child: a [stack_snippet_lang]
    with the default of its attribute and no text. *)
Definition filler : LangNode :=
  {| language := Some stack_snippet_lang_default; textContent := "" |}.

(** [createAndFill] on the children collected for a [stack_snippet], all of
    them [stack_snippet_lang]: they fit when they are no more than the
    content expression asks for, and the missing ones are added at the end;
    [None] is [null], no fitting found. *)
Definition createAndFill (content : list LangNode) : option (list LangNode) :=
  let want := List.length stack_snippet_content in
  if (List.length content <=? want)%nat
  then Some (content ++ repeat filler (want - List.length content))%list
  else None.

(** The handlers of the open and the close token of the block: the node is
    opened with the attributes [stackSnippetMarkdownParser.stack_snippet.getAttrs]
    reads off the open token, and closed through [createAndFill]; a node
    that does not fit is not added to the tree. *)
Definition snippetNode_of_tokens (toks : list Token) : option SnippetNode :=
  match toks with
  | tok :: rest =>
      if type tok =? "stack_snippet_open" then
        match langNodes_of_tokens rest with
        | Some ns =>
            match createAndFill ns with
            | Some filled =>
                Some {| hide := attrGet tok "hide";
                        console := attrGet tok "console";
                        babel := attrGet tok "babel";
                        babelPresetReact := attrGet tok "babelPresetReact";
                        babelPresetTS := attrGet tok "babelPresetTS";
                        children := filled |}
            | None => None
            end
        | None => None
        end
      else None
  | [] => None
  end.

(** Parsing an envelope: the host builds the block state of the text and calls
    the rule in committing mode at line 0 with the whole document as span. *)
Definition parseEnvelope (text : string) : option SnippetNode :=
  let state := mkState text in
  match parseSnippetBlock state 0 (lineMax state) false with
  | Ret (true, state') => snippetNode_of_tokens (tokens state')
  | _ => None
  end.

(** Modelled from the spec: [assertAttrValue] of [./common], which is not among
    the sources: the attribute's current value, the string [null] when it is
    absent. *)
Definition assertAttrValue (attr : option string) : string :=
  match attr with
  | Some v => v
  | None => "null"
  end.

Record SnippetMetadata := {
  meta_hide : string;
  meta_console : string;
  meta_babel : string;
  meta_babelPresetReact : string;
  meta_babelPresetTS : string
}.

(** Modelled from the spec: [getSnippetMetadata] of [./common], which is not
    among the sources: the five attributes of the node, each with the fallback
    of [assertAttrValue]. *)
Definition getSnippetMetadata (node : SnippetNode) : SnippetMetadata :=
  {| meta_hide := assertAttrValue (hide node);
     meta_console := assertAttrValue (console node);
     meta_babel := assertAttrValue (babel node);
     meta_babelPresetReact := assertAttrValue (babelPresetReact node);
     meta_babelPresetTS := assertAttrValue (babelPresetTS node) |}.

(** The serializer state of the host (prosemirror-markdown): the text written
    so far and whether a block was closed.  [write] on a state with no pending
    closed block and an empty line prefix appends. *)
Record SerializerState := {
  out : string;
  closed : bool
}.

Definition write (state : SerializerState) (content : string) : SerializerState :=
  {| out := out state ++ content; closed := closed state |}.

Definition closeBlock (state : SerializerState) : SerializerState :=
  {| out := out state; closed := true |}.

Definition NL : string := String LF "".

(** [(l) => (l !== "" ? "    " + l : l)] *)
Definition pad_line (l : string) : string :=
  if negb (l =? "") then "    " ++ l else l.

(** The body of [node.forEach((langNode) => ...)]. *)
Definition serialize_lang (state : SerializerState) (langNode : LangNode)
  : SerializerState :=
  let language := assertAttrValue (language langNode) in
  let state := write state ("<!-- language: lang-" ++ language ++ " -->" ++ NL ++ NL) in
  let spacedContent := List.map pad_line (split_lines (textContent langNode)) in
  let state := fold_left (fun st l => write st (l ++ NL)) spacedContent state in
  write state NL.

(** [stackSnippetMarkdownSerializer.stack_snippet(state, node)] *)
Definition stack_snippet (state : SerializerState) (node : SnippetNode)
  : SerializerState :=
  let meta := getSnippetMetadata node in
  let state :=
    write state
      ("<!-- begin snippet: js hide: " ++ meta_hide meta
       ++ " console: " ++ meta_console meta
       ++ " babel: " ++ meta_babel meta
       ++ " babelPresetReact: " ++ meta_babelPresetReact meta
       ++ " babelPresetTS: " ++ meta_babelPresetTS meta ++ " -->") in
  let state := write state (NL ++ NL) in
  let state := fold_left serialize_lang (children node) state in
  let state := write state "<!-- end snippet -->" in
  closeBlock state.

(** The text of a node serialized on its own. *)
Definition serialize (node : SnippetNode) : string :=
  out (stack_snippet {| out := ""; closed := false |} node).

(* ===================================================================== *)
(** ** The escape-preserving inline rule *)
(* ===================================================================== *)

Module Escape.

(** The inline state of the host: the rules read and write its position and
    pending text, and push tokens. *)
Record StateInline := {
  src : string;
  pos : nat;
  posMax : nat;
  pending : string;
  tokens : list Token
}.

Definition set_tokens (st : StateInline) (toks : list Token) : StateInline :=
  {| src := src st; pos := pos st; posMax := posMax st; pending := pending st;
     tokens := toks |}.

(** [MarkdownIt.ParserInline.RuleInline]: a rule returns whether it matched
    and leaves its effects in the state. *)
Definition RuleInline : Type := StateInline -> bool -> bool * StateInline.

(** A rule function with its [name] property. *)
Record RuleFn := {
  name : string;
  call : RuleInline
}.

(** The host: [md.inline.ruler.getRules("")] is the list of the enabled inline
    rule functions. *)
Record MarkdownIt := {
  inline_rules : list RuleFn
}.

Definition getRules (md : MarkdownIt) : list RuleFn := inline_rules md.

Definition noop : RuleInline := fun state _ => (false, state).

(** [tokens.findLast(p)], as the position of the token found. *)
Fixpoint findLast (p : Token -> bool) (l : list Token) : option nat :=
  match l with
  | [] => None
  | t :: r =>
      match findLast p r with
      | Some i => Some (S i)
      | None => if p t then Some 0 else None
      end
  end.

Definition preserveEscapeFn (escapeFn : RuleInline) : RuleInline :=
  fun state silent =>
    let '(escRet, state) := escapeFn state silent in
    (* the rule did nothing: nothing to fix *)
    if (silent || negb escRet)%bool then (escRet, state)
    else
      match findLast (fun t => info t =? "escape") (tokens state) with
      | Some escapeToken =>
          (escRet,
           set_tokens state
             (update_nth escapeToken (fun t => set_type t "escape") (tokens state)))
      | None => (escRet, state)
      end.

Definition buildPreserveEscapeFn (md : MarkdownIt) : RuleInline :=
  match filter (fun r => name r =? "escape") (getRules md) with
  | [] => noop
  | escapeFn :: _ => preserveEscapeFn (call escapeFn)
  end.

End Escape.

(* ===================================================================== *)
(** ** Installing the escape-preserving rule *)
(* ===================================================================== *)

Module EscapeRuler.

(** The rule chain of the host ([md.inline.ruler]): each entry has the name it
    is registered under, whether it is enabled, and its function. *)
Record Rule := {
  rule_name : string;
  enabled : bool;
  fn : Escape.RuleFn
}.

(** [ruler.getRules("")]: the functions of the enabled rules, in order. *)
Definition getRules (ruler : list Rule) : list Escape.RuleFn :=
  List.map fn (filter enabled ruler).

(** [ruler.at(name, fn)]: the function of the first rule registered under
    [name] is replaced, the rule stays where it is and as enabled as it was;
    the host throws an [Error] when no rule has that name. *)
Fixpoint ruler_at (ruler : list Rule) (name : string) (f : Escape.RuleFn)
  : option (list Rule) :=
  match ruler with
  | [] => None
  | r :: rest =>
      if rule_name r =? name
      then Some ({| rule_name := rule_name r; enabled := enabled r; fn := f |} :: rest)
      else
        match ruler_at rest name f with
        | Some rest' => Some (r :: rest')
        | None => None
        end
  end.

(** The host as [buildPreserveEscapeFn] reads it. *)
Definition md_of (ruler : list Rule) : Escape.MarkdownIt :=
  {| Escape.inline_rules := getRules ruler |}.

(** The two function values [buildPreserveEscapeFn] can return, with the
    [name] property the source gives each: the arrow function bound to
    [noop], and the function expression [preserveEscapeFn]. *)
Definition noop : Escape.RuleFn :=
  {| Escape.name := "noop"; Escape.call := Escape.noop |}.

Definition preserveEscapeFn (escapeFn : Escape.RuleFn) : Escape.RuleFn :=
  {| Escape.name := "preserveEscapeFn";
     Escape.call := Escape.preserveEscapeFn (Escape.call escapeFn) |}.

Definition buildPreserveEscapeFn (ruler : list Rule) : Escape.RuleFn :=
  match filter (fun r => Escape.name r =? "escape") (getRules ruler) with
  | [] => noop
  | escapeFn :: _ => preserveEscapeFn escapeFn
  end.

(** [preserve_escape(md)]; [Throw] is the [Error] of [ruler.at]. *)
Definition preserve_escape (ruler : list Rule) : outcome (list Rule) :=
  let preserveEscapeTokens := buildPreserveEscapeFn ruler in
  match ruler_at ruler "escape" preserveEscapeTokens with
  | Some ruler' => Ret ruler'
  | None => Throw
  end.

(** The function registered under a name, if any. *)
Fixpoint rule_fn (ruler : list Rule) (name : string) : option Escape.RuleFn :=
  match ruler with
  | [] => None
  | r :: rest => if rule_name r =? name then Some (fn r) else rule_fn rest name
  end.

End EscapeRuler.

(* ===================================================================== *)
(** ** Vocabulary of the properties *)
(* ===================================================================== *)

(** A tri-state value of the begin marker. *)
Definition tri_state (v : string) : Prop :=
  v = "true" \/ v = "false" \/ v = "null".

(** The three language tokens. *)
Definition snippet_language (l : string) : Prop :=
  l = "js" \/ l = "css" \/ l = "html".

(** The line carries the five fields in the order hide, console, babel,
    babelPresetReact, babelPresetTS, each followed by one white space
    character, between the literal opening and [-->]. *)
Definition begin_shape (line h c b br bt : string) : Prop :=
  exists (w1 w2 w3 w4 w5 : ascii) (rest : string),
    is_regex_space w1 = true /\ is_regex_space w2 = true /\
    is_regex_space w3 = true /\ is_regex_space w4 = true /\
    is_regex_space w5 = true /\
    line = "<!-- begin snippet: js hide: " ++ h ++ String w1
           ("console: " ++ c ++ String w2
           ("babel: " ++ b ++ String w3
           ("babelPresetReact: " ++ br ++ String w4
           ("babelPresetTS: " ++ bt ++ String w5 ("-->" ++ rest))))).

(** The five categories the validator keeps a position for.  A [Lang] line
    with a language outside js, html, css belongs to none. *)
Inductive category := CBegin | CEnd | CJs | CHtml | CCss.

Definition category_of (m : MetaLine) : option category :=
  match m with
  | Begin _ _ _ _ _ _ => Some CBegin
  | End_ _ => Some CEnd
  | Lang _ l =>
      if l =? "js" then Some CJs
      else if l =? "html" then Some CHtml
      else if l =? "css" then Some CCss
      else None
  end.

Definition category_eqb (a b : category) : bool :=
  match a, b with
  | CBegin, CBegin | CEnd, CEnd | CJs, CJs | CHtml, CHtml | CCss, CCss => true
  | _, _ => false
  end.

Definition in_category (c : category) (m : MetaLine) : bool :=
  match category_of m with
  | Some c' => category_eqb c c'
  | None => false
  end.

(** The categories of the lines of a sequence, in order. *)
Definition categories (ms : list MetaLine) : list category :=
  map_filter_null category_of ms.

Definition duplicate_reason (c : category) : string :=
  match c with
  | CBegin => "Duplicate Begin block"
  | CEnd => "Duplicate End block"
  | CJs => "Duplicate JS block"
  | CHtml => "Duplicate HTML block"
  | CCss => "Duplicate CSS block"
  end.

(** The position the validator keeps for a category. *)
Definition recorded (c : category) (v : ValidationResult) : option nat :=
  match c with
  | CBegin => beginIndex v
  | CEnd => endIndex v
  | CJs => jsIndex v
  | CHtml => htmlIndex v
  | CCss => cssIndex v
  end.

Definition has_begin (ms : list MetaLine) : bool := existsb (in_category CBegin) ms.
Definition has_end (ms : list MetaLine) : bool := existsb (in_category CEnd) ms.

(** Writing a position into the field of a category. *)
Definition record (c : category) (v : ValidationResult) (i : nat) : ValidationResult :=
  match c with
  | CBegin => set_beginIndex v i
  | CEnd => set_endIndex v i
  | CJs => set_jsIndex v i
  | CHtml => set_htmlIndex v i
  | CCss => set_cssIndex v i
  end.

(** The index of the last line of a category in a sequence. *)
Fixpoint last_index_of (c : category) (ms : list MetaLine) : option nat :=
  match ms with
  | [] => None
  | m :: r =>
      match last_index_of c r with
      | Some i => Some i
      | None => if in_category c m then Some (meta_index m) else None
      end
  end.

(** Both a begin and an end position are recorded. *)
Definition both_recorded (v : ValidationResult) : bool :=
  not_null (beginIndex v) && not_null (endIndex v).

Definition is_begin (m : MetaLine) : bool :=
  match m with
  | Begin _ _ _ _ _ _ => true
  | _ => false
  end.

Definition is_end (m : MetaLine) : bool :=
  match m with
  | End_ _ => true
  | _ => false
  end.

(** The three tests after validation that make the rule give up: the first
    collected meta-line is not a Begin; the last one is not an End; an entry of
    [langSort] is not a Lang. *)
Definition first_not_begin (metaLines : list MetaLine) : Prop :=
  exists m rest, metaLines = m :: rest /\ is_begin m = false.

Definition last_not_end (metaLines : list MetaLine) : Prop :=
  exists m rest mid e,
    metaLines = m :: rest /\ pop rest = Some (mid, e) /\ is_end e = false.

Definition rest_not_lang (metaLines : list MetaLine) : Prop :=
  exists m rest mid e,
    metaLines = m :: rest /\ pop rest = Some (mid, e)
    /\ forallb is_lang (sort_by_index (filter is_lang mid)) = false.

(** A document in which a language marker comes before the begin marker. *)
Definition lang_before_begin : string :=
  "<!-- language: lang-js -->" ++ NL
  ++ "<!-- begin snippet: js hide: null console: null babel: null babelPresetReact: null babelPresetTS: null -->"
  ++ NL ++ "<!-- end snippet -->".

(** [l'] is [l] with the type of its last token of info [escape] changed to
    [escape], and nothing else changed; [l] itself when it has no such token. *)
Definition retag_last_escape (l l' : list Token) : Prop :=
  (l' = l /\ forall t, In t l -> info t <> "escape")
  \/ (exists pre t post,
        l = (pre ++ t :: post)%list /\ info t = "escape"
        /\ (forall u, In u post -> info u <> "escape")
        /\ l' = (pre ++ set_type t "escape" :: post)%list).

(** A delegate that matches a backslash escape by pushing a [text_special]
    token of info [escape], and a host with that rule under the name
    [escape]. *)
Definition sample_escape : Escape.RuleInline :=
  fun state silent =>
    if silent then (true, state)
    else
      (true,
       Escape.set_tokens state
         (Escape.tokens state
          ++ [{| type := "text_special"; tag := ""; nesting := 0%Z; attrs := [];
                 map_ := None; level := 0%Z; content := "*"; info := "escape";
                 block := false |}])%list).

Definition sample_md : Escape.MarkdownIt :=
  {| Escape.inline_rules :=
       [{| Escape.name := "text"; Escape.call := Escape.noop |};
        {| Escape.name := "escape"; Escape.call := sample_escape |}] |}.

Definition sample_inline_state : Escape.StateInline :=
  {| Escape.src := "\*"; Escape.pos := 0; Escape.posMax := 2;
     Escape.pending := ""; Escape.tokens := [] |}.

(** The begin marker with the five values in the order hide, console, babel,
    babelPresetReact, babelPresetTS. *)
Definition begin_marker (h c b br bt : string) : string :=
  "<!-- begin snippet: js hide: " ++ h ++ " console: " ++ c ++ " babel: " ++ b
  ++ " babelPresetReact: " ++ br ++ " babelPresetTS: " ++ bt ++ " -->".

Definition lang_marker (l : string) : string :=
  "<!-- language: lang-" ++ l ++ " -->".

Definition end_marker : string := "<!-- end snippet -->".

(** An attribute's value, the string [null] when it is absent. *)
Definition value_or_null (a : option string) : string :=
  match a with
  | Some v => v
  | None => "null"
  end.

(** The lines of one language block: marker, blank line, the lines of the
    content with four spaces before each non-empty one, blank line. *)
Definition indent4 (l : string) : string :=
  if l =? "" then "" else "    " ++ l.

Definition lang_lines (n : LangNode) : list string :=
  ([lang_marker (value_or_null (language n)); ""]
   ++ List.map indent4 (split_lines (textContent n))
   ++ [""])%list.

(** The lines of a serialized node. *)
Definition snippet_lines (node : SnippetNode) : list string :=
  ([begin_marker (value_or_null (hide node)) (value_or_null (console node))
                 (value_or_null (babel node))
                 (value_or_null (babelPresetReact node))
                 (value_or_null (babelPresetTS node)); ""]
   ++ flat_map lang_lines (children node)
   ++ [end_marker])%list.

(** Lines, each one ended by a line feed. *)
Fixpoint unlines (ls : list string) : string :=
  match ls with
  | [] => ""
  | l :: r => l ++ NL ++ unlines r
  end.

(** A line of text: a string without line feed. *)
Fixpoint no_lf (s : string) : bool :=
  match s with
  | "" => true
  | String c r => negb (Ascii.eqb c LF) && no_lf r
  end.

(** The white space at the start of a line, as the host counts it: the number
    of characters and the number of columns, a tab filling up to the next
    multiple of 4. *)
Fixpoint leading (l : string) (indent offset : nat) : nat * nat :=
  match l with
  | "" => (indent, offset)
  | String c r =>
      if isSpace (Some (nat_of_ascii c)) then
        leading r (indent + 1)
          (if (nat_of_ascii c =? 9)%nat then offset + (4 - offset mod 4)
           else offset + 1)
      else (indent, offset)
  end.

Definition marks_of_line (pos : nat) (l : string) : LineMarks :=
  {| bMark := pos; eMark := pos + length l;
     tShift_ := fst (leading l 0 0);
     sCount_ := Z.of_nat (snd (leading l 0 0));
     bsCount_ := 0 |}.

(** The marks of the lines [ls] laid out from position [pos], one line feed
    between two lines. *)
Fixpoint line_marks (pos : nat) (ls : list string) : list LineMarks :=
  match ls with
  | [] => []
  | l :: r => marks_of_line pos l :: line_marks (pos + length l + 1) r
  end.

Definition starts_nonspace (l : string) : bool :=
  match l with
  | String c _ => negb (isSpace (Some (nat_of_ascii c)))
  | "" => false
  end.

(** Line [k] of the state is the text [l]: its marks delimit [l] in the
    source, with the indentation counters of [l]; after [l] comes a line feed
    when [terminated] is set, a line feed or the end of the source otherwise. *)
Definition line_is (st : StateBlock) (k : nat) (l : string) (terminated : bool)
  : Prop :=
  exists m pre post,
    nth_error (marks st) k = Some m
    /\ src st = pre ++ l ++ post
    /\ m = marks_of_line (length pre) l
    /\ no_lf l = true
    /\ ((terminated = false /\ post = "") \/ exists q, post = String LF q).

(** The lines of a document: none holds a line feed, and the last one starts
    with a character other than space and tab. *)
Definition well_formed_doc (ls : list string) : Prop :=
  Forall (fun l => no_lf l = true) ls
  /\ exists init last, ls = (init ++ [last])%list /\ starts_nonspace last = true.

Definition starts_with_lt (l : string) : bool :=
  match l with
  | String c _ => (nat_of_ascii c =? 60)%nat
  | "" => false
  end.

(** The raw meta-lines among the lines [ls], the first of which is line [k]:
    the lines that start with [<] and pass [validSnippetRegex]. *)
Fixpoint raw_of_lines (k : nat) (ls : list string) : list RawContext :=
  match ls with
  | [] => []
  | l :: r =>
      if (starts_with_lt l && validSnippetRegex l)%bool
      then {| line := l; index := k |} :: raw_of_lines (S k) r
      else raw_of_lines (S k) r
  end.

(** From line [b] on, the lines of the state are the texts [ts], each one
    behind exactly four spaces of padding, or fully empty where the text is
    empty. *)
Definition padded_lines (st : StateBlock) (b : nat) (ts : list string) : Prop :=
  forall k t, nth_error ts k = Some t ->
    line_is st (b + k) ("    " ++ t) true
    \/ (t = "" /\ line_is st (b + k) "" true).

(** The tokens of a recognized region. *)
Definition open_token (lvl : Z) (h c b br bt : string) : Token :=
  {| type := "stack_snippet_open"; tag := "code"; nesting := 1%Z;
     attrs := [("hide", h); ("console", c); ("babel", b);
               ("babelPresetReact", br); ("babelPresetTS", bt)];
     map_ := None; level := lvl; content := ""; info := ""; block := true |}.

Definition close_token (lvl : Z) : Token :=
  {| type := "stack_snippet_close"; tag := "code"; nesting := (-1)%Z;
     attrs := []; map_ := None; level := lvl; content := ""; info := "";
     block := true |}.

(** Where the block of the language marker [l] ends: at the next language
    marker of the sorted list, or at the end marker. *)
Definition lang_end (endIndex : nat) (rest : list MetaLine) : nat :=
  match rest with
  | [] => endIndex
  | next :: _ => meta_index next
  end.

Definition lang_token (st : StateBlock) (endIndex : nat) (l : MetaLine)
    (rest : list MetaLine) (lvl : Z) : Token :=
  {| type := "stack_snippet_lang"; tag := "code"; nesting := 1%Z;
     attrs := [("language", meta_language l)];
     map_ := Some (meta_index l, lang_end endIndex rest);
     level := lvl;
     content := getLines st (meta_index l + 2) (lang_end endIndex rest - 1) 4 false;
     info := ""; block := true |}.

Fixpoint lang_tokens (st : StateBlock) (endIndex : nat) (langSort : list MetaLine)
    (lvl : Z) : list Token :=
  match langSort with
  | [] => []
  | l :: rest =>
      lang_token st endIndex l rest lvl :: lang_tokens st endIndex rest (lvl + 1)
  end.

(** The state after a committed recognition. *)
Definition committed (st : StateBlock) (endIndex : nat) (h c b br bt : string)
    (langSort : list MetaLine) : StateBlock :=
  {| src := src st; marks := marks st; blkIndent := blkIndent st;
     state_line := endIndex + 1;
     state_level := (state_level st + Z.of_nat (List.length langSort))%Z;
     tokens := (tokens st
                ++ open_token (state_level st) h c b br bt
                   :: lang_tokens st endIndex langSort (state_level st + 1)
                ++ [close_token (state_level st + Z.of_nat (List.length langSort))])%list |}.

(** The three tests before the scan: less than four columns of indentation,
    no block indent and no shift, and an opening line that looks like a
    marker. *)
Definition guards_pass (st : StateBlock) (startLine : nat) : bool :=
  (negb match sCount st startLine with
        | Some sc => (4 <=? sc - blkIndent st)%Z
        | None => false
        end
   && negb (negb (blkIndent st =? 0)%Z
            || match tShift st startLine with
               | Some ts => negb (ts =? 0)%nat
               | None => true
               end)
   && validSnippetRegex
        (slice (src st) (bMarks st startLine) (eMarks st startLine)))%bool.

(** An envelope with two language blocks, the first with an empty line
    between two lines of code. *)
Definition sample_lines : list string :=
  ["<!-- begin snippet: js hide: null console: true babel: false babelPresetReact: null babelPresetTS: null -->";
   "";
   "<!-- language: lang-js -->";
   "";
   "    console.log(1);";
   "";
   "      console.log(2);";
   "";
   "<!-- language: lang-css -->";
   "";
   "    body { color: red; }";
   "";
   "<!-- end snippet -->"].

Definition sample_envelope : string := join NL sample_lines.

Definition sample_state : StateBlock := mkState sample_envelope.

(** The state of a call that returned one. *)
Definition state_of (o : outcome (bool * StateBlock)) (default : StateBlock)
  : StateBlock :=
  match o with
  | Ret (_, st) => st
  | Throw => default
  end.



(** Well-formed nodes: the five attributes are tri-state values, every child
    has one of the three languages, and no two children have the same. *)
Definition well_formed_node (node : SnippetNode) : Prop :=
  (exists h c b br bt,
     hide node = Some h /\ console node = Some c /\ babel node = Some b
     /\ babelPresetReact node = Some br /\ babelPresetTS node = Some bt
     /\ tri_state h /\ tri_state c /\ tri_state b /\ tri_state br
     /\ tri_state bt)
  /\ Forall (fun n => exists l, language n = Some l /\ snippet_language l)
            (children node)
  /\ NoDup (List.map language (children node)).


(** The meta-lines among the lines [ls], the first of which is line [k]. *)
Definition meta_of_lines (k : nat) (ls : list string) : list MetaLine :=
  map_filter_null mapMetaLine (raw_of_lines k ls).

(** The language markers of the serialized children, the first one at line
    [k]. *)
Fixpoint langs_meta (k : nat) (ns : list LangNode) : list MetaLine :=
  match ns with
  | [] => []
  | n :: r =>
      Lang k (value_or_null (language n))
      :: langs_meta (k + List.length (lang_lines n)) r
  end.

(** The state holds the lines [ls] as its lines 0, 1, ... *)
Definition doc_lines (st : StateBlock) (ls : list string) : Prop :=
  forall k l, nth_error ls k = Some l ->
    line_is st k l (k + 1 <? List.length ls)%nat.

(** The verbatim reading of the sample envelope: its two language blocks. *)
Definition sample_node : SnippetNode :=
  {| hide := Some "null"; console := Some "true"; babel := Some "false";
     babelPresetReact := Some "null"; babelPresetTS := Some "null";
     children :=
       [{| language := Some "js";
           textContent := join NL ["console.log(1);"; ""; "  console.log(2);"] |};
        {| language := Some "css"; textContent := "body { color: red; }" |}] |}.

(** An envelope with the three languages whose first block has a line of
    four spaces and whose first and last block are followed by two empty
    lines. *)
Definition loose_envelope : string :=
  join NL
    ["<!-- begin snippet: js hide: null console: true babel: false babelPresetReact: null babelPresetTS: null -->";
     "";
     "<!-- language: lang-js -->";
     "";
     "    a";
     "    ";
     "    b";
     "";
     "";
     "<!-- language: lang-css -->";
     "";
     "    c";
     "";
     "<!-- language: lang-html -->";
     "";
     "    d";
     "";
     "";
     "<!-- end snippet -->"].

(** Two envelopes in one text: the span of the rule runs to the end of the
    text and holds two end markers and the js marker twice. *)
Definition two_envelopes : string :=
  join NL
    ["<!-- begin snippet: js hide: null console: true babel: false babelPresetReact: null babelPresetTS: null -->";
     "";
     "<!-- language: lang-js -->";
     "";
     "    a";
     "";
     "<!-- end snippet -->";
     "";
     "<!-- begin snippet: js hide: null console: true babel: false babelPresetReact: null babelPresetTS: null -->";
     "";
     "<!-- language: lang-js -->";
     "";
     "    b";
     "";
     "<!-- end snippet -->"].

(** An envelope with content lines behind less than four columns of
    padding. *)
Definition under_padded_envelope : string :=
  join NL
    ["<!-- begin snippet: js hide: null console: true babel: false babelPresetReact: null babelPresetTS: null -->";
     "";
     "<!-- language: lang-js -->";
     "";
     "  a;";
     "b;";
     "";
     "<!-- end snippet -->"].

(** A host with a text rule and the escape rule of [sample_escape], both
    enabled. *)
Definition sample_text_rule : EscapeRuler.Rule :=
  {| EscapeRuler.rule_name := "text"; EscapeRuler.enabled := true;
     EscapeRuler.fn := {| Escape.name := "text"; Escape.call := Escape.noop |} |}.

Definition sample_escape_rule : EscapeRuler.Rule :=
  {| EscapeRuler.rule_name := "escape"; EscapeRuler.enabled := true;
     EscapeRuler.fn := {| Escape.name := "escape"; Escape.call := sample_escape |} |}.

(** The escape rule, disabled. *)
Definition sample_disabled_rule : EscapeRuler.Rule :=
  {| EscapeRuler.rule_name := "escape"; EscapeRuler.enabled := false;
     EscapeRuler.fn := {| Escape.name := "escape"; Escape.call := sample_escape |} |}.

Definition sample_ruler : list EscapeRuler.Rule :=
  [sample_text_rule; sample_escape_rule].

(* ===================================================================== *)
(** ** Vocabulary of the further properties *)
(* ===================================================================== *)

(** The tokens of a recognized region read as a node with nothing added and
    nothing taken away: one child for each language token, with the content
    of the token as its text.  The serializer has this reading as a left
    inverse; the tree of the host is this reading with [trim_lang] on every
    child and the fillers of [createAndFill]. *)
Definition verbatim_langNode (tok : Token) : LangNode :=
  {| language := attrGet tok "language"; textContent := content tok |}.

Fixpoint verbatim_langNodes (toks : list Token) : option (list LangNode) :=
  match toks with
  | [] => None
  | [t] => if type t =? "stack_snippet_close" then Some [] else None
  | t :: rest =>
      if type t =? "stack_snippet_lang" then
        match verbatim_langNodes rest with
        | Some ns => Some (verbatim_langNode t :: ns)
        | None => None
        end
      else None
  end.

Definition verbatim_node (toks : list Token) : option SnippetNode :=
  match toks with
  | tok :: rest =>
      if type tok =? "stack_snippet_open" then
        match verbatim_langNodes rest with
        | Some ns =>
            Some {| hide := attrGet tok "hide";
                    console := attrGet tok "console";
                    babel := attrGet tok "babel";
                    babelPresetReact := attrGet tok "babelPresetReact";
                    babelPresetTS := attrGet tok "babelPresetTS";
                    children := ns |}
        | None => None
        end
      else None
  | [] => None
  end.

Definition read_back (text : string) : option SnippetNode :=
  let state := mkState text in
  match parseSnippetBlock state 0 (lineMax state) false with
  | Ret (true, state') => verbatim_node (tokens state')
  | _ => None
  end.

(** A child without the last line feed of its text. *)
Definition trim_lang (n : LangNode) : LangNode :=
  {| language := language n;
     textContent := withoutTrailingNewline (textContent n) |}.

Definition with_children (node : SnippetNode) (ns : list LangNode) : SnippetNode :=
  {| hide := hide node; console := console node; babel := babel node;
     babelPresetReact := babelPresetReact node;
     babelPresetTS := babelPresetTS node; children := ns |}.

(** The tree the host builds from the verbatim reading. *)
Definition tree_of (node : SnippetNode) : option SnippetNode :=
  option_map (with_children node)
             (createAndFill (List.map trim_lang (children node))).

(** The text ends in a line feed. *)
Definition ends_with_lf (s : string) : bool :=
  match get (length s - 1) s with
  | Some c => Ascii.eqb c LF
  | None => false
  end.








(** A node with three children, one of which holds lines that look like
    markers. *)
Definition marker_content_full_node : SnippetNode :=
  {| hide := Some "null"; console := Some "true"; babel := Some "false";
     babelPresetReact := Some "null"; babelPresetTS := Some "null";
     children :=
       [{| language := Some "html";
           textContent := join NL ["<!-- end snippet -->";
                                   "<!-- language: lang-js -->"] |};
        {| language := Some "css"; textContent := "" |};
        {| language := Some "js"; textContent := join NL ["a"; ""; "b"] |}] |}.

(** The reasons a validation result can carry. *)
Definition validation_reasons : list string :=
  ["Did not discover beginning and end"; "Duplicate Begin block";
   "Duplicate End block"; "Duplicate JS block"; "Duplicate HTML block";
   "Duplicate CSS block"].

(** A node the serializer writes markers of the parser's shapes for: the five
    attributes are tri-state values and every child has one of the three
    languages; a language may occur more than once. *)
Definition printable_node (node : SnippetNode) : Prop :=
  (exists h c b br bt,
     hide node = Some h /\ console node = Some c /\ babel node = Some b
     /\ babelPresetReact node = Some br /\ babelPresetTS node = Some bt
     /\ tri_state h /\ tri_state c /\ tri_state b /\ tri_state br
     /\ tri_state bt)
  /\ Forall (fun n => exists l, language n = Some l /\ snippet_language l)
            (children node).

(** The sum of the nesting of a run of tokens: what the run adds to the
    level of the block state. *)
Definition sum_nesting (toks : list Token) : Z :=
  fold_right (fun t acc => (nesting t + acc)%Z) 0%Z toks.

(** The attributes of an emitted token fit the schema of its node: the five
    of an open token are tri-state values, the language of a language token
    passes [language_validate]. *)
Definition schema_attrs_ok (tok : Token) : Prop :=
  (type tok = "stack_snippet_open" ->
   exists h c b br bt,
     attrGet tok "hide" = Some h /\ attrGet tok "console" = Some c
     /\ attrGet tok "babel" = Some b
     /\ attrGet tok "babelPresetReact" = Some br
     /\ attrGet tok "babelPresetTS" = Some bt
     /\ tri_state h /\ tri_state c /\ tri_state b /\ tri_state br
     /\ tri_state bt)
  /\ (type tok = "stack_snippet_lang" ->
      exists l, attrGet tok "language" = Some l /\ language_validate l = true).

(** The state a committing call leaves on the sample envelope. *)
Definition sample_committed : StateBlock :=
  state_of (parseSnippetBlock sample_state 0 13 false) sample_state.

(** A node with the language js twice. *)
Definition repeated_js_node : SnippetNode :=
  {| hide := Some "null"; console := Some "true"; babel := Some "false";
     babelPresetReact := Some "null"; babelPresetTS := Some "null";
     children :=
       [{| language := Some "js"; textContent := "a" |};
        {| language := Some "js"; textContent := "b" |}] |}.

(** A node whose content holds lines that look like markers. *)
Definition marker_content_node : SnippetNode :=
  {| hide := Some "null"; console := Some "true"; babel := Some "false";
     babelPresetReact := Some "null"; babelPresetTS := Some "null";
     children :=
       [{| language := Some "html";
           textContent := join NL ["<!-- end snippet -->";
                                   "<!-- language: lang-js -->"] |}] |}.

(* ===================================================================== *)
(** * Properties *)
(* ===================================================================== *)

(** ** Strings *)

Lemma append_assoc (a b c : string) : (a ++ b) ++ c = a ++ (b ++ c).
Proof. induction a as [|x a IH]; simpl; [reflexivity | now rewrite IH]. Qed.

Lemma append_nil_r (a : string) : a ++ "" = a.
Proof. induction a as [|x a IH]; simpl; [reflexivity | now rewrite IH]. Qed.

Lemma length_append (a b : string) : length (a ++ b) = length a + length b.
Proof. induction a as [|x a IH]; simpl; [reflexivity | now rewrite IH]. Qed.

Lemma drop_append (a b : string) : drop (length a) (a ++ b) = b.
Proof. induction a as [|x a IH]; simpl; [now destruct b | exact IH]. Qed.

Lemma drop_append_plus (a b : string) (n : nat) :
  drop (length a + n) (a ++ b) = drop n b.
Proof. induction a as [|x a IH]; simpl; [reflexivity | exact IH]. Qed.

Lemma take_append (a b : string) : take (length a) (a ++ b) = a.
Proof. induction a as [|x a IH]; simpl; [now destruct b | now rewrite IH]. Qed.

Lemma take_0 (a : string) : take 0 a = "".
Proof. now destruct a. Qed.

Lemma get_append_plus (a b : string) (n : nat) :
  get (length a + n) (a ++ b) = get n b.
Proof. induction a as [|x a IH]; simpl; [reflexivity | exact IH]. Qed.

Lemma strip_prefix_spec (p s r : string) :
  strip_prefix p s = Some r <-> s = p ++ r.
Proof.
  revert s; induction p as [|a p IH]; intros s; simpl.
  - split; [now intros [= ->] | now intros ->].
  - destruct s as [|b s].
    + split; discriminate.
    + destruct (Ascii.eqb_spec a b) as [->|Hne].
      * rewrite IH. split; [now intros -> | now intros [= ->]].
      * split; [discriminate | intros [= Hab _]; now elim Hne].
Qed.

Lemma strip_prefix_append (p r : string) : strip_prefix p (p ++ r) = Some r.
Proof. now apply strip_prefix_spec. Qed.

Lemma first_alt_sound (alts : list string) (s a r : string) :
  first_alt alts s = Some (a, r) -> In a alts /\ s = a ++ r.
Proof.
  induction alts as [|x alts IH]; simpl; [discriminate|].
  destruct (strip_prefix x s) as [r'|] eqn:E.
  - intros [= <- <-]. apply strip_prefix_spec in E. auto.
  - intros H. destruct (IH H). auto.
Qed.

(** ** The meta-line classifier *)

Lemma tri_alt_sound (s v r : string) :
  first_alt ["true"; "false"; "null"] s = Some (v, r) -> tri_state v /\ s = v ++ r.
Proof.
  intros H. apply first_alt_sound in H as [Hin ->]. split; [|reflexivity].
  unfold tri_state. simpl in Hin. intuition auto.
Qed.

Lemma tri_alt_complete (v r : string) :
  tri_state v -> first_alt ["true"; "false"; "null"] (v ++ r) = Some (v, r).
Proof. intros [-> | [-> | ->]]; reflexivity. Qed.

Lemma snippet_field_sound (name s v r : string) :
  snippet_field name s = Some (v, r) ->
  exists w, tri_state v /\ is_regex_space w = true
            /\ s = name ++ ": " ++ v ++ String w r.
Proof.
  unfold snippet_field.
  destruct (strip_prefix (name ++ ": ") s) as [r0|] eqn:E0; [|discriminate].
  apply strip_prefix_spec in E0. subst s.
  destruct (first_alt _ r0) as [[v' r1]|] eqn:E1; [|discriminate].
  apply tri_alt_sound in E1 as [Hv ->].
  destruct r1 as [|w r1]; [discriminate|].
  destruct (is_regex_space w) eqn:Ew; [|discriminate].
  intros [= <- <-]. exists w. repeat split; auto.
  now rewrite append_assoc.
Qed.

Lemma snippet_field_complete (name v r : string) (w : ascii) :
  tri_state v -> is_regex_space w = true ->
  snippet_field name (name ++ ": " ++ v ++ String w r) = Some (v, r).
Proof.
  intros Hv Hw. unfold snippet_field.
  rewrite <- append_assoc, strip_prefix_append, (tri_alt_complete _ _ Hv), Hw.
  reflexivity.
Qed.

Lemma startSnippetRegex_sound (line : string) (g : StartGroups) :
  startSnippetRegex line = Some g ->
  tri_state (g_hide g) /\ tri_state (g_console g) /\ tri_state (g_babel g)
  /\ tri_state (g_babelPresetReact g) /\ tri_state (g_babelPresetTS g)
  /\ begin_shape line (g_hide g) (g_console g) (g_babel g)
                 (g_babelPresetReact g) (g_babelPresetTS g).
Proof.
  unfold startSnippetRegex.
  destruct (strip_prefix _ line) as [r0|] eqn:E0; [|discriminate].
  destruct (snippet_field "hide" r0) as [[h r1]|] eqn:E1; [|discriminate].
  destruct (snippet_field "console" r1) as [[c r2]|] eqn:E2; [|discriminate].
  destruct (snippet_field "babel" r2) as [[b r3]|] eqn:E3; [|discriminate].
  destruct (snippet_field "babelPresetReact" r3) as [[br r4]|] eqn:E4; [|discriminate].
  destruct (snippet_field "babelPresetTS" r4) as [[bt r5]|] eqn:E5; [|discriminate].
  destruct (strip_prefix "-->" r5) as [rest|] eqn:E6; [|discriminate].
  intros [= <-]. simpl.
  apply strip_prefix_spec in E0, E6.
  apply snippet_field_sound in E1 as (w1 & H1 & Hw1 & ->).
  apply snippet_field_sound in E2 as (w2 & H2 & Hw2 & ->).
  apply snippet_field_sound in E3 as (w3 & H3 & Hw3 & ->).
  apply snippet_field_sound in E4 as (w4 & H4 & Hw4 & ->).
  apply snippet_field_sound in E5 as (w5 & H5 & Hw5 & ->).
  subst line r5.
  repeat (split; [assumption|]).
  exists w1, w2, w3, w4, w5, rest. repeat (split; [assumption|]). reflexivity.
Qed.

Lemma startSnippetRegex_complete (line h c b br bt : string) :
  tri_state h -> tri_state c -> tri_state b -> tri_state br -> tri_state bt ->
  begin_shape line h c b br bt ->
  startSnippetRegex line =
    Some {| g_hide := h; g_console := c; g_babel := b;
            g_babelPresetReact := br; g_babelPresetTS := bt |}.
Proof.
  intros Hh Hc Hb Hbr Hbt (w1 & w2 & w3 & w4 & w5 & rest & H1 & H2 & H3 & H4 & H5 & ->).
  unfold startSnippetRegex.
  change ("<!-- begin snippet: js hide: " ++ h ++ String w1 ?x)
    with ("<!-- begin snippet: js " ++ ("hide" ++ ": " ++ h ++ String w1 x)).
  rewrite strip_prefix_append.
  rewrite (snippet_field_complete "hide" _ _ _ Hh H1).
  change ("console: " ++ c ++ String w2 ?x)
    with ("console" ++ ": " ++ c ++ String w2 x).
  rewrite (snippet_field_complete "console" _ _ _ Hc H2).
  change ("babel: " ++ b ++ String w3 ?x)
    with ("babel" ++ ": " ++ b ++ String w3 x).
  rewrite (snippet_field_complete "babel" _ _ _ Hb H3).
  change ("babelPresetReact: " ++ br ++ String w4 ?x)
    with ("babelPresetReact" ++ ": " ++ br ++ String w4 x).
  rewrite (snippet_field_complete "babelPresetReact" _ _ _ Hbr H4).
  change ("babelPresetTS: " ++ bt ++ String w5 ?x)
    with ("babelPresetTS" ++ ": " ++ bt ++ String w5 x).
  rewrite (snippet_field_complete "babelPresetTS" _ _ _ Hbt H5).
  rewrite strip_prefix_append. reflexivity.
Qed.

Lemma tri_state_truthy (v : string) : tri_state v -> truthy_string v = true.
Proof. intros [-> | [-> | ->]]; reflexivity. Qed.

Lemma tri_state_or_null (v : string) : tri_state v -> or_null v = v.
Proof. intros [-> | [-> | ->]]; reflexivity. Qed.

Lemma langSnippetRegex_spec (line lang : string) :
  langSnippetRegex line = Some lang <->
  snippet_language lang
  /\ exists rest, line = "<!-- language: lang-" ++ lang ++ " -->" ++ rest.
Proof.
  unfold langSnippetRegex. split.
  - destruct (strip_prefix _ line) as [r0|] eqn:E0; [|discriminate].
    destruct (first_alt _ r0) as [[l r1]|] eqn:E1; [|discriminate].
    destruct (strip_prefix " -->" r1) as [rest|] eqn:E2; [|discriminate].
    intros [= <-].
    apply strip_prefix_spec in E0, E2. apply first_alt_sound in E1 as [Hin ->].
    subst. split.
    + unfold snippet_language. simpl in Hin. intuition auto.
    + exists rest. reflexivity.
  - intros [Hl [rest ->]]. rewrite strip_prefix_append.
    destruct Hl as [-> | [-> | ->]]; reflexivity.
Qed.

Lemma mapMetaLine_begin_inv
    (l : string) (idx i : nat) (b br bt c h : string) :
  mapMetaLine {| line := l; index := idx |} = Some (Begin i b br bt c h) ->
  i = idx /\ tri_state h /\ tri_state c /\ tri_state b /\ tri_state br
  /\ tri_state bt /\ begin_shape l h c b br bt.
Proof.
  unfold mapMetaLine; simpl.
  destruct (l =? "<!-- end snippet -->"); [discriminate|].
  destruct (langSnippetRegex l); [discriminate|].
  destruct (startSnippetRegex l) as [g|] eqn:E; [|discriminate].
  apply startSnippetRegex_sound in E as (Hh & Hc & Hb & Hbr & Hbt & Hs).
  rewrite !tri_state_truthy, !tri_state_or_null by assumption. simpl.
  intros [= <- <- <- <- <- <-]. auto 10.
Qed.


Lemma mapMetaLine_lang_inv (l : string) (idx i : nat) (lang : string) :
  mapMetaLine {| line := l; index := idx |} = Some (Lang i lang) ->
  i = idx /\ snippet_language lang.
Proof.
  unfold mapMetaLine; simpl.
  destruct (l =? "<!-- end snippet -->"); [discriminate|].
  destruct (langSnippetRegex l) as [lang'|] eqn:E.
  - intros [= <- <-]. apply langSnippetRegex_spec in E. tauto.
  - destruct (startSnippetRegex l); [|discriminate].
    destruct (_ && _)%bool; discriminate.
Qed.

(** C4. Mandatory-field classification: the classifier returns a Begin only
    for a line that carries the five fields hide, console, babel,
    babelPresetReact, babelPresetTS in exactly that order, each with a value
    among true, false, null; the Begin holds those values and the index of the
    line.  So a line that lacks a field, or has the fields in another order,
    is never a Begin. *)
Theorem mapMetaLine_begin_only_if
    (l : string) (idx i : nat) (b br bt c h : string) :
  mapMetaLine {| line := l; index := idx |} = Some (Begin i b br bt c h) ->
  i = idx /\ tri_state h /\ tri_state c /\ tri_state b /\ tri_state br
  /\ tri_state bt /\ begin_shape l h c b br bt.
Proof. apply mapMetaLine_begin_inv. Qed.

Lemma mapMetaLine_begin_only_if_witness :
  mapMetaLine
    {| line := "<!-- begin snippet: js hide: null console: true babel: false babelPresetReact: null babelPresetTS: null -->";
       index := 0 |}
  = Some (Begin 0 "false" "null" "null" "true" "null")
  /\ begin_shape
       "<!-- begin snippet: js hide: null console: true babel: false babelPresetReact: null babelPresetTS: null -->"
       "null" "true" "false" "null" "null".
Proof.
  split; [reflexivity|].
  apply (mapMetaLine_begin_only_if _ 0 0 "false" "null" "null" "true" "null").
  reflexivity.
Defined.

(** X1. Begin classification is complete: every line of the begin shape, the
    five fields in the order hide, console, babel, babelPresetReact,
    babelPresetTS, each with a tri-state value and one white space character
    after it, is classified as a Begin with these values and the index of
    the line.  The test on empty groups and the fallback to the string
    [null] never change the result. *)
Lemma mapMetaLine_begin_if (l : string) (idx : nat) (b br bt c h : string) :
  tri_state h -> tri_state c -> tri_state b -> tri_state br -> tri_state bt ->
  begin_shape l h c b br bt ->
  mapMetaLine {| line := l; index := idx |} = Some (Begin idx b br bt c h).
Proof.
  intros Hh Hc Hb Hbr Hbt Hs. unfold mapMetaLine; simpl.
  rewrite (startSnippetRegex_complete _ _ _ _ _ _ Hh Hc Hb Hbr Hbt Hs). simpl.
  destruct Hs as (w1 & w2 & w3 & w4 & w5 & rest & _ & _ & _ & _ & _ & ->).
  rewrite !tri_state_truthy, !tri_state_or_null by assumption.
  reflexivity.
Qed.

Lemma mapMetaLine_begin_if_witness :
  mapMetaLine
    {| line := "<!-- begin snippet: js hide: null console: true babel: false babelPresetReact: null babelPresetTS: null -->";
       index := 5 |}
  = Some (Begin 5 "false" "null" "null" "true" "null").
Proof.
  apply (mapMetaLine_begin_if _ 5 "false" "null" "null" "true" "null");
    unfold tri_state; auto.
  exists " "%char, " "%char, " "%char, " "%char, " "%char, "".
  repeat split; reflexivity.
Defined.

(** A begin marker without its [babel] field, and one with the last two fields
    swapped, are not meta-lines. *)
Example mapMetaLine_missing_field :
  mapMetaLine
    {| line := "<!-- begin snippet: js hide: null console: true babelPresetReact: null babelPresetTS: null -->";
       index := 0 |} = None.
Proof. reflexivity. Qed.

Example mapMetaLine_reordered_fields :
  mapMetaLine
    {| line := "<!-- begin snippet: js hide: null console: true babel: false babelPresetTS: null babelPresetReact: null -->";
       index := 0 |} = None.
Proof. reflexivity. Qed.

(** C8, as amended. Language-marker classification: for a line that is not the
    end marker, the classifier returns a Lang exactly when the line starts with
    the literal prefix, one of the tokens js, css, html and the literal suffix;
    what follows the suffix on the line is not looked at.  The language of the
    result is that token and its index the index of the line. *)
Theorem mapMetaLine_lang_iff (l : string) (idx i : nat) (lang : string) :
  l <> "<!-- end snippet -->" ->
  (mapMetaLine {| line := l; index := idx |} = Some (Lang i lang) <->
   i = idx /\ snippet_language lang
   /\ exists rest, l = "<!-- language: lang-" ++ lang ++ " -->" ++ rest).
Proof.
  intros Hne. unfold mapMetaLine; simpl.
  apply String.eqb_neq in Hne. rewrite Hne.
  destruct (langSnippetRegex l) as [lang'|] eqn:E.
  - apply langSnippetRegex_spec in E as [Hl [rest ->]]. split.
    + intros [= <- <-].
      split; [reflexivity | split; [assumption | exists rest; reflexivity]].
    + intros (-> & Hl' & rest' & Heq). f_equal. f_equal.
      destruct Hl as [-> | [-> | ->]], Hl' as [-> | [-> | ->]];
        try reflexivity; discriminate.
  - split.
    + destruct (startSnippetRegex l) as [g|]; [|discriminate].
      destruct (_ && _); discriminate.
    + intros (_ & Hl & rest & Heq).
      assert (H : langSnippetRegex l = Some lang)
        by (apply langSnippetRegex_spec; split; [assumption | now exists rest]).
      congruence.
Qed.

Lemma mapMetaLine_lang_iff_witness :
  mapMetaLine {| line := "<!-- language: lang-css -->"; index := 6 |}
  = Some (Lang 6 "css").
Proof.
  apply (mapMetaLine_lang_iff "<!-- language: lang-css -->" 6 6 "css").
  - discriminate.
  - repeat split; [right; left; reflexivity | exists ""; reflexivity].
Defined.

(** C8, as stated, fails: a line with text after the suffix is a Lang. *)
Lemma mapMetaLine_lang_trailing_text :
  "<!-- language: lang-js --> x -->" <> "<!-- end snippet -->"
  /\ mapMetaLine {| line := "<!-- language: lang-js --> x -->"; index := 0 |}
     = Some (Lang 0 "js")
  /\ forall tok, snippet_language tok ->
       "<!-- language: lang-js --> x -->" <> "<!-- language: lang-" ++ tok ++ " -->".
Proof.
  split; [discriminate|]. split; [reflexivity|].
  intros tok [-> | [-> | ->]]; discriminate.
Qed.

(** ** The region validator *)

Lemma recorded_record (c c' : category) (v : ValidationResult) (i : nat) :
  recorded c' (record c v i) = if category_eqb c c' then Some i else recorded c' v.
Proof. destruct c, c'; reflexivity. Qed.

Lemma valid_record (c : category) (v : ValidationResult) (i : nat) :
  valid (record c v i) = valid v.
Proof. destruct c; reflexivity. Qed.

Lemma reason_record (c : category) (v : ValidationResult) (i : nat) :
  reason (record c v i) = reason v.
Proof. destruct c; reflexivity. Qed.

Lemma category_eqb_eq (a b : category) : category_eqb a b = true <-> a = b.
Proof. destruct a, b; simpl; split; (reflexivity || discriminate). Qed.

Lemma category_eqb_sym_aux (a b : category) : category_eqb a b = category_eqb b a.
Proof. now destruct a, b. Qed.

(** The [switch] by category: a line of no category changes nothing; a line of
    category [c] returns the duplicate reason of [c] when the recorded position
    of [c] is truthy and records its own index otherwise. *)
Lemma validate_switch_spec (v : ValidationResult) (m : MetaLine) :
  validate_switch v m =
  match category_of m with
  | None => Next v
  | Some c =>
      if truthy (recorded c v) then Return (duplicate (duplicate_reason c))
      else Next (record c v (meta_index m))
  end.
Proof.
  destruct m as [i ? ? ? ? ?|i|i l]; simpl; try reflexivity.
  destruct (l =? "js"); [reflexivity|].
  destruct (l =? "html"); [reflexivity|].
  destruct (l =? "css"); reflexivity.
Qed.

Lemma validate_loop_app (v0 : ValidationResult) (pre rest : list MetaLine) :
  validate_loop v0 (pre ++ rest)%list =
  match validate_loop v0 pre with
  | Exhausted v => validate_loop v rest
  | e => e
  end.
Proof.
  revert v0; induction pre as [|m pre IH]; intros v0; simpl; [reflexivity|].
  destruct (validate_switch v0 m) as [r|v']; [reflexivity|].
  destruct (_ && _); [reflexivity | apply IH].
Qed.

Lemma last_index_of_none (c : category) (ms : list MetaLine) :
  last_index_of c ms = None <-> existsb (in_category c) ms = false.
Proof.
  induction ms as [|m ms IH]; simpl; [tauto|].
  destruct (last_index_of c ms) as [i|].
  - split; [discriminate|]. intros H. apply orb_false_elim in H as [_ H].
    apply IH in H. discriminate.
  - destruct (in_category c m); simpl; [split; discriminate|].
    split; intros _; [now apply IH | reflexivity].
Qed.

Lemma not_null_last_index_of (c : category) (ms : list MetaLine) :
  not_null (last_index_of c ms) = existsb (in_category c) ms.
Proof.
  destruct (last_index_of c ms) as [i|] eqn:E; simpl.
  - destruct (existsb _ ms) eqn:E'; [reflexivity|].
    apply last_index_of_none in E'. congruence.
  - apply last_index_of_none in E. now rewrite E.
Qed.

Lemma in_category_iff (c : category) (m : MetaLine) :
  in_category c m = true <-> category_of m = Some c.
Proof.
  unfold in_category. destruct (category_of m) as [c'|].
  - rewrite category_eqb_eq. split; [now intros -> | now intros [= ->]].
  - split; discriminate.
Qed.

Lemma existsb_in_category (c : category) (ms : list MetaLine) :
  existsb (in_category c) ms = true <-> In c (categories ms).
Proof.
  unfold categories. induction ms as [|m ms IH]; simpl; [split; [discriminate|tauto]|].
  rewrite orb_true_iff, IH, in_category_iff.
  destruct (category_of m) as [c'|]; simpl.
  - split; intros [H|H]; auto; [left; congruence | left; congruence].
  - split; [intros [H|H]; [discriminate | assumption] | auto].
Qed.

(** What a scan that runs to the end of [ms] leaves in the result: the flag and
    the reason untouched, and for every category the index of its last line in
    [ms], or what was recorded before when [ms] has none. *)
Lemma exhausted_inv (ms : list MetaLine) (v0 v : ValidationResult) :
  validate_loop v0 ms = Exhausted v ->
  valid v = valid v0 /\ reason v = reason v0
  /\ (forall c, recorded c v =
                match last_index_of c ms with
                | Some i => Some i
                | None => recorded c v0
                end)
  /\ (ms <> [] -> both_recorded v = false).
Proof.
  revert v0; induction ms as [|m ms IH]; intros v0; simpl.
  - intros [= <-]. repeat split; auto. congruence.
  - rewrite validate_switch_spec.
    destruct (category_of m) as [c|] eqn:Ec.
    + destruct (truthy (recorded c v0)); [discriminate|].
      destruct (_ && _) eqn:Eb; [discriminate|].
      intros H. apply IH in H as (Hv & Hr & Hrec & Hb).
      rewrite valid_record in Hv. rewrite reason_record in Hr.
      repeat split; auto.
      * intros c'. rewrite Hrec, recorded_record.
        destruct (last_index_of c' ms); [reflexivity|].
        unfold in_category. rewrite Ec, (category_eqb_sym_aux c' c).
        now destruct (category_eqb c c').
      * intros _. destruct ms as [|m' ms']; [|apply Hb; discriminate].
        unfold both_recorded.
        assert (Hb0 := Hrec CBegin). assert (He0 := Hrec CEnd).
        simpl in Hb0, He0. rewrite Hb0, He0. exact Eb.
    + destruct (_ && _) eqn:Eb; [discriminate|].
      intros H. apply IH in H as (Hv & Hr & Hrec & Hb).
      repeat split; auto.
      * intros c'. rewrite Hrec.
        destruct (last_index_of c' ms); [reflexivity|].
        unfold in_category. now rewrite Ec.
      * intros _. destruct ms as [|m' ms']; [|apply Hb; discriminate].
        unfold both_recorded.
        assert (Hb0 := Hrec CBegin). assert (He0 := Hrec CEnd).
        simpl in Hb0, He0. rewrite Hb0, He0. exact Eb.
Qed.

Lemma categories_cons (m : MetaLine) (ms : list MetaLine) :
  categories (m :: ms) =
  match category_of m with
  | Some c => c :: categories ms
  | None => categories ms
  end.
Proof. reflexivity. Qed.

(** A sequence that repeats no category and does not hold both a Begin and an
    End is scanned to its end, from any result that has recorded none of its
    categories. *)
Lemma scan_exhausts (ms : list MetaLine) (v0 : ValidationResult) :
  (forall c, In c (categories ms) -> recorded c v0 = None) ->
  NoDup (categories ms) ->
  (not_null (beginIndex v0) || has_begin ms)
  && (not_null (endIndex v0) || has_end ms) = false ->
  exists v, validate_loop v0 ms = Exhausted v.
Proof.
  revert v0; induction ms as [|m ms IH]; intros v0 Hfresh Hnd Hboth.
  - now exists v0.
  - simpl. rewrite validate_switch_spec.
    rewrite categories_cons in Hfresh, Hnd.
    unfold has_begin, has_end in Hboth. simpl existsb in Hboth.
    unfold in_category in Hboth.
    destruct (category_of m) as [c|] eqn:Ec.
    + rewrite (Hfresh c) by now left. simpl.
      inversion Hnd as [|? ? Hnotin Hnd']; subst.
      assert (Hstep :
        (not_null (beginIndex (record c v0 (meta_index m))) || has_begin ms)
        && (not_null (endIndex (record c v0 (meta_index m))) || has_end ms) = false).
      { unfold has_begin, has_end.
        destruct c; simpl in *; try exact Hboth;
          destruct (not_null (beginIndex v0)), (not_null (endIndex v0));
          simpl in *; auto. }
      assert (Eb : both_recorded (record c v0 (meta_index m)) = false).
      { unfold both_recorded.
        destruct (not_null (beginIndex (record c v0 (meta_index m))));
          [|reflexivity].
        destruct (not_null (endIndex (record c v0 (meta_index m))));
          [discriminate | reflexivity]. }
      unfold both_recorded in Eb. rewrite Eb.
      apply IH; auto.
      intros c' Hc'. rewrite recorded_record.
      destruct (category_eqb c c') eqn:E.
      * apply category_eqb_eq in E. subst. contradiction.
      * apply Hfresh. now right.
    + assert (Hstep :
        (not_null (beginIndex v0) || has_begin ms)
        && (not_null (endIndex v0) || has_end ms) = false) by exact Hboth.
      assert (Eb : both_recorded v0 = false).
      { unfold both_recorded.
        destruct (not_null (beginIndex v0)); [|reflexivity].
        destruct (not_null (endIndex v0)); [discriminate | reflexivity]. }
      unfold both_recorded in Eb. rewrite Eb.
      apply IH; auto.
Qed.

Lemma last_index_of_unique (c : category) (ms : list MetaLine) (m0 : MetaLine) :
  NoDup (categories ms) -> In m0 ms -> category_of m0 = Some c ->
  last_index_of c ms = Some (meta_index m0).
Proof.
  induction ms as [|m ms IH]; intros Hnd Hin Hc; [contradiction|].
  rewrite categories_cons in Hnd. simpl.
  destruct Hin as [->|Hin].
  - rewrite Hc in Hnd. inversion Hnd as [|? ? Hnotin _]; subst.
    destruct (last_index_of c ms) as [i|] eqn:E.
    + exfalso. apply Hnotin. apply existsb_in_category.
      rewrite <- not_null_last_index_of, E. reflexivity.
    + assert (H : in_category c m0 = true) by now apply in_category_iff.
      now rewrite H.
  - assert (Hnd' : NoDup (categories ms))
      by (destruct (category_of m); [now inversion Hnd | assumption]).
    now rewrite (IH Hnd' Hin Hc).
Qed.

Lemma initial_fresh (c : category) : recorded c initialResult = None.
Proof. now destruct c. Qed.

Lemma has_begin_app (a b : list MetaLine) :
  has_begin (a ++ b)%list = has_begin a || has_begin b.
Proof. apply existsb_app. Qed.

Lemma has_end_app (a b : list MetaLine) :
  has_end (a ++ b)%list = has_end a || has_end b.
Proof. apply existsb_app. Qed.

(** C2, as amended. Duplicate rejection: take a sequence of meta-lines in which
    the line [m] is the first to repeat a category (Begin, End, or one of the
    languages js, html, css), where the lines before [m] do not yet hold both a
    Begin and an End, and where the earlier line of that category sits at a
    source index other than 0.  Then validation fails with the duplicate reason
    of that category, whatever follows [m]. *)
Theorem validateMetaLines_first_duplicate
    (pre : list MetaLine) (m : MetaLine) (rest : list MetaLine)
    (c : category) (m0 : MetaLine) :
  NoDup (categories pre) ->
  has_begin pre && has_end pre = false ->
  category_of m = Some c ->
  In m0 pre -> category_of m0 = Some c -> meta_index m0 <> 0 ->
  validateMetaLines (pre ++ m :: rest) = duplicate (duplicate_reason c).
Proof.
  intros Hnd Hboth Hc Hin Hc0 Hidx.
  destruct (scan_exhausts pre initialResult) as [v Hv]; auto.
  { intros c' _. apply initial_fresh. }
  unfold validateMetaLines. rewrite validate_loop_app, Hv. simpl.
  rewrite validate_switch_spec, Hc.
  apply exhausted_inv in Hv as (_ & _ & Hrec & _).
  rewrite Hrec, (last_index_of_unique c pre m0 Hnd Hin Hc0).
  destruct (meta_index m0); [congruence | reflexivity].
Qed.

Lemma validateMetaLines_first_duplicate_witness :
  validateMetaLines
    ([Begin 1 "null" "null" "null" "null" "null"; Lang 3 "js"]
       ++ Lang 7 "js" :: [End_ 11])%list
  = duplicate "Duplicate JS block".
Proof.
  apply (validateMetaLines_first_duplicate
           [Begin 1 "null" "null" "null" "null" "null"; Lang 3 "js"]
           (Lang 7 "js") [End_ 11] CJs (Lang 3 "js")).
  - repeat constructor; simpl; intuition discriminate.
  - reflexivity.
  - reflexivity.
  - simpl; auto.
  - reflexivity.
  - discriminate.
Defined.

(** C2, as stated, fails: a second End after the validator has seen a Begin
    and an End is not examined, and the sequence is declared valid. *)
Lemma validateMetaLines_duplicate_after_success :
  let ms := [Begin 1 "null" "null" "null" "null" "null"; End_ 2; End_ 3] in
  List.length (filter (in_category CEnd) ms) = 2
  /\ valid (validateMetaLines ms) = true
  /\ reason (validateMetaLines ms) <> Some "Duplicate End block".
Proof. repeat split; discriminate. Qed.

(** The position 0 is falsy in the duplicate tests: a second Begin after a
    Begin at source line 0 replaces the recorded position instead of failing. *)
Example validateMetaLines_duplicate_after_index_0 :
  validateMetaLines
    [Begin 0 "null" "null" "null" "null" "null";
     Begin 4 "null" "null" "null" "null" "null"; End_ 9]
  = {| valid := true; beginIndex := Some 4; endIndex := Some 9;
       htmlIndex := None; cssIndex := None; jsIndex := None; reason := None |}.
Proof. reflexivity. Qed.

Lemma exhausted_has (ms : list MetaLine) (v : ValidationResult) :
  validate_loop initialResult ms = Exhausted v ->
  not_null (beginIndex v) = has_begin ms /\ not_null (endIndex v) = has_end ms.
Proof.
  intros Hv. apply exhausted_inv in Hv as (_ & _ & Hrec & _).
  assert (Hb := Hrec CBegin). assert (He := Hrec CEnd).
  simpl recorded in Hb, He. rewrite Hb, He.
  unfold has_begin, has_end.
  rewrite <- !not_null_last_index_of.
  now destruct (last_index_of CBegin ms), (last_index_of CEnd ms).
Qed.

(** The first line that completes the pair of a Begin and an End, after lines
    that repeat no category, ends the scan with success. *)
Lemma validate_early_success
    (pre : list MetaLine) (m : MetaLine) (rest : list MetaLine) :
  NoDup (categories pre) ->
  has_begin pre && has_end pre = false ->
  has_begin (pre ++ [m]) && has_end (pre ++ [m]) = true ->
  valid (validateMetaLines (pre ++ m :: rest)) = true
  /\ reason (validateMetaLines (pre ++ m :: rest)) = None
  /\ validateMetaLines (pre ++ m :: rest) = validateMetaLines (pre ++ [m]).
Proof.
  intros Hnd Hpre Hboth.
  destruct (scan_exhausts pre initialResult) as [v Hv]; auto.
  { intros c' _. apply initial_fresh. }
  destruct (exhausted_has _ _ Hv) as [Hb He].
  rewrite has_begin_app, has_end_app in Hboth.
  unfold has_begin at 2, has_end at 2 in Hboth. simpl in Hboth.
  rewrite !orb_false_r in Hboth. unfold in_category in Hboth.
  assert (Hstep : forall tail,
            validate_loop initialResult (pre ++ m :: tail)
            = Broke (set_valid
                       (match category_of m with
                        | Some c => record c v (meta_index m)
                        | None => v
                        end))).
  { intros tail. rewrite validate_loop_app, Hv. simpl.
    rewrite validate_switch_spec.
    destruct (category_of m) as [c|].
    - destruct c; simpl in Hboth |- *;
        destruct (has_begin pre), (has_end pre); try discriminate.
      + destruct (beginIndex v); [discriminate|]. simpl. now rewrite He.
      + destruct (endIndex v); [discriminate|]. simpl. now rewrite Hb.
    - simpl in Hboth. rewrite !orb_false_r in Hboth. congruence. }
  unfold validateMetaLines. rewrite (Hstep rest), (Hstep []).
  repeat split.
Qed.

(** C5, as amended. Validator early success and exhaustion.
    (1) When the lines before [m] repeat no category and do not yet hold both a
    Begin and an End, and [m] completes the pair, the sequence is declared
    valid with the reason cleared, and the lines after [m] are not examined:
    the result is that of the sequence cut after [m].
    (2) A sequence of just one Begin and one End is valid, with their indices
    as the recorded positions.
    (3) When the scan runs past the last line, the result is invalid with the
    reason [Did not discover beginning and end], and the sequence does not
    hold both a Begin and an End. *)
Theorem validateMetaLines_success_and_exhaustion :
  (forall (pre : list MetaLine) (m : MetaLine) (rest : list MetaLine),
     NoDup (categories pre) ->
     has_begin pre && has_end pre = false ->
     has_begin (pre ++ [m]) && has_end (pre ++ [m]) = true ->
     valid (validateMetaLines (pre ++ m :: rest)) = true
     /\ reason (validateMetaLines (pre ++ m :: rest)) = None
     /\ validateMetaLines (pre ++ m :: rest) = validateMetaLines (pre ++ [m]))
  /\ (forall (i j : nat) (b br bt c h : string),
        validateMetaLines [Begin i b br bt c h; End_ j]
        = {| valid := true; beginIndex := Some i; endIndex := Some j;
             htmlIndex := None; cssIndex := None; jsIndex := None;
             reason := None |})
  /\ (forall (ms : list MetaLine) (v : ValidationResult),
        validate_loop initialResult ms = Exhausted v ->
        validateMetaLines ms = v
        /\ valid v = false
        /\ reason v = Some "Did not discover beginning and end"
        /\ has_begin ms && has_end ms = false).
Proof.
  split; [|split].
  - apply validate_early_success.
  - reflexivity.
  - intros ms v Hv. unfold validateMetaLines. rewrite Hv.
    assert (Hinv := exhausted_inv _ _ _ Hv).
    destruct Hinv as (Hval & Hr & Hrec & Hb).
    repeat split; auto.
    destruct ms as [|m ms']; [reflexivity|].
    specialize (Hb ltac:(discriminate)). unfold both_recorded in Hb.
    destruct (exhausted_has _ _ Hv) as [Hb' He'].
    now rewrite <- Hb', <- He'.
Qed.

Lemma validateMetaLines_success_and_exhaustion_witness :
  valid (validateMetaLines
           ([Begin 1 "null" "true" "false" "null" "null"; Lang 3 "js"]
              ++ End_ 7 :: [Lang 9 "js"; End_ 12])%list) = true
  /\ reason (validateMetaLines [Lang 2 "js"; End_ 5])
     = Some "Did not discover beginning and end".
Proof.
  destruct validateMetaLines_success_and_exhaustion as (Hearly & _ & Hexh).
  split.
  - apply (Hearly [Begin 1 "null" "true" "false" "null" "null"; Lang 3 "js"]
                  (End_ 7) [Lang 9 "js"; End_ 12]).
    + repeat constructor; simpl; intuition discriminate.
    + reflexivity.
    + reflexivity.
  - destruct (Hexh [Lang 2 "js"; End_ 5]
                {| valid := false; beginIndex := None; endIndex := Some 5;
                   htmlIndex := None; cssIndex := None; jsIndex := Some 2;
                   reason := Some "Did not discover beginning and end" |}
                eq_refl) as (-> & _ & Hr & _).
    exact Hr.
Defined.

(** C5, as stated, fails on the letter case of the reason: the reason of an
    exhausted scan starts with a capital D. *)
Lemma validateMetaLines_exhausted_reason_case :
  validate_loop initialResult [Lang 2 "js"; End_ 5]
  = Exhausted (validateMetaLines [Lang 2 "js"; End_ 5])
  /\ reason (validateMetaLines [Lang 2 "js"; End_ 5])
     <> Some "did not discover beginning and end".
Proof. split; [reflexivity | discriminate]. Qed.

(** ** The block rule: calls that leave the state alone *)

Lemma parseSnippetBlock_silent_total
    (state : StateBlock) (startLine endLine : nat) :
  exists b : bool,
    parseSnippetBlock state startLine endLine true = Ret (b, state).
Proof.
  unfold parseSnippetBlock.
  destruct (match sCount state startLine with Some _ => _ | None => _ end);
    [now exists false|].
  destruct (negb (blkIndent state =? 0)%Z || _)%bool; [now exists false|].
  destruct (negb (validSnippetRegex _)); [now exists false|].
  simpl. eauto.
Qed.

(** C3. Trial-mode purity: on every state and span, valid region or not, the
    rule called with [silent] set returns its boolean and the state it was
    given: no token is pushed and [state.line] is unchanged. *)
Theorem parseSnippetBlock_silent_pure
    (state : StateBlock) (startLine endLine : nat) :
  exists b : bool,
    parseSnippetBlock state startLine endLine true = Ret (b, state).
Proof. apply parseSnippetBlock_silent_total. Qed.

(** X11. In committing mode a call that returns false hands back the state it
    was given, whichever test made it return: no token is pushed and the
    cursor stays. *)
Lemma parseSnippetBlock_false_pure
    (state : StateBlock) (startLine endLine : nat) (state' : StateBlock) :
  parseSnippetBlock state startLine endLine false = Ret (false, state') ->
  state' = state.
Proof.
  unfold parseSnippetBlock.
  destruct (match sCount state startLine with Some _ => _ | None => _ end);
    [now intros [= <-]|].
  destruct (negb (blkIndent state =? 0)%Z || _)%bool; [now intros [= <-]|].
  destruct (negb (validSnippetRegex _)); [now intros [= <-]|].
  destruct (valid _); simpl; [|now intros [= <-]].
  destruct (collectMetaLines state startLine endLine) as [|m rest];
    [discriminate|].
  destruct m; try (now intros [= <-]).
  destruct (pop rest) as [[mid e]|]; [|discriminate].
  destruct e; try (now intros [= <-]).
  destruct (negb (forallb is_lang _)); [now intros [= <-]|].
  discriminate.
Qed.

Lemma parseSnippetBlock_false_pure_witness :
  state_of (parseSnippetBlock (mkState lang_before_begin) 0 3 false) sample_state
  = mkState lang_before_begin.
Proof.
  apply (parseSnippetBlock_false_pure (mkState lang_before_begin) 0 3).
  vm_compute. reflexivity.
Defined.

(** The third test never fires: [langSort] is what the filter on the type
    left, in another order. *)
Lemma insert_by_index_all_lang (m : MetaLine) (l : list MetaLine) :
  forallb is_lang (insert_by_index m l) = is_lang m && forallb is_lang l.
Proof.
  induction l as [|x l IH]; simpl; [reflexivity|].
  destruct (meta_index m <=? meta_index x)%nat; simpl; [reflexivity|].
  rewrite IH. now destruct (is_lang x), (is_lang m).
Qed.

Lemma langSort_all_lang (l : list MetaLine) :
  forallb is_lang (sort_by_index (filter is_lang l)) = true.
Proof.
  induction l as [|x l IH]; simpl; [reflexivity|].
  destruct (is_lang x) eqn:E; simpl; [|exact IH].
  now rewrite insert_by_index_all_lang, E, IH.
Qed.

(** C10. Commit-mode abort is side-effect free: in committing mode, when
    validation succeeded and the rule gives up because the first collected
    meta-line is not a Begin, because the last one is not an End, or because an
    entry of the sorted rest is not a Lang, the call returns false with the
    state it was given: no token is pushed and [state.line] is unchanged. *)
Theorem parseSnippetBlock_abort_pure
    (state : StateBlock) (startLine endLine : nat) :
  let metaLines := collectMetaLines state startLine endLine in
  valid (validateMetaLines metaLines) = true ->
  first_not_begin metaLines \/ last_not_end metaLines
  \/ rest_not_lang metaLines ->
  parseSnippetBlock state startLine endLine false = Ret (false, state).
Proof.
  intros metaLines Hvalid Habort. unfold parseSnippetBlock.
  destruct (match sCount state startLine with Some _ => _ | None => _ end);
    [reflexivity|].
  destruct (negb (blkIndent state =? 0)%Z || _)%bool; [reflexivity|].
  destruct (negb (validSnippetRegex _)); [reflexivity|].
  fold metaLines. rewrite Hvalid. simpl.
  destruct Habort as [Hb | [He | Hl]].
  - destruct Hb as (m & rest & -> & Hm). destruct m; (discriminate || reflexivity).
  - destruct He as (m & rest & mid & e & -> & Hpop & He).
    destruct m; try reflexivity. rewrite Hpop.
    destruct e; (discriminate || reflexivity).
  - destruct Hl as (m & rest & mid & e & -> & Hpop & Hl).
    rewrite langSort_all_lang in Hl. discriminate.
Qed.

Lemma parseSnippetBlock_abort_pure_witness :
  parseSnippetBlock (mkState lang_before_begin) 0 3 false
  = Ret (false, mkState lang_before_begin).
Proof.
  apply (parseSnippetBlock_abort_pure (mkState lang_before_begin) 0 3).
  - reflexivity.
  - left. exists (Lang 0 "js"). eexists. split; reflexivity.
Defined.

(** ** The escape-preserving rule *)

Lemma update_nth_app {A : Type} (f : A -> A) (pre : list A) (t : A) (post : list A) :
  update_nth (List.length pre) f (pre ++ t :: post)%list = (pre ++ f t :: post)%list.
Proof. induction pre as [|x pre IH]; simpl; [reflexivity | now rewrite IH]. Qed.

Lemma findLast_none (p : Token -> bool) (l : list Token) :
  Escape.findLast p l = None -> forall t, In t l -> p t = false.
Proof.
  induction l as [|x l IH]; simpl; [contradiction|].
  destruct (Escape.findLast p l) as [i|]; [discriminate|].
  destruct (p x) eqn:E; [discriminate|].
  intros _ t [<-|Hin]; auto.
Qed.

Lemma findLast_some (p : Token -> bool) (l : list Token) (i : nat) :
  Escape.findLast p l = Some i ->
  exists pre t post,
    l = (pre ++ t :: post)%list /\ List.length pre = i /\ p t = true
    /\ forall u, In u post -> p u = false.
Proof.
  revert i; induction l as [|x l IH]; intros i; simpl; [discriminate|].
  destruct (Escape.findLast p l) as [j|] eqn:E.
  - intros [= <-]. destruct (IH j eq_refl) as (pre & t & post & -> & Hlen & Ht & Hpost).
    exists (x :: pre), t, post. simpl. auto.
  - destruct (p x) eqn:Ex; [|discriminate]. intros [= <-].
    exists [], x, l. repeat split; auto. now apply findLast_none.
Qed.

Lemma filter_first (p : Escape.RuleFn -> bool)
    (pre : list Escape.RuleFn) (r : Escape.RuleFn) (post : list Escape.RuleFn) :
  (forall x, In x pre -> p x = false) -> p r = true ->
  filter p (pre ++ r :: post)%list = r :: filter p post.
Proof.
  intros Hpre Hr. induction pre as [|x pre IH]; simpl.
  - now rewrite Hr.
  - rewrite (Hpre x) by now left. apply IH. intros y Hy. apply Hpre. now right.
Qed.

Lemma filter_none (p : Escape.RuleFn -> bool) (l : list Escape.RuleFn) :
  (forall x, In x l -> p x = false) -> filter p l = [].
Proof.
  intros H. induction l as [|x l IH]; simpl; [reflexivity|].
  rewrite (H x) by now left. apply IH. intros y Hy. apply H. now right.
Qed.

(** C9. Escape-wrapper delegation and fallback.
    (1) When the inline rule set holds no rule named [escape] at wrap time, the
    wrapper built returns false on every call and hands back the state it was
    given.
    (2) Otherwise, for the first rule named [escape]: every call of the wrapper
    returns what the delegate returns; in silent mode, or when the delegate
    did not match, the state is the one the delegate left; when the delegate
    matched in non-silent mode, the state is the one the delegate left but for
    its tokens, in which the last token of info [escape] has its type set to
    [escape] and no other token is changed. *)
Theorem buildPreserveEscapeFn_spec (md : Escape.MarkdownIt) :
  ((forall r, In r (Escape.getRules md) -> Escape.name r <> "escape") ->
   forall state silent,
     Escape.buildPreserveEscapeFn md state silent = (false, state))
  /\ (forall pre escapeFn post,
        Escape.getRules md = (pre ++ escapeFn :: post)%list ->
        (forall r, In r pre -> Escape.name r <> "escape") ->
        Escape.name escapeFn = "escape" ->
        forall state silent,
          let delegate := Escape.call escapeFn state silent in
          let wrapper := Escape.buildPreserveEscapeFn md state silent in
          fst wrapper = fst delegate
          /\ (silent = true \/ fst delegate = false -> snd wrapper = snd delegate)
          /\ (silent = false -> fst delegate = true ->
              snd wrapper = Escape.set_tokens (snd delegate) (Escape.tokens (snd wrapper))
              /\ retag_last_escape (Escape.tokens (snd delegate))
                                   (Escape.tokens (snd wrapper)))).
Proof.
  split.
  - intros Hnone state silent. unfold Escape.buildPreserveEscapeFn.
    rewrite filter_none; [reflexivity|].
    intros r Hr. apply String.eqb_neq. now apply Hnone.
  - intros pre escapeFn post Hrules Hpre Hname state silent.
    unfold Escape.buildPreserveEscapeFn. rewrite Hrules.
    rewrite filter_first;
      [|intros r Hr; apply String.eqb_neq; now apply Hpre
       |now apply String.eqb_eq].
    unfold Escape.preserveEscapeFn.
    destruct (Escape.call escapeFn state silent) as [escRet state1]. simpl.
    destruct silent; simpl.
    { repeat split; auto; discriminate. }
    destruct escRet; simpl.
    2:{ repeat split; auto; discriminate. }
    destruct (Escape.findLast _ (Escape.tokens state1)) as [i|] eqn:E; simpl.
    + split; [reflexivity|]. split; [intros [H|H]; discriminate|].
      intros _ _. split; [reflexivity|].
      apply findLast_some in E as (p & t & q & Hl & Hlen & Ht & Hq).
      right. exists p, t, q. rewrite Hl. subst i. rewrite update_nth_app.
      repeat split; auto.
      * now apply String.eqb_eq.
      * intros u Hu. apply String.eqb_neq. now apply Hq.
    + split; [reflexivity|]. split; [reflexivity|].
      intros _ _. split; [now destruct state1|].
      left. split; [reflexivity|].
      intros t Ht. apply String.eqb_neq.
      exact (findLast_none _ _ E t Ht).
Qed.

Lemma buildPreserveEscapeFn_spec_witness :
  Escape.buildPreserveEscapeFn {| Escape.inline_rules := [] |}
    sample_inline_state false = (false, sample_inline_state)
  /\ List.map type
       (Escape.tokens
          (snd (Escape.buildPreserveEscapeFn sample_md sample_inline_state false)))
     = ["escape"].
Proof.
  split.
  - destruct (buildPreserveEscapeFn_spec {| Escape.inline_rules := [] |}) as [H _].
    apply H. intros r [].
  - destruct (buildPreserveEscapeFn_spec sample_md) as [_ H].
    destruct (H [{| Escape.name := "text"; Escape.call := Escape.noop |}]
                {| Escape.name := "escape"; Escape.call := sample_escape |}
                [] eq_refl) with (state := sample_inline_state) (silent := false)
      as (_ & _ & Hretag).
    + intros r [<-|[]]. discriminate.
    + reflexivity.
    + destruct (Hretag eq_refl eq_refl) as [_ [[_ Hno] | Hlast]].
      * exfalso. eapply Hno; [left; reflexivity | reflexivity].
      * reflexivity.
Defined.

(** ** The serializer *)

Lemma unlines_app (a b : list string) : unlines (a ++ b)%list = unlines a ++ unlines b.
Proof.
  induction a as [|x a IH]; simpl; [reflexivity|].
  now rewrite IH, !append_assoc.
Qed.

Lemma join_unlines (a : list string) (x : string) (b : list string) :
  join NL (a ++ x :: b)%list = unlines a ++ join NL (x :: b).
Proof.
  induction a as [|y a IH]; [reflexivity|].
  assert (Hne : exists z zs, (a ++ x :: b)%list = z :: zs)
    by (destruct a; simpl; eauto).
  destruct Hne as (z & zs & E).
  unfold join in *. simpl app. rewrite E.
  change (concat NL (y :: z :: zs)) with (y ++ NL ++ concat NL (z :: zs)).
  rewrite <- E, IH. simpl. now rewrite !append_assoc.
Qed.

Lemma write_lines (ls : list string) (state : SerializerState) :
  fold_left (fun st l => write st (l ++ NL)) ls state
  = write state (unlines ls).
Proof.
  revert state; induction ls as [|l ls IH]; intros state; simpl.
  - unfold write. rewrite append_nil_r. now destruct state.
  - rewrite IH. unfold write. simpl. now rewrite !append_assoc.
Qed.

Lemma pad_line_spec (l : string) : pad_line l = indent4 l.
Proof.
  unfold pad_line, indent4. destruct (String.eqb_spec l ""); simpl; [assumption | reflexivity].
Qed.

Lemma serialize_lang_lines (state : SerializerState) (n : LangNode) :
  serialize_lang state n = write state (unlines (lang_lines n)).
Proof.
  unfold serialize_lang, lang_lines. rewrite write_lines.
  rewrite (map_ext _ _ pad_line_spec).
  unfold write. cbn [out closed]. f_equal.
  rewrite unlines_app. cbn [unlines].
  rewrite unlines_app. cbn [unlines].
  unfold lang_marker, assertAttrValue, value_or_null.
  rewrite !append_assoc. reflexivity.
Qed.

Lemma serialize_children (ns : list LangNode) (state : SerializerState) :
  fold_left serialize_lang ns state
  = write state (unlines (flat_map lang_lines ns)).
Proof.
  revert state; induction ns as [|n ns IH]; intros state.
  - cbn [fold_left flat_map unlines]. unfold write.
    rewrite append_nil_r. now destruct state.
  - cbn [fold_left flat_map]. rewrite IH, serialize_lang_lines.
    rewrite unlines_app. unfold write. cbn [out closed].
    now rewrite append_assoc.
Qed.

Lemma stack_snippet_lines (state : SerializerState) (node : SnippetNode) :
  out (stack_snippet state node) = out state ++ join NL (snippet_lines node).
Proof.
  unfold stack_snippet, snippet_lines. rewrite serialize_children.
  unfold write, closeBlock. cbn [out closed].
  rewrite app_assoc, join_unlines, unlines_app. cbn [unlines].
  unfold join. cbn [concat].
  unfold begin_marker, getSnippetMetadata, assertAttrValue, value_or_null, end_marker.
  cbn [meta_hide meta_console meta_babel meta_babelPresetReact meta_babelPresetTS].
  rewrite !append_assoc. reflexivity.
Qed.


(** ** The block state of a document *)

Lemma nat_of_ascii_lf (c : ascii) : (nat_of_ascii c =? 10)%nat = Ascii.eqb c LF.
Proof. destruct c as [[] [] [] [] [] [] [] []]; reflexivity. Qed.

Lemma scan_lines_cons (c : ascii) (rest : string) (pos start indent offset : nat)
    (indent_found : bool) (acc : list LineMarks) :
  scan_lines (String c rest) pos start indent offset indent_found acc =
  if (negb indent_found && isSpace (Some (nat_of_ascii c)))%bool then
    scan_lines rest (pos + 1) start (indent + 1)
      (if (nat_of_ascii c =? 9)%nat then offset + (4 - offset mod 4) else offset + 1)
      false acc
  else if ((nat_of_ascii c =? 10)%nat || (rest =? ""))%bool then
    scan_lines rest
      ((if (nat_of_ascii c =? 10)%nat then pos else pos + 1) + 1)
      ((if (nat_of_ascii c =? 10)%nat then pos else pos + 1) + 1) 0 0 false
      (acc ++ [{| bMark := start;
                  eMark := if (nat_of_ascii c =? 10)%nat then pos else pos + 1;
                  tShift_ := indent; sCount_ := Z.of_nat offset; bsCount_ := 0 |}])%list
  else scan_lines rest (pos + 1) start indent offset true acc.
Proof. reflexivity. Qed.

Lemma append_cons_not_empty (a : string) (c : ascii) (b : string) :
  (a ++ String c b =? "") = false.
Proof. now destruct a. Qed.

(** A line after its indentation, up to and with its line feed. *)
Lemma scan_line_found (l rest : string) (pos start indent offset : nat)
    (acc : list LineMarks) :
  no_lf l = true ->
  scan_lines (l ++ String LF rest) pos start indent offset true acc =
  scan_lines rest (pos + length l + 1) (pos + length l + 1) 0 0 false
    (acc ++ [{| bMark := start; eMark := pos + length l; tShift_ := indent;
                sCount_ := Z.of_nat offset; bsCount_ := 0 |}])%list.
Proof.
  revert pos; induction l as [|c l IH]; intros pos Hl.
  - cbn [append length]. rewrite scan_lines_cons. cbn [negb andb].
    change (nat_of_ascii LF =? 10)%nat with true. cbn [orb].
    now rewrite Nat.add_0_r.
  - cbn [no_lf] in Hl. apply andb_true_iff in Hl as [Hc Hl].
    apply negb_true_iff in Hc.
    cbn [append length]. rewrite scan_lines_cons. cbn [negb andb].
    rewrite nat_of_ascii_lf, Hc, append_cons_not_empty. cbn [orb].
    rewrite (IH (pos + 1) Hl).
    now replace (pos + 1 + length l) with (pos + S (length l)) by lia.
Qed.

(** A whole line, from its first character, up to and with its line feed. *)
Lemma scan_line (l rest : string) (pos start indent offset : nat)
    (acc : list LineMarks) :
  no_lf l = true ->
  scan_lines (l ++ String LF rest) pos start indent offset false acc =
  scan_lines rest (pos + length l + 1) (pos + length l + 1) 0 0 false
    (acc ++ [{| bMark := start; eMark := pos + length l;
                tShift_ := fst (leading l indent offset);
                sCount_ := Z.of_nat (snd (leading l indent offset));
                bsCount_ := 0 |}])%list.
Proof.
  revert pos indent offset; induction l as [|c l IH]; intros pos indent offset Hl.
  - cbn [append length leading fst snd]. rewrite scan_lines_cons.
    change (isSpace (Some (nat_of_ascii LF))) with false.
    change (nat_of_ascii LF =? 10)%nat with true. cbn [negb andb orb].
    now rewrite Nat.add_0_r.
  - assert (Hl' := Hl). cbn [no_lf] in Hl. apply andb_true_iff in Hl as [Hc Hl].
    apply negb_true_iff in Hc.
    cbn [append length leading]. rewrite scan_lines_cons. cbn [negb andb].
    destruct (isSpace (Some (nat_of_ascii c))) eqn:Es.
    + rewrite (IH (pos + 1) _ _ Hl).
      now replace (pos + 1 + length l) with (pos + S (length l)) by lia.
    + rewrite nat_of_ascii_lf, Hc, append_cons_not_empty. cbn [orb fst snd].
      rewrite (scan_line_found l rest (pos + 1) start indent offset acc Hl).
      now replace (pos + 1 + length l) with (pos + S (length l)) by lia.
Qed.

(** The last line of a source that does not end in a line feed, after its
    indentation. *)
Lemma scan_last_found (c : ascii) (l : string) (pos start indent offset : nat)
    (acc : list LineMarks) :
  no_lf (String c l) = true ->
  scan_lines (String c l) pos start indent offset true acc =
  (acc ++ [{| bMark := start; eMark := pos + length (String c l);
              tShift_ := indent; sCount_ := Z.of_nat offset; bsCount_ := 0 |}])%list.
Proof.
  revert c pos; induction l as [|c' l IH]; intros c pos Hl.
  - cbn [no_lf] in Hl. apply andb_true_iff in Hl as [Hc _].
    apply negb_true_iff in Hc.
    rewrite scan_lines_cons. cbn [negb andb].
    rewrite nat_of_ascii_lf, Hc. cbn [orb String.eqb length].
    reflexivity.
  - assert (Hl' := Hl). cbn [no_lf] in Hl. apply andb_true_iff in Hl as [Hc Hl].
    apply negb_true_iff in Hc.
    rewrite scan_lines_cons. cbn [negb andb].
    rewrite nat_of_ascii_lf, Hc. cbn [orb String.eqb].
    rewrite (IH c' (pos + 1) Hl). cbn [length].
    now replace (pos + 1 + S (length l)) with (pos + S (S (length l))) by lia.
Qed.

Lemma scan_last (l : string) (pos : nat) (acc : list LineMarks) :
  no_lf l = true -> starts_nonspace l = true ->
  scan_lines l pos pos 0 0 false acc = (acc ++ [marks_of_line pos l])%list.
Proof.
  intros Hl Hs. destruct l as [|c l]; [discriminate|].
  cbn [starts_nonspace] in Hs. apply negb_true_iff in Hs.
  unfold marks_of_line. cbn [leading]. rewrite Hs. cbn [fst snd].
  destruct l as [|c' l].
  - cbn [no_lf] in Hl. apply andb_true_iff in Hl as [Hc _].
    apply negb_true_iff in Hc.
    rewrite scan_lines_cons, Hs. cbn [negb andb].
    rewrite nat_of_ascii_lf, Hc. reflexivity.
  - assert (Hl' := Hl). cbn [no_lf] in Hl. apply andb_true_iff in Hl as [Hc Hl].
    apply negb_true_iff in Hc.
    rewrite scan_lines_cons, Hs. cbn [negb andb].
    rewrite nat_of_ascii_lf, Hc. cbn [orb String.eqb].
    rewrite (scan_last_found c' l (pos + 1) pos 0 0 acc Hl). cbn [length].
    now replace (pos + 1 + S (length l)) with (pos + S (S (length l))) by lia.
Qed.

Lemma join_cons (l x : string) (r : list string) :
  join NL (l :: x :: r) = l ++ String LF (join NL (x :: r)).
Proof. reflexivity. Qed.

Lemma scan_document (init : list string) (last : string) (pos : nat)
    (acc : list LineMarks) :
  Forall (fun l => no_lf l = true) (init ++ [last])%list ->
  starts_nonspace last = true ->
  scan_lines (join NL (init ++ [last])%list) pos pos 0 0 false acc
  = (acc ++ line_marks pos (init ++ [last])%list)%list.
Proof.
  revert pos acc; induction init as [|l init IH]; intros pos acc Hls Hlast.
  - apply Forall_inv in Hls. now apply scan_last.
  - cbn [app] in *.
    assert (Hne : exists x r, (init ++ [last])%list = x :: r)
      by (destruct init; cbn; eauto).
    destruct Hne as (x & r & E). rewrite E, join_cons, <- E.
    rewrite scan_line by exact (Forall_inv Hls).
    rewrite IH by (eauto using Forall_inv_tail).
    cbn [line_marks]. now rewrite <- app_assoc.
Qed.

Lemma length_unlines_cons (l : string) (a : list string) :
  length (unlines (l :: a)) = length l + 1 + length (unlines a).
Proof. cbn [unlines]. rewrite !length_append. cbn. lia. Qed.

Lemma line_marks_nth (a : list string) (l : string) (b : list string) (pos : nat) :
  nth_error (line_marks pos (a ++ l :: b)%list) (List.length a)
  = Some (marks_of_line (pos + length (unlines a)) l).
Proof.
  revert pos; induction a as [|x a IH]; intros pos.
  - cbn. now rewrite Nat.add_0_r.
  - cbn [app List.length line_marks nth_error]. rewrite IH, length_unlines_cons.
    f_equal. f_equal. lia.
Qed.

Lemma length_line_marks (pos : nat) (ls : list string) :
  List.length (line_marks pos ls) = List.length ls.
Proof. revert pos; induction ls as [|l ls IH]; intros pos; cbn; auto. Qed.

Lemma marks_mkState (ls : list string) :
  well_formed_doc ls ->
  marks (mkState (join NL ls))
  = (line_marks 0 ls
     ++ [{| bMark := length (join NL ls); eMark := length (join NL ls);
            tShift_ := 0; sCount_ := 0%Z; bsCount_ := 0 |}])%list.
Proof.
  intros (Hls & init & last & -> & Hlast). unfold mkState. cbn [marks].
  now rewrite scan_document.
Qed.

Lemma lineMax_mkState (ls : list string) :
  well_formed_doc ls -> lineMax (mkState (join NL ls)) = List.length ls.
Proof.
  intros H. unfold lineMax. rewrite (marks_mkState _ H).
  rewrite length_app, length_line_marks. cbn. lia.
Qed.

(** Every line of a document is a line of its block state; all but the last
    one are terminated. *)
Lemma mkState_line_is (a : list string) (l : string) (b : list string) :
  well_formed_doc (a ++ l :: b)%list ->
  line_is (mkState (join NL (a ++ l :: b)%list)) (List.length a) l
          (match b with [] => false | _ => true end).
Proof.
  intros Hwf. assert (Hm := marks_mkState _ Hwf).
  exists (marks_of_line (length (unlines a)) l), (unlines a),
         (match b with [] => "" | x :: r => String LF (join NL (x :: r)) end).
  repeat split.
  - rewrite Hm, nth_error_app1
      by (rewrite length_line_marks, length_app; cbn; lia).
    now rewrite line_marks_nth.
  - cbn [src mkState]. rewrite join_unlines. f_equal.
    destruct b as [|x r]; [cbn; now rewrite append_nil_r | apply join_cons].
  - destruct Hwf as [Hls _]. apply Forall_elt in Hls. exact Hls.
  - destruct b as [|x r]; [left; auto | right; eauto].
Qed.

Lemma line_is_slice (st : StateBlock) (k : nat) (l : string) (t : bool) :
  line_is st k l t -> slice (src st) (bMarks st k) (eMarks st k) = l.
Proof.
  intros (m & pre & post & Hm & Hsrc & -> & _ & _).
  unfold bMarks, eMarks, slice. rewrite Hm, Hsrc. cbn.
  replace (length pre + length l - length pre) with (length l) by lia.
  now rewrite drop_append, take_append.
Qed.

Lemma line_is_first_char (st : StateBlock) (k : nat) (l : string) (t : bool) :
  line_is st k l t ->
  is_code (charCodeAt (src st) (bMarks st k)) 60 = starts_with_lt l.
Proof.
  intros (m & pre & post & Hm & Hsrc & -> & _ & Hpost).
  unfold bMarks, charCodeAt. rewrite Hm, Hsrc. cbn [option_map marks_of_line bMark].
  rewrite <- (Nat.add_0_r (length pre)), get_append_plus.
  destruct l as [|c l]; [|reflexivity].
  destruct Hpost as [[_ ->] | [q ->]]; reflexivity.
Qed.

Lemma line_is_tShift (st : StateBlock) (k : nat) (l : string) (t : bool) :
  line_is st k l t -> tShift st k = Some (fst (leading l 0 0)).
Proof.
  intros (m & pre & post & Hm & _ & -> & _). unfold tShift. now rewrite Hm.
Qed.

Lemma line_is_sCount (st : StateBlock) (k : nat) (l : string) (t : bool) :
  line_is st k l t -> sCount st k = Some (Z.of_nat (snd (leading l 0 0))).
Proof.
  intros (m & pre & post & Hm & _ & -> & _). unfold sCount. now rewrite Hm.
Qed.

Lemma scan_step_line (st : StateBlock) (k : nat) (l : string) (t : bool)
    (acc : list RawContext) :
  line_is st k l t ->
  scan_step st acc k = (acc ++ raw_of_lines k [l])%list.
Proof.
  intros H. unfold scan_step.
  rewrite (line_is_first_char _ _ _ _ H), (line_is_slice _ _ _ _ H).
  cbn [raw_of_lines].
  destruct (starts_with_lt l); cbn [negb andb]; [|now rewrite app_nil_r].
  destruct (validSnippetRegex l); cbn [negb]; [reflexivity | now rewrite app_nil_r].
Qed.

Lemma raw_of_lines_cons (k : nat) (l : string) (r : list string) :
  raw_of_lines k (l :: r) = (raw_of_lines k [l] ++ raw_of_lines (S k) r)%list.
Proof. cbn [raw_of_lines]. now destruct (_ && _)%bool. Qed.

Lemma scan_fold_lines (st : StateBlock) (ls : list string) (s : nat)
    (acc : list RawContext) :
  (forall k l, nth_error ls k = Some l -> exists t, line_is st (s + k) l t) ->
  fold_left (scan_step st) (seq s (List.length ls)) acc
  = (acc ++ raw_of_lines s ls)%list.
Proof.
  revert s acc; induction ls as [|l ls IH]; intros s acc H.
  - cbn. now rewrite app_nil_r.
  - cbn [List.length seq fold_left].
    destruct (H 0 l eq_refl) as [t Ht]. rewrite Nat.add_0_r in Ht.
    rewrite (scan_step_line _ _ _ _ _ Ht), IH.
    + now rewrite (raw_of_lines_cons s l ls), app_assoc.
    + intros k l' Hk. destruct (H (S k) l' Hk) as [t' Ht'].
      exists t'. now replace (S s + k) with (s + S k) by lia.
Qed.

(** The raw meta-lines the rule collects over the lines [ls] of a state. *)
Lemma scanMetaLines_lines (st : StateBlock) (ls : list string) (s : nat) :
  (forall k l, nth_error ls k = Some l -> exists t, line_is st (s + k) l t) ->
  scanMetaLines st s (s + List.length ls) = raw_of_lines s ls.
Proof.
  intros H. unfold scanMetaLines.
  replace (s + List.length ls - s) with (List.length ls) by lia.
  now rewrite scan_fold_lines.
Qed.

(** ** De-indentation *)

Lemma skip_indent_space (src : string) (m : LineMarks)
    (last indent fuel first lineIndent : nat) :
  first < last -> lineIndent < indent -> get first src = Some SPACE ->
  skip_indent src m last indent (S fuel) first lineIndent
  = skip_indent src m last indent fuel (first + 1) (lineIndent + 1).
Proof.
  intros H1 H2 Hg. cbn [skip_indent].
  apply Nat.ltb_lt in H1, H2. rewrite H1, H2. cbn [andb].
  unfold charCodeAt. rewrite Hg. reflexivity.
Qed.

Lemma take_append_plus (a b : string) (n : nat) :
  take (length a + n) (a ++ b) = a ++ take n b.
Proof. induction a as [|x a IH]; cbn; [reflexivity | now rewrite IH]. Qed.

(** A terminated line of four spaces and [t] is queued as [t], with the line
    feed when it is not the last line asked for. *)
Lemma getLines_line_padded (st : StateBlock) (end_ k : nat) (t : string) :
  line_is st k ("    " ++ t) true ->
  getLines_line st end_ 4 false k
  = if (k + 1 <? end_)%nat then t ++ NL else t.
Proof.
  intros (m & pre & post & Hm & Hsrc & -> & _ & Hpost).
  destruct Hpost as [[? _] | [q ->]]; [discriminate|].
  unfold getLines_line. rewrite Hm. cbn [orb marks_of_line bMark eMark].
  rewrite orb_false_r.
  set (last := if (k + 1 <? end_)%nat then _ else _).
  assert (Hlast : length pre + 4 + length t <= last).
  { subst last. cbn [append length]. destruct (k + 1 <? end_)%nat; lia. }
  assert (Hget : forall j, j < 4 -> get (length pre + j) (src st) = Some SPACE).
  { intros j Hj. rewrite Hsrc, get_append_plus.
    destruct j as [|[|[|[|j]]]]; try reflexivity. lia. }
  rewrite skip_indent_space;
    [|lia|lia|rewrite <- (Nat.add_0_r (length pre)); apply Hget; lia].
  rewrite skip_indent_space; [|lia|lia|apply Hget; lia].
  rewrite <- Nat.add_assoc; cbn [Nat.add].
  rewrite skip_indent_space; [|lia|lia|apply Hget; lia].
  rewrite <- Nat.add_assoc; cbn [Nat.add].
  rewrite skip_indent_space; [|lia|lia|apply Hget; lia].
  rewrite <- Nat.add_assoc; cbn [Nat.add skip_indent].
  change (4 <? 4)%nat with false. cbn iota.
  unfold slice. rewrite Hsrc, drop_append_plus. cbn [append drop].
  subst last. cbn [append length].
  destruct (k + 1 <? end_)%nat.
  - replace (length pre + S (S (S (S (length t)))) + 1 - (length pre + 4))
      with (length t + 1) by lia.
    rewrite take_append_plus. reflexivity.
  - replace (length pre + S (S (S (S (length t)))) - (length pre + 4))
      with (length t) by lia.
    apply take_append.
Qed.

Lemma skip_indent_break (src : string) (m : LineMarks)
    (last indent fuel first lineIndent : nat) :
  isSpace (charCodeAt src (Some first)) = false ->
  (first - bMark m <? tShift_ m)%nat = false ->
  skip_indent src m last indent fuel first lineIndent = (first, lineIndent).
Proof.
  intros H1 H2. destruct fuel; cbn [skip_indent]; [reflexivity|].
  rewrite H1, H2. now destruct (_ && _)%bool.
Qed.

Lemma skip_indent_stop (src : string) (m : LineMarks)
    (last indent fuel first lineIndent : nat) :
  (first <? last)%nat = false ->
  skip_indent src m last indent fuel first lineIndent = (first, lineIndent).
Proof.
  intros H. destruct fuel; cbn [skip_indent]; [reflexivity|]. now rewrite H.
Qed.

Lemma skip_indent_S (src : string) (m : LineMarks)
    (last indent fuel first lineIndent : nat) :
  skip_indent src m last indent (S fuel) first lineIndent
  = if ((first <? last) && (lineIndent <? indent))%nat then
      let ch := charCodeAt src (Some first) in
      if isSpace ch then
        skip_indent src m last indent fuel (first + 1)
          (if is_code ch 9
           then lineIndent + (4 - (lineIndent + bsCount_ m) mod 4)
           else lineIndent + 1)
      else if (first - bMark m <? tShift_ m)%nat then
        skip_indent src m last indent fuel (first + 1) (lineIndent + 1)
      else (first, lineIndent)
    else (first, lineIndent).
Proof. reflexivity. Qed.

(** The fuel of [skip_indent] is enough: with [indent - lineIndent] turns left
    to go, more fuel changes nothing. *)
Lemma skip_indent_fuel (src : string) (m : LineMarks)
    (last indent fuel first lineIndent : nat) :
  indent - lineIndent <= fuel ->
  skip_indent src m last indent (S fuel) first lineIndent
  = skip_indent src m last indent fuel first lineIndent.
Proof.
  revert first lineIndent; induction fuel as [|fuel IH]; intros first lineIndent H.
  - cbn [skip_indent].
    assert (E : (lineIndent <? indent)%nat = false) by (apply Nat.ltb_ge; lia).
    rewrite E, andb_false_r. reflexivity.
  - rewrite (skip_indent_S src m last indent (S fuel) first lineIndent),
      (skip_indent_S src m last indent fuel first lineIndent).
    destruct ((first <? last) && (lineIndent <? indent))%nat; [|reflexivity].
    cbv zeta.
    destruct (isSpace (charCodeAt src (Some first))).
    + apply IH.
      assert (Hmod : (lineIndent + bsCount_ m) mod 4 < 4)
        by (apply Nat.mod_upper_bound; lia).
      destruct (is_code (charCodeAt src (Some first)) 9); lia.
    + destruct (first - bMark m <? tShift_ m)%nat; [|reflexivity].
      apply IH. lia.
Qed.

(** A terminated empty line is queued as its line feed, or as nothing when it
    is the last line asked for. *)
Lemma getLines_line_empty (st : StateBlock) (end_ k : nat) :
  line_is st k "" true ->
  getLines_line st end_ 4 false k = if (k + 1 <? end_)%nat then NL else "".
Proof.
  intros (m & pre & post & Hm & Hsrc & -> & _ & Hpost).
  destruct Hpost as [[? _] | [q ->]]; [discriminate|].
  cbn [append] in Hsrc.
  unfold getLines_line. rewrite Hm. rewrite orb_false_r.
  assert (Hch : charCodeAt (src st) (Some (length pre)) = Some 10).
  { unfold charCodeAt. rewrite Hsrc.
    rewrite <- (Nat.add_0_r (length pre)), get_append_plus. reflexivity. }
  destruct (k + 1 <? end_)%nat.
  - rewrite skip_indent_break.
    + change (4 <? 0)%nat with false. cbn iota.
      unfold slice. cbn [marks_of_line bMark eMark length].
      rewrite Nat.add_0_r.
      replace (length pre + 1 - length pre) with 1 by lia.
      now rewrite Hsrc, drop_append.
    + cbn [marks_of_line bMark]. now rewrite Hch.
    + reflexivity.
  - rewrite skip_indent_stop.
    + change (4 <? 0)%nat with false. cbn iota.
      unfold slice. cbn [marks_of_line bMark eMark length].
      rewrite Nat.add_0_r, Nat.sub_diag. apply take_0.
    + cbn [marks_of_line bMark eMark length]. rewrite Nat.add_0_r.
      apply Nat.ltb_irrefl.
Qed.

Lemma getLines_line_padded_or_empty (st : StateBlock) (end_ k : nat) (t : string) :
  line_is st k ("    " ++ t) true \/ (t = "" /\ line_is st k "" true) ->
  getLines_line st end_ 4 false k = if (k + 1 <? end_)%nat then t ++ NL else t.
Proof.
  intros [H | [-> H]].
  - now apply getLines_line_padded.
  - now rewrite getLines_line_empty.
Qed.

Lemma padded_lines_tail (st : StateBlock) (b : nat) (t : string) (ts : list string) :
  padded_lines st b (t :: ts) -> padded_lines st (S b) ts.
Proof.
  intros H k t' Hk. specialize (H (S k) t' Hk).
  now replace (S b + k) with (b + S k) by lia.
Qed.

Lemma getLines_queue (st : StateBlock) (ts : list string) (b e : nat) :
  b + List.length ts = e -> padded_lines st b ts ->
  join "" (List.map (getLines_line st e 4 false) (seq b (List.length ts)))
  = join NL ts.
Proof.
  revert b; induction ts as [|t ts IH]; intros b He H; [reflexivity|].
  cbn [List.length seq List.map].
  rewrite (getLines_line_padded_or_empty st e b t)
    by (specialize (H 0 t eq_refl); now rewrite Nat.add_0_r in H).
  cbn [List.length] in He.
  specialize (IH (S b) ltac:(lia) (padded_lines_tail _ _ _ _ H)).
  destruct ts as [|t' ts].
  - assert (Hb : (b + 1 <? e)%nat = false) by (apply Nat.ltb_ge; cbn in He; lia).
    now rewrite Hb.
  - assert (Hb : (b + 1 <? e)%nat = true)
      by (apply Nat.ltb_lt; cbn [List.length] in He; lia).
    rewrite Hb. cbn [List.length seq List.map] in IH |- *.
    unfold join in *.
    change (concat "" (?x :: ?y :: ?r)) with (x ++ "" ++ concat "" (y :: r)).
    rewrite IH.
    change (concat NL (t :: t' :: ts)) with (t ++ NL ++ concat NL (t' :: ts)).
    cbn [append]. now rewrite append_assoc.
Qed.

(** De-indentation: over lines that hold the texts [ts] behind four spaces of
    padding (empty lines for empty texts), [getLines] with an indent of 4
    returns the texts joined by line feeds. *)
Lemma getLines_padded (st : StateBlock) (b : nat) (ts : list string) :
  padded_lines st b ts ->
  getLines st b (b + List.length ts) 4 false = join NL ts.
Proof.
  intros H. unfold getLines.
  destruct (b + List.length ts <=? b)%nat eqn:E.
  - apply Nat.leb_le in E. destruct ts; [reflexivity | cbn in E; lia].
  - replace (b + List.length ts - b) with (List.length ts) by lia.
    now apply getLines_queue.
Qed.

(** Lines behind fewer than four spaces. *)











(** ** The block rule: committed recognition *)

Lemma getLines_line_ext (st st' : StateBlock) (e indent : nat) (keep : bool) (k : nat) :
  src st' = src st -> marks st' = marks st ->
  getLines_line st' e indent keep k = getLines_line st e indent keep k.
Proof. intros Hs Hm. unfold getLines_line. now rewrite Hs, Hm. Qed.

Lemma getLines_ext (st st' : StateBlock) (b e indent : nat) (keep : bool) :
  src st' = src st -> marks st' = marks st ->
  getLines st' b e indent keep = getLines st b e indent keep.
Proof.
  intros Hs Hm. unfold getLines. destruct (e <=? b)%nat; [reflexivity|].
  f_equal. apply map_ext. intros k. now apply getLines_line_ext.
Qed.

Lemma update_nth_last {A : Type} (f : A -> A) (l : list A) (x : A) :
  update_nth (List.length l) f (l ++ [x])%list = (l ++ [f x])%list.
Proof. apply update_nth_app. Qed.

Lemma emit_langs_spec (st0 : StateBlock) (endIndex : nat)
    (langSort : list MetaLine) (st : StateBlock) :
  src st = src st0 -> marks st = marks st0 ->
  emit_langs endIndex langSort st
  = set_tokens st (state_level st + Z.of_nat (List.length langSort))%Z
      (tokens st ++ lang_tokens st0 endIndex langSort (state_level st))%list.
Proof.
  revert st; induction langSort as [|l rest IH]; intros st Hs Hm.
  - cbn. rewrite Z.add_0_r, app_nil_r. now destruct st.
  - cbn [emit_langs lang_tokens List.length].
    rewrite (getLines_ext st0 st) by assumption.
    unfold push, update_token. cbn [tokens set_tokens state_level].
    rewrite !update_nth_last.
    change (0 <? 1)%Z with true. change (1 <? 0)%Z with false. cbn iota.
    rewrite IH by assumption.
    unfold set_tokens. cbn [src marks blkIndent state_line state_level tokens].
    f_equal; [lia|].
    rewrite <- app_assoc. reflexivity.
Qed.

Lemma pop_app (l : list MetaLine) (x : MetaLine) : pop (l ++ [x])%list = Some (l, x).
Proof.
  induction l as [|y l IH]; [reflexivity|].
  cbn [app pop]. rewrite IH. now destruct (l ++ [x])%list eqn:E; [destruct l|].
Qed.

Lemma pop_some (l mid : list MetaLine) (x : MetaLine) :
  pop l = Some (mid, x) -> l = (mid ++ [x])%list.
Proof.
  revert mid; induction l as [|y l IH]; intros mid; [discriminate|].
  cbn [pop]. destruct l as [|z l]; [now intros [= <- <-]|].
  destruct (pop (z :: l)) as [[r' w]|]; [|discriminate].
  intros [= <- <-]. cbn. f_equal. now apply IH.
Qed.

Lemma guards_pass_true (st : StateBlock) (startLine : nat) :
  guards_pass st startLine = true ->
  match sCount st startLine with
  | Some sc => (4 <=? sc - blkIndent st)%Z
  | None => false
  end = false
  /\ (negb (blkIndent st =? 0)%Z
      || match tShift st startLine with
         | Some ts => negb (ts =? 0)%nat
         | None => true
         end)%bool = false
  /\ validSnippetRegex
       (slice (src st) (bMarks st startLine) (eMarks st startLine)) = true.
Proof.
  unfold guards_pass. intros Hg.
  apply andb_true_iff in Hg as [Hg Hg3]. apply andb_true_iff in Hg as [Hg1 Hg2].
  apply negb_true_iff in Hg1, Hg2. auto.
Qed.

Lemma push_open (st : StateBlock) (ty tg : string) :
  push st ty tg 1
  = (List.length (tokens st),
     set_tokens st (state_level st + 1)%Z
       (tokens st ++ [set_level_block (new_Token ty tg 1) (state_level st)])%list).
Proof. reflexivity. Qed.

Lemma push_close (st : StateBlock) (ty tg : string) :
  push st ty tg (-1)
  = (List.length (tokens st),
     set_tokens st (state_level st - 1)%Z
       (tokens st
        ++ [set_level_block (new_Token ty tg (-1)) (state_level st - 1)])%list).
Proof. reflexivity. Qed.

Lemma update_pushed (st : StateBlock) (lvl : Z) (tok : Token) (f : Token -> Token) :
  update_token (set_tokens st lvl (tokens st ++ [tok])%list)
               (List.length (tokens st)) f
  = set_tokens st lvl (tokens st ++ [f tok])%list.
Proof.
  unfold update_token, set_tokens. cbn [tokens state_level src marks blkIndent
                                       state_line].
  now rewrite update_nth_last.
Qed.

Lemma set_tokens_twice (st : StateBlock) (l1 l2 : Z) (t1 t2 : list Token) :
  set_tokens (set_tokens st l1 t1) l2 t2 = set_tokens st l2 t2.
Proof. reflexivity. Qed.

Lemma tokens_set_tokens (st : StateBlock) (l : Z) (t : list Token) :
  tokens (set_tokens st l t) = t.
Proof. reflexivity. Qed.

Lemma state_level_set_tokens (st : StateBlock) (l : Z) (t : list Token) :
  state_level (set_tokens st l t) = l.
Proof. reflexivity. Qed.

(** The rule in committing mode, past its tests. *)
Lemma parseSnippetBlock_commit (st : StateBlock) (startLine endLine : nat)
    (i : nat) (b br bt c h : string) (mid : list MetaLine) (endIndex : nat) :
  guards_pass st startLine = true ->
  collectMetaLines st startLine endLine
  = (Begin i b br bt c h :: mid ++ [End_ endIndex])%list ->
  valid (validateMetaLines (Begin i b br bt c h :: mid ++ [End_ endIndex])%list) = true ->
  parseSnippetBlock st startLine endLine false
  = Ret (true, committed st endIndex h c b br bt
                 (sort_by_index (filter is_lang mid))).
Proof.
  intros Hg Hc Hv. destruct (guards_pass_true _ _ Hg) as (Hg1 & Hg2 & Hg3).
  unfold parseSnippetBlock. rewrite Hg1, Hg2, Hg3, Hc, Hv. cbn [negb orb].
  rewrite pop_app, langSort_all_lang. cbn [negb].
  rewrite push_open. cbv beta iota zeta.
  rewrite !update_pushed.
  set (langSort := sort_by_index (filter is_lang mid)).
  rewrite (emit_langs_spec st) by reflexivity.
  rewrite set_tokens_twice, tokens_set_tokens, state_level_set_tokens.
  rewrite push_close. cbv beta iota zeta.
  rewrite set_tokens_twice, tokens_set_tokens, state_level_set_tokens.
  unfold set_line, set_tokens, committed.
  cbn [src marks blkIndent state_line state_level tokens].
  do 3 f_equal.
  - lia.
  - rewrite <- !app_assoc. cbn [app]. do 3 f_equal.
    unfold close_token, set_level_block, new_Token.
    cbn [type tag nesting attrs map_ level content info block].
    do 2 f_equal. lia.
Qed.

Lemma parseSnippetBlock_guards_fail (st : StateBlock) (startLine endLine : nat)
    (silent : bool) :
  guards_pass st startLine = false ->
  parseSnippetBlock st startLine endLine silent = Ret (false, st).
Proof.
  unfold guards_pass, parseSnippetBlock.
  destruct (match sCount st startLine with Some _ => _ | None => _ end);
    [reflexivity|].
  destruct (negb (blkIndent st =? 0)%Z || _)%bool; [reflexivity|].
  destruct (validSnippetRegex _); [discriminate | reflexivity].
Qed.

(** A committed recognition, read backwards: the tests passed, the collected
    meta-lines are a Begin, some lines, and an End, they validated, and the
    state is the committed one. *)
Lemma parseSnippetBlock_true_inv (st : StateBlock) (startLine endLine : nat)
    (st' : StateBlock) :
  parseSnippetBlock st startLine endLine false = Ret (true, st') ->
  guards_pass st startLine = true
  /\ exists i b br bt c h mid endIndex,
       collectMetaLines st startLine endLine
       = (Begin i b br bt c h :: mid ++ [End_ endIndex])%list
       /\ valid (validateMetaLines (collectMetaLines st startLine endLine)) = true
       /\ st' = committed st endIndex h c b br bt
                  (sort_by_index (filter is_lang mid)).
Proof.
  intros H.
  destruct (guards_pass st startLine) eqn:Hg;
    [|rewrite parseSnippetBlock_guards_fail in H by assumption; discriminate].
  split; [reflexivity|].
  pose proof H as H0. destruct (guards_pass_true _ _ Hg) as (Hg1 & Hg2 & Hg3).
  unfold parseSnippetBlock in H0. rewrite Hg1, Hg2, Hg3 in H0.
  cbn [negb orb] in H0.
  destruct (valid (validateMetaLines (collectMetaLines st startLine endLine)))
    eqn:Hv; [|discriminate].
  cbn [negb] in H0.
  destruct (collectMetaLines st startLine endLine) as [|m rest] eqn:Hc;
    [discriminate|].
  destruct m as [i b br bt c h|i|i l]; try discriminate.
  destruct (pop rest) as [[mid x]|] eqn:Hp; [|discriminate].
  apply pop_some in Hp. subst rest.
  destruct x as [j ? ? ? ? ?|endIndex|j l]; try discriminate.
  exists i, b, br, bt, c, h, mid, endIndex.
  split; [reflexivity|]. split; [reflexivity|].
  rewrite (parseSnippetBlock_commit st startLine endLine i b br bt c h mid endIndex)
    in H; auto.
  now injection H.
Qed.

Lemma lang_tokens_length (st : StateBlock) (e : nat) (ls : list MetaLine) (lvl : Z) :
  List.length (lang_tokens st e ls lvl) = List.length ls.
Proof. revert lvl; induction ls as [|l ls IH]; intros lvl; cbn; auto. Qed.







(** The contents extracted from the sample envelope: four columns of padding
    are gone, the two further spaces of the third line and the empty line are
    kept. *)
Example sample_contents :
  List.map content
    (tokens (state_of (parseSnippetBlock sample_state 0 13 false) sample_state))
  = [""; join NL ["console.log(1);"; ""; "  console.log(2);"];
     "body { color: red; }"; ""].
Proof. vm_compute. reflexivity. Qed.

(** ** Round trip *)

Lemma split_lines_not_nil (s : string) : split_lines s <> [].
Proof.
  induction s as [|c s IH]; cbn; [discriminate|].
  destruct (Ascii.eqb c LF); [discriminate|].
  now destruct (split_lines s).
Qed.

Lemma join_cons_char (c : ascii) (h : string) (t : list string) :
  join NL (String c h :: t) = String c (join NL (h :: t)).
Proof. now destruct t. Qed.

Lemma join_split_lines (s : string) : join NL (split_lines s) = s.
Proof.
  induction s as [|c s IH]; [reflexivity|].
  cbn [split_lines]. destruct (Ascii.eqb_spec c LF) as [->|Hc].
  - destruct (split_lines s) as [|h t] eqn:E; [now elim (split_lines_not_nil s)|].
    rewrite join_cons. cbn [append]. now rewrite IH.
  - destruct (split_lines s) as [|h t] eqn:E; [now elim (split_lines_not_nil s)|].
    now rewrite join_cons_char, IH.
Qed.

Lemma split_lines_no_lf (s : string) :
  Forall (fun l => no_lf l = true) (split_lines s).
Proof.
  induction s as [|c s IH]; [now repeat constructor|].
  cbn [split_lines]. destruct (Ascii.eqb c LF) eqn:Ec.
  - now constructor.
  - destruct (split_lines s) as [|h t] eqn:E; [now elim (split_lines_not_nil s)|].
    inversion IH; subst. constructor; [|assumption].
    cbn [no_lf]. now rewrite Ec.
Qed.

Lemma no_lf_append (a b : string) : no_lf (a ++ b) = (no_lf a && no_lf b)%bool.
Proof.
  induction a as [|c a IH]; [reflexivity|].
  cbn [append no_lf]. rewrite IH. now rewrite andb_assoc.
Qed.

Lemma no_lf_indent4 (t : string) : no_lf t = true -> no_lf (indent4 t) = true.
Proof.
  intros H. unfold indent4. destruct (t =? ""); [reflexivity|].
  now rewrite no_lf_append, H.
Qed.

Lemma starts_with_lt_indent4 (t : string) : starts_with_lt (indent4 t) = false.
Proof. unfold indent4. now destruct (t =? ""). Qed.

(** The begin marker of five tri-state values is a line that the rule collects
    and classifies as the Begin of these values. *)
Lemma begin_marker_facts (h c b br bt : string) (k : nat) :
  tri_state h -> tri_state c -> tri_state b -> tri_state br -> tri_state bt ->
  no_lf (begin_marker h c b br bt) = true
  /\ leading (begin_marker h c b br bt) 0 0 = (0, 0)
  /\ validSnippetRegex (begin_marker h c b br bt) = true
  /\ meta_of_lines k [begin_marker h c b br bt] = [Begin k b br bt c h].
Proof.
  intros [-> | [-> | ->]] [-> | [-> | ->]] [-> | [-> | ->]]
         [-> | [-> | ->]] [-> | [-> | ->]];
    repeat split; vm_compute; reflexivity.
Qed.

Lemma lang_marker_facts (l : string) (k : nat) :
  snippet_language l ->
  no_lf (lang_marker l) = true
  /\ meta_of_lines k [lang_marker l] = [Lang k l].
Proof. intros [-> | [-> | ->]]; split; vm_compute; reflexivity. Qed.

Lemma raw_of_lines_app (k : nat) (a b : list string) :
  raw_of_lines k (a ++ b)%list
  = (raw_of_lines k a ++ raw_of_lines (k + List.length a) b)%list.
Proof.
  revert k; induction a as [|x a IH]; intros k.
  - cbn. now rewrite Nat.add_0_r.
  - cbn [app]. rewrite (raw_of_lines_cons k x (a ++ b)), (raw_of_lines_cons k x a).
    rewrite IH, <- app_assoc. do 2 f_equal. cbn [List.length]. f_equal. lia.
Qed.

Lemma map_filter_null_app {A B : Type} (f : A -> option B) (a b : list A) :
  map_filter_null f (a ++ b)%list
  = (map_filter_null f a ++ map_filter_null f b)%list.
Proof.
  induction a as [|x a IH]; [reflexivity|].
  cbn. destruct (f x); [cbn; now rewrite IH | exact IH].
Qed.

Lemma meta_of_lines_app (k : nat) (a b : list string) :
  meta_of_lines k (a ++ b)%list
  = (meta_of_lines k a ++ meta_of_lines (k + List.length a) b)%list.
Proof. unfold meta_of_lines. now rewrite raw_of_lines_app, map_filter_null_app. Qed.

Lemma meta_of_lines_indent4 (k : nat) (ts : list string) :
  meta_of_lines k (List.map indent4 ts) = [].
Proof.
  revert k; induction ts as [|t ts IH]; intros k; [reflexivity|].
  unfold meta_of_lines in *. cbn [List.map raw_of_lines].
  rewrite starts_with_lt_indent4. cbn [andb]. apply IH.
Qed.

Lemma length_lang_lines (n : LangNode) :
  List.length (lang_lines n) = 3 + List.length (split_lines (textContent n)).
Proof.
  unfold lang_lines. rewrite !length_app, length_map. cbn. lia.
Qed.

Lemma meta_of_lines_lang_lines (k : nat) (n : LangNode) (l : string) :
  language n = Some l -> snippet_language l ->
  meta_of_lines k (lang_lines n) = [Lang k l].
Proof.
  intros Hl Hs. unfold lang_lines. rewrite Hl. cbn [value_or_null].
  change ([lang_marker l; ""] ++ ?x)%list with ([lang_marker l] ++ [""] ++ x)%list.
  rewrite !meta_of_lines_app, meta_of_lines_indent4.
  destruct (lang_marker_facts l k Hs) as [_ ->]. reflexivity.
Qed.

Lemma meta_of_lines_children (k : nat) (ns : list LangNode) :
  Forall (fun n => exists l, language n = Some l /\ snippet_language l) ns ->
  meta_of_lines k (flat_map lang_lines ns) = langs_meta k ns.
Proof.
  revert k; induction ns as [|n ns IH]; intros k H; [reflexivity|].
  inversion H as [|? ? (l & Hl & Hs) Hns]; subst.
  cbn [flat_map langs_meta]. rewrite meta_of_lines_app.
  rewrite (meta_of_lines_lang_lines k n l Hl Hs), IH by assumption.
  now rewrite Hl.
Qed.

Lemma mkState_doc_lines (ls : list string) :
  well_formed_doc ls -> doc_lines (mkState (join NL ls)) ls.
Proof.
  intros Hwf k l Hk.
  destruct (nth_error_split ls k Hk) as (a & b & -> & <-).
  replace (List.length a + 1 <? List.length (a ++ l :: b))%nat
    with (match b with [] => false | _ => true end).
  - now apply mkState_line_is.
  - rewrite length_app. cbn [List.length].
    destruct b; symmetry; [apply Nat.ltb_ge | apply Nat.ltb_lt]; cbn; lia.
Qed.

Lemma doc_lines_collect (st : StateBlock) (ls : list string) :
  doc_lines st ls ->
  collectMetaLines st 0 (List.length ls) = meta_of_lines 0 ls.
Proof.
  intros H. unfold collectMetaLines, meta_of_lines.
  rewrite <- (scanMetaLines_lines st ls 0); [reflexivity|].
  intros k l Hk. eexists. apply (H k l Hk).
Qed.

Lemma well_formed_snippet_lines (node : SnippetNode) :
  well_formed_node node -> well_formed_doc (snippet_lines node).
Proof.
  intros ((h & c & b & br & bt & E1 & E2 & E3 & E4 & E5 & Hh & Hc & Hb & Hbr & Hbt)
          & Hns & _).
  split.
  - unfold snippet_lines. rewrite E1, E2, E3, E4, E5. cbn [value_or_null].
    destruct (begin_marker_facts h c b br bt 0 Hh Hc Hb Hbr Hbt) as (Hno & _).
    apply Forall_app. split; [repeat constructor; assumption|].
    apply Forall_app. split; [|repeat constructor].
    apply Forall_flat_map. eapply Forall_impl; [|exact Hns].
    intros n (l & Hl & Hs). unfold lang_lines. rewrite Hl. cbn [value_or_null].
    destruct (lang_marker_facts l 0 Hs) as (Hnl & _).
    apply Forall_app. split; [repeat constructor; assumption|].
    apply Forall_app. split; [|repeat constructor].
    apply Forall_map. eapply Forall_impl; [|apply split_lines_no_lf].
    intros t. apply no_lf_indent4.
  - unfold snippet_lines.
    eexists (_ ++ _)%list, end_marker. split; [now rewrite <- app_assoc | reflexivity].
Qed.

(** The meta-lines of a serialized node. *)
Lemma meta_of_snippet_lines (node : SnippetNode) (h c b br bt : string) :
  hide node = Some h -> console node = Some c -> babel node = Some b ->
  babelPresetReact node = Some br -> babelPresetTS node = Some bt ->
  tri_state h -> tri_state c -> tri_state b -> tri_state br -> tri_state bt ->
  Forall (fun n => exists l, language n = Some l /\ snippet_language l)
         (children node) ->
  meta_of_lines 0 (snippet_lines node)
  = (Begin 0 b br bt c h
       :: langs_meta 2 (children node)
       ++ [End_ (2 + List.length (flat_map lang_lines (children node)))])%list.
Proof.
  intros E1 E2 E3 E4 E5 Hh Hc Hb Hbr Hbt Hns.
  unfold snippet_lines. rewrite E1, E2, E3, E4, E5. cbn [value_or_null].
  change ([?x; ""] ++ ?y)%list with ([x] ++ [""] ++ y)%list.
  rewrite !meta_of_lines_app.
  destruct (begin_marker_facts h c b br bt 0 Hh Hc Hb Hbr Hbt) as (_ & _ & _ & ->).
  rewrite meta_of_lines_children by assumption.
  cbn [List.length Nat.add app]. reflexivity.
Qed.

Lemma in_categories_langs_meta (c : category) (k : nat) (ns : list LangNode) :
  In c (categories (langs_meta k ns)) ->
  exists n, In n ns
            /\ category_of (Lang 0 (value_or_null (language n))) = Some c.
Proof.
  revert k; induction ns as [|n ns IH]; intros k; [contradiction|].
  cbn [langs_meta]. rewrite categories_cons.
  destruct (category_of (Lang k _)) as [c'|] eqn:E.
  - intros [<- | H].
    + exists n. split; [now left | exact E].
    + destruct (IH _ H) as (n' & Hin & Hc). exists n'. split; [now right | exact Hc].
  - intros H. destruct (IH _ H) as (n' & Hin & Hc).
    exists n'. split; [now right | exact Hc].
Qed.

Lemma category_of_lang_inj (l l' : string) (c : category) :
  snippet_language l -> snippet_language l' ->
  category_of (Lang 0 l) = Some c -> category_of (Lang 0 l') = Some c -> l = l'.
Proof.
  intros [-> | [-> | ->]] [-> | [-> | ->]]; cbn; congruence.
Qed.

Lemma category_of_lang_not_begin_end (i : nat) (l : string) :
  category_of (Lang i l) <> Some CBegin /\ category_of (Lang i l) <> Some CEnd.
Proof.
  cbn. destruct (l =? "js"); [split; discriminate|].
  destruct (l =? "html"); [split; discriminate|].
  destruct (l =? "css"); split; discriminate.
Qed.

Lemma nodup_categories_langs_meta (k : nat) (ns : list LangNode) :
  Forall (fun n => exists l, language n = Some l /\ snippet_language l) ns ->
  NoDup (List.map language ns) ->
  NoDup (categories (langs_meta k ns)).
Proof.
  revert k; induction ns as [|n ns IH]; intros k Hns Hnd; [constructor|].
  inversion Hns as [|? ? (l & Hl & Hs) Hns']; subst.
  cbn [List.map] in Hnd. inversion Hnd as [|? ? Hnotin Hnd']; subst.
  cbn [langs_meta]. rewrite categories_cons.
  destruct (category_of (Lang k _)) as [c|] eqn:E; [|now apply IH].
  constructor; [|now apply IH].
  intros Hin. apply in_categories_langs_meta in Hin as (n' & Hin' & Hc').
  apply Hnotin. rewrite Forall_forall in Hns'.
  destruct (Hns' n' Hin') as (l' & Hl' & Hs').
  rewrite Hl in E. rewrite Hl' in Hc'. cbn [value_or_null] in *.
  assert (l = l') by (eapply category_of_lang_inj; eauto).
  subst l'. rewrite Hl, <- Hl'. now apply in_map.
Qed.

Lemma not_in_category_langs_meta (c : category) (k : nat) (ns : list LangNode) :
  c = CBegin \/ c = CEnd ->
  existsb (in_category c) (langs_meta k ns) = false.
Proof.
  intros Hc. revert k; induction ns as [|n ns IH]; intros k; [reflexivity|].
  cbn [langs_meta existsb]. rewrite IH, orb_false_r.
  unfold in_category.
  destruct (category_of_lang_not_begin_end k (value_or_null (language n))) as [Hb He].
  destruct (category_of (Lang k _)) as [c'|]; [|reflexivity].
  destruct Hc as [-> | ->]; destruct c'; try reflexivity; congruence.
Qed.

(** The meta-lines of a serialized well-formed node validate. *)
Lemma valid_serialized (b br bt c h : string) (ns : list LangNode) (e : nat) :
  Forall (fun n => exists l, language n = Some l /\ snippet_language l) ns ->
  NoDup (List.map language ns) ->
  valid (validateMetaLines
           (Begin 0 b br bt c h :: langs_meta 2 ns ++ [End_ e])%list) = true.
Proof.
  intros Hns Hnd.
  apply (validate_early_success (Begin 0 b br bt c h :: langs_meta 2 ns)
                                (End_ e) []).
  - rewrite categories_cons. cbn [category_of]. constructor.
    + intros Hin. apply existsb_in_category in Hin.
      rewrite not_in_category_langs_meta in Hin by auto. discriminate.
    + now apply nodup_categories_langs_meta.
  - unfold has_end. cbn [existsb].
    rewrite not_in_category_langs_meta by auto. apply andb_false_r.
  - rewrite has_begin_app, has_end_app. cbn. now rewrite orb_true_r.
Qed.

Lemma filter_langs_meta (k : nat) (ns : list LangNode) :
  filter is_lang (langs_meta k ns) = langs_meta k ns.
Proof.
  revert k; induction ns as [|n ns IH]; intros k; [reflexivity|].
  cbn. now rewrite IH.
Qed.

Lemma sort_langs_meta (k : nat) (ns : list LangNode) :
  sort_by_index (langs_meta k ns) = langs_meta k ns.
Proof.
  revert k; induction ns as [|n ns IH]; intros k; [reflexivity|].
  cbn [langs_meta sort_by_index fold_right].
  change (fold_right insert_by_index [] ?l) with (sort_by_index l).
  rewrite IH. destruct ns as [|n' ns]; [reflexivity|].
  cbn [langs_meta insert_by_index meta_index].
  assert (H : (k <=? k + List.length (lang_lines n))%nat = true)
    by (apply Nat.leb_le; lia).
  now rewrite H.
Qed.

Lemma lang_end_langs_meta (e k : nat) (ns : list LangNode) :
  e = k + List.length (flat_map lang_lines ns) ->
  lang_end e (langs_meta k ns) = k.
Proof.
  intros ->. destruct ns as [|n ns]; cbn; [lia | reflexivity].
Qed.

Lemma langNodes_of_lang_tokens (st : StateBlock) (e : nat) (ls : list MetaLine)
    (lvl lvl' : Z) :
  verbatim_langNodes (lang_tokens st e ls lvl ++ [close_token lvl'])%list
  = Some (List.map verbatim_langNode (lang_tokens st e ls lvl)).
Proof.
  revert lvl; induction ls as [|l ls IH]; intros lvl; [reflexivity|].
  cbn [lang_tokens app List.map].
  specialize (IH (lvl + 1)%Z).
  destruct (lang_tokens st e ls (lvl + 1) ++ [close_token lvl'])%list as [|t r] eqn:E.
  - now destruct (lang_tokens st e ls (lvl + 1)).
  - cbn [verbatim_langNodes]. cbn [lang_token type String.eqb Ascii.eqb Bool.eqb].
    cbn [verbatim_langNodes] in IH. now rewrite IH.
Qed.

(** The lines of a language block in a document, read back by [getLines]. *)
Lemma padded_lines_of_block (st : StateBlock) (pre : list string) (n : LangNode)
    (rest : list string) :
  doc_lines st (pre ++ lang_lines n ++ rest)%list ->
  padded_lines st (List.length pre + 2) (split_lines (textContent n)).
Proof.
  intros Hdoc j t Hj.
  set (ts := split_lines (textContent n)) in *.
  assert (Hlen : j < List.length ts) by (apply nth_error_Some; congruence).
  assert (Hnth : nth_error (pre ++ lang_lines n ++ rest)%list
                           (List.length pre + 2 + j) = Some (indent4 t)).
  { unfold lang_lines. fold ts.
    rewrite <- Nat.add_assoc, nth_error_app2 by lia.
    replace (List.length pre + (2 + j) - List.length pre) with (2 + j) by lia.
    rewrite <- app_assoc. cbn [app Nat.add nth_error].
    rewrite <- app_assoc, nth_error_app1 by (rewrite length_map; lia).
    now apply map_nth_error. }
  specialize (Hdoc _ _ Hnth).
  assert (Hterm : (List.length pre + 2 + j + 1
                   <? List.length (pre ++ lang_lines n ++ rest))%nat = true).
  { apply Nat.ltb_lt. rewrite !length_app, length_lang_lines. fold ts. lia. }
  rewrite Hterm in Hdoc. unfold indent4 in Hdoc.
  destruct (t =? "") eqn:E.
  - apply String.eqb_eq in E. right. now split.
  - now left.
Qed.

Lemma children_roundtrip (st : StateBlock) (ns : list LangNode)
    (pre : list string) (last : string) (e : nat) (lvl : Z) :
  doc_lines st (pre ++ flat_map lang_lines ns ++ [last])%list ->
  e = List.length pre + List.length (flat_map lang_lines ns) ->
  Forall (fun n => exists l, language n = Some l /\ snippet_language l) ns ->
  List.map verbatim_langNode
    (lang_tokens st e (langs_meta (List.length pre) ns) lvl) = ns.
Proof.
  revert pre lvl; induction ns as [|n ns IH]; intros pre lvl Hdoc He Hns;
    [reflexivity|].
  apply Forall_cons_iff in Hns as [(l & Hl & Hs) Hns'].
  cbn [flat_map] in *. rewrite <- app_assoc in Hdoc. rewrite length_app in He.
  cbn [langs_meta lang_tokens List.map]. f_equal.
  - unfold verbatim_langNode, lang_token, attrGet.
    cbn [attrs attrs_get content meta_language meta_index String.eqb].
    rewrite (lang_end_langs_meta _ (List.length pre + List.length (lang_lines n)))
      by lia.
    rewrite length_lang_lines.
    replace (List.length pre + (3 + List.length (split_lines (textContent n))) - 1)
      with (List.length pre + 2 + List.length (split_lines (textContent n)))
      by lia.
    rewrite getLines_padded by (eapply padded_lines_of_block; exact Hdoc).
    rewrite join_split_lines, Hl. cbn [value_or_null]. destruct n; cbn in *.
    now subst.
  - rewrite <- length_app. apply IH; auto.
    + now rewrite <- app_assoc.
    + rewrite length_app. lia.
Qed.

Lemma serialize_lines (node : SnippetNode) :
  serialize node = join NL (snippet_lines node).
Proof. unfold serialize. now rewrite stack_snippet_lines. Qed.

Lemma guards_pass_begin (st : StateBlock) (l : string) (t : bool) :
  blkIndent st = 0%Z -> line_is st 0 l t ->
  leading l 0 0 = (0, 0) -> validSnippetRegex l = true ->
  guards_pass st 0 = true.
Proof.
  intros Hb Hl Hlead Hv. unfold guards_pass.
  rewrite (line_is_sCount _ _ _ _ Hl), (line_is_tShift _ _ _ _ Hl),
    (line_is_slice _ _ _ _ Hl), Hlead, Hb, Hv.
  reflexivity.
Qed.

Lemma node_eta (node : SnippetNode) (h c b br bt : string) :
  hide node = Some h -> console node = Some c -> babel node = Some b ->
  babelPresetReact node = Some br -> babelPresetTS node = Some bt ->
  {| hide := Some h; console := Some c; babel := Some b;
     babelPresetReact := Some br; babelPresetTS := Some bt;
     children := children node |} = node.
Proof. destruct node; cbn; intros; now subst. Qed.

(** Parsing the text of a well-formed node gives the node back. *)
Lemma parse_serialized (node : SnippetNode) :
  well_formed_node node -> read_back (serialize node) = Some node.
Proof.
  intros Hwf. assert (Hdocwf := well_formed_snippet_lines node Hwf).
  destruct Hwf as ((h & c & b & br & bt & E1 & E2 & E3 & E4 & E5
                    & Hh & Hc & Hb & Hbr & Hbt) & Hns & Hnd).
  rewrite serialize_lines. unfold read_back.
  rewrite (lineMax_mkState _ Hdocwf).
  assert (Hdoc := mkState_doc_lines _ Hdocwf).
  set (st := mkState (join NL (snippet_lines node))) in *.
  set (e := 2 + List.length (flat_map lang_lines (children node))).
  assert (Hcollect :
    collectMetaLines st 0 (List.length (snippet_lines node))
    = (Begin 0 b br bt c h :: langs_meta 2 (children node) ++ [End_ e])%list).
  { rewrite (doc_lines_collect _ _ Hdoc).
    now apply meta_of_snippet_lines. }
  destruct (begin_marker_facts h c b br bt 0 Hh Hc Hb Hbr Hbt)
    as (_ & Hlead & Hvalid & _).
  assert (Hline0 : nth_error (snippet_lines node) 0
                   = Some (begin_marker h c b br bt)).
  { unfold snippet_lines. now rewrite E1, E2, E3, E4, E5. }
  assert (Hg : guards_pass st 0 = true).
  { apply (guards_pass_begin st (begin_marker h c b br bt) _ eq_refl
             (Hdoc 0 _ Hline0) Hlead Hvalid). }
  rewrite (parseSnippetBlock_commit st 0 _ 0 b br bt c h
             (langs_meta 2 (children node)) e Hg Hcollect)
    by now apply valid_serialized.
  rewrite filter_langs_meta, sort_langs_meta.
  unfold committed. cbn [tokens]. change (tokens st) with (@nil Token).
  cbn [app verbatim_node open_token type String.eqb Ascii.eqb Bool.eqb].
  rewrite langNodes_of_lang_tokens.
  unfold attrGet. cbn [attrs attrs_get String.eqb Ascii.eqb Bool.eqb].
  rewrite (children_roundtrip st (children node)
             [begin_marker h c b br bt; ""] end_marker e).
  - f_equal. now apply node_eta.
  - unfold snippet_lines in Hdoc. rewrite E1, E2, E3, E4, E5 in Hdoc. exact Hdoc.
  - reflexivity.
  - exact Hns.
Qed.

Lemma in_map_filter_null {A B : Type} (f : A -> option B) (l : list A) (y : B) :
  In y (map_filter_null f l) -> exists x, In x l /\ f x = Some y.
Proof.
  induction l as [|x l IH]; [contradiction|].
  cbn. destruct (f x) as [y'|] eqn:E.
  - intros [<- | H]; [exists x; auto|].
    destruct (IH H) as (x' & Hin & Hf). exists x'. auto.
  - intros H. destruct (IH H) as (x' & Hin & Hf). exists x'. auto.
Qed.

Lemma collected_begin (st : StateBlock) (s e i : nat) (b br bt c h : string) :
  In (Begin i b br bt c h) (collectMetaLines st s e) ->
  tri_state h /\ tri_state c /\ tri_state b /\ tri_state br /\ tri_state bt.
Proof.
  intros H. apply in_map_filter_null in H as ([l idx] & _ & H).
  apply mapMetaLine_begin_inv in H. tauto.
Qed.

Lemma collected_lang (st : StateBlock) (s e i : nat) (l : string) :
  In (Lang i l) (collectMetaLines st s e) -> snippet_language l.
Proof.
  intros H. apply in_map_filter_null in H as ([ln idx] & _ & H).
  apply mapMetaLine_lang_inv in H. tauto.
Qed.

Lemma insert_by_index_perm (m : MetaLine) (l : list MetaLine) :
  Permutation (insert_by_index m l) (m :: l).
Proof.
  induction l as [|x l IH]; cbn; [reflexivity|].
  destruct (meta_index m <=? meta_index x)%nat; [reflexivity|].
  rewrite IH. apply perm_swap.
Qed.

Lemma sort_by_index_perm (l : list MetaLine) : Permutation (sort_by_index l) l.
Proof.
  induction l as [|x l IH]; cbn; [reflexivity|].
  rewrite insert_by_index_perm. now constructor.
Qed.

Lemma languages_of_lang_tokens (st : StateBlock) (e : nat) (ls : list MetaLine)
    (lvl : Z) :
  List.map language (List.map verbatim_langNode (lang_tokens st e ls lvl))
  = List.map (fun m => Some (meta_language m)) ls.
Proof.
  revert lvl; induction ls as [|l ls IH]; intros lvl; [reflexivity|].
  cbn [lang_tokens List.map]. now rewrite IH.
Qed.



(** ** The tree of the host *)

Lemma langNodes_trim (toks : list Token) :
  langNodes_of_tokens toks
  = option_map (List.map trim_lang) (verbatim_langNodes toks).
Proof.
  induction toks as [|t toks IH]; [reflexivity|].
  destruct toks as [|t' toks].
  - cbn. now destruct (type t =? "stack_snippet_close").
  - change (langNodes_of_tokens (t :: t' :: toks))
      with (if type t =? "stack_snippet_lang" then
              match langNodes_of_tokens (t' :: toks) with
              | Some ns => Some (langNode_of_token t :: ns)
              | None => None
              end
            else None).
    change (verbatim_langNodes (t :: t' :: toks))
      with (if type t =? "stack_snippet_lang" then
              match verbatim_langNodes (t' :: toks) with
              | Some ns => Some (verbatim_langNode t :: ns)
              | None => None
              end
            else None).
    rewrite IH. destruct (type t =? "stack_snippet_lang"); [|reflexivity].
    now destruct (verbatim_langNodes (t' :: toks)).
Qed.

Lemma snippetNode_tree (toks : list Token) :
  snippetNode_of_tokens toks
  = match verbatim_node toks with
    | Some n => tree_of n
    | None => None
    end.
Proof.
  destruct toks as [|tok rest]; [reflexivity|].
  unfold snippetNode_of_tokens, verbatim_node.
  destruct (type tok =? "stack_snippet_open"); [|reflexivity].
  rewrite langNodes_trim.
  destruct (verbatim_langNodes rest) as [ns|]; [|reflexivity].
  unfold tree_of. cbn [option_map children].
  now destruct (createAndFill (List.map trim_lang ns)).
Qed.

Lemma parseEnvelope_tree (text : string) :
  parseEnvelope text
  = match read_back text with
    | Some n => tree_of n
    | None => None
    end.
Proof.
  unfold parseEnvelope, read_back.
  destruct (parseSnippetBlock _ _ _ _) as [[[|] st']|]; try reflexivity.
  apply snippetNode_tree.
Qed.

Lemma createAndFill_three (ns : list LangNode) :
  List.length ns = 3 -> createAndFill ns = Some ns.
Proof.
  intros H. unfold createAndFill. cbn [stack_snippet_content List.length].
  rewrite H. cbn. now rewrite app_nil_r.
Qed.

Lemma tree_of_three (n : SnippetNode) :
  List.length (children n) = 3 ->
  tree_of n = Some (with_children n (List.map trim_lang (children n))).
Proof.
  intros H. unfold tree_of.
  rewrite createAndFill_three by now rewrite length_map. reflexivity.
Qed.



Lemma withoutTrailingNewline_id (s : string) :
  ends_with_lf s = false -> withoutTrailingNewline s = s.
Proof.
  unfold ends_with_lf, withoutTrailingNewline.
  destruct (get (length s - 1) s); [|reflexivity]. now intros ->.
Qed.

Lemma trim_lang_id (ns : list LangNode) :
  Forall (fun n => ends_with_lf (textContent n) = false) ns ->
  List.map trim_lang ns = ns.
Proof.
  induction 1 as [|n ns Hn _ IH]; [reflexivity|].
  cbn [List.map]. rewrite IH. f_equal.
  destruct n as [l t]. unfold trim_lang. cbn [language textContent] in *.
  now rewrite withoutTrailingNewline_id.
Qed.

Lemma with_children_id (n : SnippetNode) : with_children n (children n) = n.
Proof. now destruct n. Qed.









(** The serialized text need not be the text parsed: a line of four spaces
    comes back empty and the empty lines before a marker come back as one,
    yet the node is the same. *)
Example loose_envelope_round_trip :
  exists node,
    parseEnvelope loose_envelope = Some node
    /\ serialize node <> loose_envelope
    /\ parseEnvelope (serialize node) = Some node.
Proof.
  eexists. split; [vm_compute; reflexivity|].
  split; [vm_compute; discriminate | vm_compute; reflexivity].
Qed.

(** A text that is not a valid envelope can still be recognized: with two
    envelopes in the span, validation stops at the first end marker, the rule
    takes the last one, and the node has two js children and a filler; its
    text is not recognized again. *)
Example two_envelopes_not_valid :
  List.length
    (filter is_end
       (collectMetaLines (mkState two_envelopes) 0 (lineMax (mkState two_envelopes))))
  = 2
  /\ exists node,
       parseEnvelope two_envelopes = Some node
       /\ List.map language (children node) = [Some "js"; Some "js"; Some ""]
       /\ parseEnvelope (serialize node) = None.
Proof.
  split; [vm_compute; reflexivity|].
  eexists. split; [vm_compute; reflexivity|].
  split; vm_compute; reflexivity.
Qed.

(** The node of the under-padded envelope: the contents of the js block and
    of two fillers. *)
Example under_padded_contents :
  option_map (fun node => List.map textContent (children node))
             (parseEnvelope under_padded_envelope)
  = Some [join NL ["a;"; "b;"]; ""; ""].
Proof. vm_compute. reflexivity. Qed.

(** ** The block rule always returns *)

Lemma validate_loop_returned (ms : list MetaLine) (v0 r : ValidationResult) :
  validate_loop v0 ms = Returned r -> valid r = false.
Proof.
  revert v0; induction ms as [|m ms IH]; intros v0; [discriminate|].
  cbn [validate_loop]. rewrite validate_switch_spec.
  destruct (category_of m) as [c|].
  - destruct (truthy (recorded c v0)); [now intros [= <-]|].
    destruct (_ && _)%bool; [discriminate | apply IH].
  - destruct (_ && _)%bool; [discriminate | apply IH].
Qed.

Lemma validate_loop_broke (ms : list MetaLine) (v0 v : ValidationResult) :
  validate_loop v0 ms = Broke v ->
  (not_null (beginIndex v0) || has_begin ms)
  && (not_null (endIndex v0) || has_end ms) = true.
Proof.
  revert v0; induction ms as [|m ms IH]; intros v0; [discriminate|].
  cbn [validate_loop]. rewrite validate_switch_spec.
  unfold has_begin, has_end. cbn [existsb]. unfold in_category.
  destruct (category_of m) as [c|].
  - destruct (truthy (recorded c v0)); [discriminate|].
    destruct (not_null (beginIndex (record c v0 (meta_index m)))
              && not_null (endIndex (record c v0 (meta_index m)))) eqn:Eb.
    + intros _. destruct c; cbn in Eb |- *;
        destruct (not_null (beginIndex v0)), (not_null (endIndex v0));
        cbn in *; try discriminate; reflexivity.
    + intros H. apply IH in H. unfold has_begin, has_end, in_category in H.
      destruct c; cbn in H |- *;
        destruct (not_null (beginIndex v0)), (not_null (endIndex v0));
        cbn in *; try assumption; try reflexivity;
        rewrite ?orb_true_r; auto.
  - destruct (not_null (beginIndex v0) && not_null (endIndex v0)) eqn:Eb.
    + intros _. apply andb_true_iff in Eb as [-> ->]. reflexivity.
    + intros H. apply IH in H. exact H.
Qed.

(** A valid sequence holds a Begin and an End. *)
Lemma valid_has_begin_end (ms : list MetaLine) :
  valid (validateMetaLines ms) = true -> has_begin ms = true /\ has_end ms = true.
Proof.
  unfold validateMetaLines.
  destruct (validate_loop initialResult ms) as [r|v|v] eqn:E; intros Hv.
  - apply validate_loop_returned in E. congruence.
  - apply validate_loop_broke in E. cbn in E. now apply andb_true_iff in E.
  - apply exhausted_inv in E as (Hval & _). cbn in Hval. congruence.
Qed.

(** X10. The rule never throws: on every state and span, in either mode, the
    call returns a boolean and a state; after a successful validation there
    is a first meta-line to shift and a last one to pop. *)
Lemma parseSnippetBlock_returns (st : StateBlock) (startLine endLine : nat)
    (silent : bool) :
  exists b st', parseSnippetBlock st startLine endLine silent = Ret (b, st').
Proof.
  destruct silent.
  { destruct (parseSnippetBlock_silent_total st startLine endLine) as [b Hb].
    eauto. }
  destruct (guards_pass st startLine) eqn:Hg;
    [|rewrite parseSnippetBlock_guards_fail by assumption; eauto].
  destruct (guards_pass_true _ _ Hg) as (Hg1 & Hg2 & Hg3).
  destruct (valid (validateMetaLines (collectMetaLines st startLine endLine)))
    eqn:Hv.
  2:{ unfold parseSnippetBlock. rewrite Hg1, Hg2, Hg3, Hv. cbn. eauto. }
  destruct (valid_has_begin_end _ Hv) as [Hb He].
  destruct (collectMetaLines st startLine endLine) as [|m rest] eqn:Hc;
    [discriminate|].
  destruct m as [i b br bt c h|i|i l].
  - unfold has_end in He. cbn in He.
    destruct rest as [|x rest']; [discriminate|].
    destruct (exists_last (l := x :: rest') ltac:(discriminate)) as (mid & y & Hy).
    rewrite Hy in *.
    destruct y as [j ? ? ? ? ?|endIndex|j l].
    + unfold parseSnippetBlock. rewrite Hg1, Hg2, Hg3, Hc, Hv. cbn [negb orb].
      rewrite pop_app. eauto.
    + rewrite (parseSnippetBlock_commit st startLine endLine i b br bt c h mid
                 endIndex Hg Hc Hv).
      eauto.
    + unfold parseSnippetBlock. rewrite Hg1, Hg2, Hg3, Hc, Hv. cbn [negb orb].
      rewrite pop_app. eauto.
  - unfold parseSnippetBlock. rewrite Hg1, Hg2, Hg3, Hc, Hv. cbn. eauto.
  - unfold parseSnippetBlock. rewrite Hg1, Hg2, Hg3, Hc, Hv. cbn. eauto.
Qed.

(** ** The node schema *)

Lemma language_validate_iff (l : string) :
  language_validate l = true <-> snippet_language l.
Proof.
  unfold language_validate, snippet_language. cbn [existsb].
  rewrite !orb_true_iff, !String.eqb_eq. intuition discriminate.
Qed.

(** The fallback of the serializer for an absent attribute is the default of
    the schema. *)
Lemma assertAttrValue_default : assertAttrValue None = stack_snippet_attr_default.
Proof. reflexivity. Qed.

(** ** Further properties of the classifier *)

Lemma mapMetaLine_index (raw : RawContext) (m : MetaLine) :
  mapMetaLine raw = Some m -> meta_index m = index raw.
Proof.
  unfold mapMetaLine. destruct (line raw =? "<!-- end snippet -->").
  - intros [= <-]. reflexivity.
  - destruct (langSnippetRegex (line raw)); [intros [= <-]; reflexivity|].
    destruct (startSnippetRegex (line raw)); [|discriminate].
    destruct (_ && _); [intros [= <-]; reflexivity | discriminate].
Qed.

(** The end marker is matched by strict equality. *)
Lemma mapMetaLine_end_iff (l : string) (idx j : nat) :
  mapMetaLine {| line := l; index := idx |} = Some (End_ j)
  <-> l = "<!-- end snippet -->" /\ j = idx.
Proof.
  unfold mapMetaLine. cbn [line index]. split.
  - destruct (l =? "<!-- end snippet -->") eqn:E.
    + apply String.eqb_eq in E. intros [= <-]. now split.
    + destruct (langSnippetRegex l); [discriminate|].
      destruct (startSnippetRegex l); [|discriminate].
      destruct (_ && _); discriminate.
  - intros [-> ->]. reflexivity.
Qed.

(** A line is dropped exactly when it has none of the three shapes. *)
Lemma mapMetaLine_none_iff (l : string) (idx : nat) :
  mapMetaLine {| line := l; index := idx |} = None
  <-> l <> "<!-- end snippet -->"
      /\ (forall lang rest, snippet_language lang ->
            l <> "<!-- language: lang-" ++ lang ++ " -->" ++ rest)
      /\ (forall h c b br bt,
            tri_state h -> tri_state c -> tri_state b -> tri_state br ->
            tri_state bt -> ~ begin_shape l h c b br bt).
Proof.
  unfold mapMetaLine. cbn [line index]. split.
  - destruct (l =? "<!-- end snippet -->") eqn:E; [discriminate|].
    apply String.eqb_neq in E.
    destruct (langSnippetRegex l) as [lang|] eqn:EL; [discriminate|].
    destruct (startSnippetRegex l) as [g|] eqn:ES.
    + destruct (startSnippetRegex_sound l g ES) as (H1 & H2 & H3 & H4 & H5 & _).
      rewrite (tri_state_truthy _ H1), (tri_state_truthy _ H2),
        (tri_state_truthy _ H3), (tri_state_truthy _ H4), (tri_state_truthy _ H5).
      discriminate.
    + intros _. split; [exact E|]. split.
      * intros lang rest Hl ->.
        assert (langSnippetRegex ("<!-- language: lang-" ++ lang ++ " -->" ++ rest)
                = Some lang) as HS
          by (apply langSnippetRegex_spec; split; [exact Hl | now exists rest]).
        rewrite HS in EL. discriminate.
      * intros h c b br bt Hh Hc Hb Hbr Hbt Hs.
        rewrite (startSnippetRegex_complete l h c b br bt Hh Hc Hb Hbr Hbt Hs) in ES.
        discriminate.
  - intros (HE & HL & HB).
    apply String.eqb_neq in HE. rewrite HE.
    destruct (langSnippetRegex l) as [lang|] eqn:EL.
    + apply langSnippetRegex_spec in EL. destruct EL as (Hl & rest & Hr).
      exfalso. exact (HL lang rest Hl Hr).
    + destruct (startSnippetRegex l) as [g|] eqn:ES; [|reflexivity].
      destruct (startSnippetRegex_sound l g ES) as (H1 & H2 & H3 & H4 & H5 & Hs).
      exfalso. exact (HB _ _ _ _ _ H1 H2 H3 H4 H5 Hs).
Qed.

(** X2. The classifier on end markers and on other lines: a line is
    classified as End exactly when it is the literal end marker, strict
    equality, and the End carries the index of the line; a line is dropped
    exactly when it is not the end marker, does not start with a language
    marker of one of the three languages, and has no begin shape with
    tri-state values. *)
Theorem mapMetaLine_end_and_none (l : string) (idx : nat) :
  (forall j,
     mapMetaLine {| line := l; index := idx |} = Some (End_ j)
     <-> l = "<!-- end snippet -->" /\ j = idx)
  /\ (mapMetaLine {| line := l; index := idx |} = None
      <-> l <> "<!-- end snippet -->"
          /\ (forall lang rest, snippet_language lang ->
                l <> "<!-- language: lang-" ++ lang ++ " -->" ++ rest)
          /\ (forall h c b br bt,
                tri_state h -> tri_state c -> tri_state b -> tri_state br ->
                tri_state bt -> ~ begin_shape l h c b br bt)).
Proof.
  split; [intros j; apply mapMetaLine_end_iff | apply mapMetaLine_none_iff].
Qed.

(** ** Further properties of the validator *)

Lemma validate_loop_returned_reason (ms : list MetaLine) (v0 r : ValidationResult) :
  validate_loop v0 ms = Returned r -> exists c, r = duplicate (duplicate_reason c).
Proof.
  revert v0. induction ms as [|m ms IH]; intros v0 H; [discriminate|].
  cbn [validate_loop] in H. rewrite validate_switch_spec in H.
  destruct (category_of m) as [c|].
  - destruct (truthy (recorded c v0)).
    + injection H as <-. eauto.
    + destruct (_ && _) in H; [discriminate | eauto].
  - destruct (_ && _) in H; [discriminate | eauto].
Qed.

Lemma validate_loop_broke_shape (ms : list MetaLine) (v0 v : ValidationResult) :
  validate_loop v0 ms = Broke v ->
  valid v = true /\ reason v = None
  /\ not_null (beginIndex v) = true /\ not_null (endIndex v) = true.
Proof.
  revert v0. induction ms as [|m ms IH]; intros v0 H; [discriminate|].
  cbn [validate_loop] in H.
  destruct (validate_switch v0 m) as [r|v']; [discriminate|].
  destruct (not_null (beginIndex v') && not_null (endIndex v')) eqn:E.
  - injection H as <-. apply andb_prop in E. cbn. tauto.
  - eauto.
Qed.

(** X4. The result of the validator: either it is valid, has no reason and
    has both a begin and an end position, or it is not valid and its reason
    is one of the six messages of the validator. *)
Theorem validateMetaLines_reason (ms : list MetaLine) :
  let r := validateMetaLines ms in
  (valid r = true /\ reason r = None
   /\ beginIndex r <> None /\ endIndex r <> None)
  \/ (valid r = false /\ exists s, reason r = Some s /\ In s validation_reasons).
Proof.
  cbv zeta. unfold validateMetaLines.
  destruct (validate_loop initialResult ms) as [r|v|v] eqn:E.
  - right. destruct (validate_loop_returned_reason _ _ _ E) as (c & ->).
    split; [reflexivity|]. exists (duplicate_reason c). split; [reflexivity|].
    destruct c; cbn; tauto.
  - left. destruct (validate_loop_broke_shape _ _ _ E) as (H1 & H2 & H3 & H4).
    repeat split; try assumption.
    + destruct (beginIndex v); [discriminate | discriminate].
    + destruct (endIndex v); [discriminate | discriminate].
  - right. destruct (exhausted_inv _ _ _ E) as (H1 & H2 & _).
    split; [exact H1|]. exists "Did not discover beginning and end".
    split; [exact H2 | cbn; tauto].
Qed.

Lemma both_recorded_record_lang (c : category) (v : ValidationResult) (i : nat) :
  c <> CBegin -> c <> CEnd -> both_recorded (record c v i) = both_recorded v.
Proof. destruct c; intros; try contradiction; reflexivity. Qed.

(** X5. The duplicate test reads the recorded position as a truth value:
    when the earlier line of a category sits at index 0, a second line of
    that category before both begin and end are recorded is not reported;
    its index replaces the recorded one and the scan goes on with the rest. *)
Theorem validateMetaLines_index_0_not_detected
    (pre : list MetaLine) (m : MetaLine) (c : category) (m0 : MetaLine) :
  NoDup (categories pre) ->
  has_begin pre && has_end pre = false ->
  category_of m = Some c ->
  In m0 pre -> category_of m0 = Some c -> meta_index m0 = 0 ->
  exists v,
    validate_loop initialResult pre = Exhausted v
    /\ recorded c v = Some 0
    /\ forall rest,
         validate_loop initialResult (pre ++ m :: rest)
         = validate_loop (record c v (meta_index m)) rest.
Proof.
  intros Hnd Hnb Hm Hin Hm0 H0.
  destruct (scan_exhausts pre initialResult) as (v & Hv).
  { intros c' _. apply initial_fresh. }
  { exact Hnd. }
  { exact Hnb. }
  destruct (exhausted_inv _ _ _ Hv) as (_ & _ & Hrec & Hboth).
  assert (Hc : recorded c v = Some 0).
  { rewrite Hrec, (last_index_of_unique c pre m0 Hnd Hin Hm0), H0. reflexivity. }
  exists v. split; [exact Hv|]. split; [exact Hc|].
  intros rest. rewrite validate_loop_app, Hv. cbn [validate_loop].
  rewrite validate_switch_spec, Hm, Hc. cbn [truthy].
  assert (Hb : both_recorded (record c v (meta_index m)) = false).
  { assert (Hhas : existsb (in_category c) pre = true).
    { apply existsb_exists. exists m0. split; [exact Hin|].
      now apply in_category_iff. }
    destruct c.
    - unfold has_begin in Hnb. rewrite Hhas in Hnb. cbn in Hnb.
      unfold both_recorded. cbn.
      pose proof (Hrec CEnd) as HE. cbn [recorded] in HE.
      apply last_index_of_none in Hnb. rewrite Hnb in HE. rewrite HE.
      reflexivity.
    - unfold has_end in Hnb. rewrite Hhas, andb_true_r in Hnb.
      unfold both_recorded. cbn.
      pose proof (Hrec CBegin) as HE. cbn [recorded] in HE.
      apply last_index_of_none in Hnb. rewrite Hnb in HE. rewrite HE.
      reflexivity.
    - rewrite both_recorded_record_lang by discriminate.
      apply Hboth. intros ->. contradiction.
    - rewrite both_recorded_record_lang by discriminate.
      apply Hboth. intros ->. contradiction.
    - rewrite both_recorded_record_lang by discriminate.
      apply Hboth. intros ->. contradiction. }
  unfold both_recorded in Hb. rewrite Hb. reflexivity.
Qed.

Lemma validateMetaLines_index_0_not_detected_witness :
  exists v,
    validate_loop initialResult
      [Begin 0 "null" "null" "null" "null" "null"; Lang 3 "js"] = Exhausted v
    /\ recorded CBegin v = Some 0
    /\ forall rest,
         validate_loop initialResult
           ([Begin 0 "null" "null" "null" "null" "null"; Lang 3 "js"]
              ++ Begin 4 "null" "null" "null" "null" "null" :: rest)%list
         = validate_loop
             (record CBegin v
                (meta_index (Begin 4 "null" "null" "null" "null" "null"))) rest.
Proof.
  apply (validateMetaLines_index_0_not_detected
           [Begin 0 "null" "null" "null" "null" "null"; Lang 3 "js"]
           (Begin 4 "null" "null" "null" "null" "null") CBegin
           (Begin 0 "null" "null" "null" "null" "null")).
  - cbn. repeat constructor; cbn; intuition discriminate.
  - reflexivity.
  - reflexivity.
  - cbn. tauto.
  - reflexivity.
  - reflexivity.
Defined.

(** ** The collected meta-lines *)

(** What the scan and the classification make of line [i]. *)
Lemma scan_step_acc (st : StateBlock) (acc : list RawContext) (i : nat) :
  scan_step st acc i = (acc ++ scan_step st [] i)%list.
Proof.
  unfold scan_step.
  destruct (negb (is_code (charCodeAt (src st) (bMarks st i)) 60));
    [now rewrite app_nil_r|].
  destruct (negb (validSnippetRegex _)); [now rewrite app_nil_r | reflexivity].
Qed.

Lemma fold_scan_step (st : StateBlock) (l : list nat) (acc : list RawContext) :
  fold_left (scan_step st) l acc
  = (acc ++ flat_map (fun i => scan_step st [] i) l)%list.
Proof.
  revert acc. induction l as [|i l IH]; intros acc; cbn [fold_left flat_map].
  - now rewrite app_nil_r.
  - rewrite IH, scan_step_acc, app_assoc. reflexivity.
Qed.

Lemma collectMetaLines_chunks (st : StateBlock) (s e : nat) :
  collectMetaLines st s e
  = flat_map (fun i => map_filter_null mapMetaLine (scan_step st [] i))
             (seq s (e - s)).
Proof.
  unfold collectMetaLines, scanMetaLines. rewrite fold_scan_step. cbn [app].
  induction (seq s (e - s)) as [|i l IH]; [reflexivity|].
  cbn [flat_map]. rewrite map_filter_null_app, IH. reflexivity.
Qed.

Lemma chunk_in (st : StateBlock) (i : nat) (m : MetaLine) :
  In m (map_filter_null mapMetaLine (scan_step st [] i))
  <-> is_code (charCodeAt (src st) (bMarks st i)) 60 = true
      /\ validSnippetRegex (slice (src st) (bMarks st i) (eMarks st i)) = true
      /\ mapMetaLine {| line := slice (src st) (bMarks st i) (eMarks st i);
                        index := i |} = Some m.
Proof.
  unfold scan_step.
  destruct (is_code (charCodeAt (src st) (bMarks st i)) 60); cbn [negb].
  - destruct (validSnippetRegex (slice (src st) (bMarks st i) (eMarks st i)));
      cbn [negb app map_filter_null].
    + destruct (mapMetaLine _) as [m'|]; cbn [In].
      * split.
        -- intros [->|[]]. auto.
        -- intros (_ & _ & [= ->]). now left.
      * split; [intros [] | intros (_ & _ & H); discriminate].
    + split; [intros [] | intros (_ & H & _); discriminate].
  - split; [intros [] | intros (H & _); discriminate].
Qed.

Lemma chunk_cases (st : StateBlock) (i : nat) :
  map_filter_null mapMetaLine (scan_step st [] i) = []
  \/ exists m, map_filter_null mapMetaLine (scan_step st [] i) = [m]
               /\ meta_index m = i.
Proof.
  unfold scan_step.
  destruct (negb (is_code (charCodeAt (src st) (bMarks st i)) 60)); [now left|].
  destruct (negb (validSnippetRegex _)); [now left|].
  cbn [app map_filter_null].
  destruct (mapMetaLine _) as [m|] eqn:E; [|now left].
  right. exists m. split; [reflexivity|].
  apply mapMetaLine_index in E. exact E.
Qed.

Lemma chunks_sorted (g : nat -> list MetaLine) (n s : nat) :
  (forall i, g i = [] \/ exists m, g i = [m] /\ meta_index m = i) ->
  StronglySorted lt (List.map meta_index (flat_map g (seq s n)))
  /\ Forall (fun m => s <= meta_index m < s + n) (flat_map g (seq s n)).
Proof.
  intros Hg. revert s. induction n as [|n IH]; intros s.
  - cbn. split; constructor.
  - cbn [seq flat_map]. destruct (IH (S s)) as (Hs & Hr).
    assert (Hr' : Forall (fun m => s <= meta_index m < s + S n)
                         (flat_map g (seq (S s) n))).
    { eapply Forall_impl; [|exact Hr]. cbn. intros m Hm. lia. }
    destruct (Hg s) as [->|(m & -> & Hm)]; cbn [app List.map].
    + split; assumption.
    + split.
      * constructor; [exact Hs|]. apply Forall_map.
        eapply Forall_impl; [|exact Hr]. cbn. intros m' Hm'. lia.
      * constructor; [lia | exact Hr'].
Qed.

Lemma collected_sorted (st : StateBlock) (s e : nat) :
  StronglySorted lt (List.map meta_index (collectMetaLines st s e))
  /\ Forall (fun m => s <= meta_index m < e) (collectMetaLines st s e).
Proof.
  rewrite collectMetaLines_chunks.
  destruct (chunks_sorted
              (fun i => map_filter_null mapMetaLine (scan_step st [] i))
              (e - s) s (chunk_cases st)) as (Hs & Hr).
  split; [exact Hs|].
  eapply Forall_impl; [|exact Hr]. cbn. intros m Hm. lia.
Qed.

(** X6. The collected meta-lines come in the order of their lines: their
    indices increase strictly, so no line gives two meta-lines, and every
    index lies in the span from [startLine] up to [endLine], the latter
    excluded. *)
Theorem collectMetaLines_ordered (st : StateBlock) (startLine endLine : nat) :
  StronglySorted lt (List.map meta_index (collectMetaLines st startLine endLine))
  /\ Forall (fun m => startLine <= meta_index m < endLine)
            (collectMetaLines st startLine endLine).
Proof. apply collected_sorted. Qed.

(** X7. What is collected: a meta-line is among the collected ones exactly
    when some line of the span starts with [<], passes the pre-check and is
    classified as that meta-line with the index of the line.  Lines behind
    white space are never collected. *)
Theorem collectMetaLines_in_iff (st : StateBlock) (startLine endLine : nat)
    (m : MetaLine) :
  In m (collectMetaLines st startLine endLine)
  <-> exists i,
        startLine <= i < endLine
        /\ is_code (charCodeAt (src st) (bMarks st i)) 60 = true
        /\ validSnippetRegex (slice (src st) (bMarks st i) (eMarks st i)) = true
        /\ mapMetaLine {| line := slice (src st) (bMarks st i) (eMarks st i);
                          index := i |} = Some m.
Proof.
  rewrite collectMetaLines_chunks, in_flat_map. split.
  - intros (i & Hi & Hm). exists i. apply in_seq in Hi. apply chunk_in in Hm.
    split; [lia | exact Hm].
  - intros (i & Hi & Hm). exists i. split; [apply in_seq; lia|].
    apply chunk_in. exact Hm.
Qed.

(** ** The sort of the language markers *)

Lemma sort_by_index_sorted (l : list MetaLine) :
  StronglySorted lt (List.map meta_index l) -> sort_by_index l = l.
Proof.
  induction l as [|a l IH]; [reflexivity|]. cbn [List.map]. intros H.
  apply StronglySorted_inv in H. destruct H as (Hs & Ha).
  unfold sort_by_index. cbn [fold_right]. fold (sort_by_index l).
  rewrite (IH Hs). destruct l as [|x r]; [reflexivity|].
  cbn [insert_by_index]. cbn [List.map] in Ha. apply Forall_inv in Ha.
  assert (E : (meta_index a <=? meta_index x)%nat = true)
    by (apply Nat.leb_le; lia).
  rewrite E. reflexivity.
Qed.

Lemma sorted_filter (p : MetaLine -> bool) (l : list MetaLine) :
  StronglySorted lt (List.map meta_index l) ->
  StronglySorted lt (List.map meta_index (filter p l)).
Proof.
  induction l as [|a l IH]; [intros; constructor|]. cbn [List.map filter].
  intros H. apply StronglySorted_inv in H. destruct H as (Hs & Ha).
  destruct (p a); [|auto]. cbn [List.map]. constructor; [auto|].
  apply Forall_map. apply Forall_forall. intros x Hx.
  apply filter_In in Hx. destruct Hx as (Hx & _).
  rewrite Forall_map, Forall_forall in Ha. auto.
Qed.

Lemma sorted_app (a b : list nat) :
  StronglySorted lt (a ++ b)%list ->
  StronglySorted lt a /\ StronglySorted lt b
  /\ forall x y, In x a -> In y b -> x < y.
Proof.
  induction a as [|x a IH]; cbn [app]; intros H.
  - split; [constructor|]. split; [exact H|]. intros x y [].
  - apply StronglySorted_inv in H. destruct H as (Hs & Hx).
    destruct (IH Hs) as (Ha & Hb & Hab).
    apply Forall_app in Hx. destruct Hx as (Hxa & Hxb).
    split; [constructor; assumption|]. split; [exact Hb|].
    intros u v [<-|Hu] Hv.
    + rewrite Forall_forall in Hxb. auto.
    + auto.
Qed.

Lemma sorted_middle (st : StateBlock) (s e : nat) (b : MetaLine)
    (mid : list MetaLine) (x : MetaLine) :
  collectMetaLines st s e = (b :: mid ++ [x])%list ->
  StronglySorted lt (List.map meta_index mid)
  /\ Forall (fun m => meta_index m < meta_index x) (b :: mid).
Proof.
  intros Hc. destruct (collected_sorted st s e) as (Hs & _).
  rewrite Hc in Hs.
  change (b :: mid ++ [x])%list with ((b :: mid) ++ [x])%list in Hs.
  rewrite map_app in Hs. apply sorted_app in Hs.
  destruct Hs as (Hbm & _ & Hlt). split.
  - cbn [List.map] in Hbm. apply StronglySorted_inv in Hbm. tauto.
  - apply Forall_forall. intros m Hm. apply Hlt.
    + now apply in_map.
    + cbn. now left.
Qed.

Lemma sort_collected (st : StateBlock) (startLine endLine : nat)
    (b : MetaLine) (mid : list MetaLine) (x : MetaLine) :
  collectMetaLines st startLine endLine = (b :: mid ++ [x])%list ->
  sort_by_index (filter is_lang mid) = filter is_lang mid.
Proof.
  intros Hc. apply sort_by_index_sorted, sorted_filter.
  exact (proj1 (sorted_middle st startLine endLine b mid x Hc)).
Qed.

(** X8. The sort of the language markers never reorders: on the meta-lines
    the scan collects, sorting the language markers between the first and the
    last one by index gives them back as the filter left them. *)
Theorem sort_by_index_collected (st : StateBlock) (startLine endLine : nat)
    (b : MetaLine) (mid : list MetaLine) (x : MetaLine) :
  collectMetaLines st startLine endLine = (b :: mid ++ [x])%list ->
  sort_by_index (filter is_lang mid) = filter is_lang mid.
Proof. apply sort_collected. Qed.

Lemma sort_by_index_collected_witness :
  sort_by_index (filter is_lang [Lang 2 "js"; Lang 8 "css"])
  = filter is_lang [Lang 2 "js"; Lang 8 "css"].
Proof.
  apply (sort_by_index_collected sample_state 0 13
           (Begin 0 "false" "null" "null" "true" "null")
           [Lang 2 "js"; Lang 8 "css"] (End_ 12)).
  vm_compute. reflexivity.
Defined.

(** ** Further properties of the block rule *)

Lemma parseSnippetBlock_trial (st : StateBlock) (startLine endLine : nat) :
  parseSnippetBlock st startLine endLine true
  = Ret (guards_pass st startLine
         && valid (validateMetaLines (collectMetaLines st startLine endLine)), st).
Proof.
  destruct (guards_pass st startLine) eqn:Hg.
  - destruct (guards_pass_true st startLine Hg) as (Hg1 & Hg2 & Hg3).
    unfold parseSnippetBlock. rewrite Hg1, Hg2, Hg3. reflexivity.
  - now rewrite parseSnippetBlock_guards_fail.
Qed.

(** X12. Recognition: a committing call returns true exactly when the guards
    pass, the collected meta-lines validate, the first of them is a Begin and
    the last an End; the state it leaves then holds the open token, one token
    for each language marker in between, in the order of the lines, and the
    close token, with the cursor after the last meta-line. *)
Theorem parseSnippetBlock_recognizes_iff
    (st : StateBlock) (startLine endLine : nat) (st' : StateBlock) :
  parseSnippetBlock st startLine endLine false = Ret (true, st')
  <-> guards_pass st startLine = true
      /\ valid (validateMetaLines (collectMetaLines st startLine endLine)) = true
      /\ exists i b br bt c h mid endIndex,
           collectMetaLines st startLine endLine
           = (Begin i b br bt c h :: mid ++ [End_ endIndex])%list
           /\ st' = committed st endIndex h c b br bt (filter is_lang mid).
Proof.
  split.
  - intros H. apply parseSnippetBlock_true_inv in H.
    destruct H as (Hg & i & b & br & bt & c & h & mid & endIndex & Hc & Hv & ->).
    split; [exact Hg|]. split; [exact Hv|].
    exists i, b, br, bt, c, h, mid, endIndex. split; [exact Hc|].
    now rewrite (sort_collected st startLine endLine _ _ _ Hc).
  - intros (Hg & Hv & i & b & br & bt & c & h & mid & endIndex & Hc & ->).
    rewrite Hc in Hv.
    rewrite (parseSnippetBlock_commit st startLine endLine i b br bt c h mid
               endIndex Hg Hc Hv).
    now rewrite (sort_collected st startLine endLine _ _ _ Hc).
Qed.

(** X13. What a committing call recognizes, a trial call on the same state
    and span recognizes too, leaving the state as it was. *)
Theorem parseSnippetBlock_commit_implies_trial
    (st : StateBlock) (startLine endLine : nat) (st' : StateBlock) :
  parseSnippetBlock st startLine endLine false = Ret (true, st') ->
  parseSnippetBlock st startLine endLine true = Ret (true, st).
Proof.
  intros H. apply parseSnippetBlock_true_inv in H.
  destruct H as (Hg & _ & _ & _ & _ & _ & _ & _ & _ & _ & Hv & _).
  now rewrite parseSnippetBlock_trial, Hg, Hv.
Qed.

Lemma parseSnippetBlock_commit_implies_trial_witness :
  parseSnippetBlock sample_state 0 13 true = Ret (true, sample_state).
Proof.
  apply (parseSnippetBlock_commit_implies_trial sample_state 0 13 sample_committed).
  vm_compute. reflexivity.
Defined.

(** X14. Progress: a recognized region moves the cursor forward, to a line
    after [startLine], after every collected meta-line of the span and not
    after [endLine]; the source, the line marks and the block indent are
    left alone. *)
Theorem parseSnippetBlock_advances
    (st : StateBlock) (startLine endLine : nat) (st' : StateBlock) :
  parseSnippetBlock st startLine endLine false = Ret (true, st') ->
  startLine < state_line st' <= endLine
  /\ Forall (fun m => meta_index m < state_line st')
            (collectMetaLines st startLine endLine)
  /\ src st' = src st /\ marks st' = marks st /\ blkIndent st' = blkIndent st.
Proof.
  intros H. apply parseSnippetBlock_true_inv in H.
  destruct H as (_ & i & b & br & bt & c & h & mid & endIndex & Hc & _ & ->).
  cbn [committed state_line src marks blkIndent].
  destruct (collected_sorted st startLine endLine) as (_ & Hr).
  destruct (sorted_middle st startLine endLine _ _ _ Hc) as (_ & Hlt).
  rewrite Hc in *.
  assert (He : startLine <= endIndex < endLine).
  { rewrite Forall_forall in Hr.
    apply (Hr (End_ endIndex)). cbn. right. apply in_or_app. right. now left. }
  split; [lia|]. split; [|auto].
  change (Begin i b br bt c h :: mid ++ [End_ endIndex])%list
    with ((Begin i b br bt c h :: mid) ++ [End_ endIndex])%list.
  apply Forall_app. split.
  - eapply Forall_impl; [|exact Hlt]. cbn. intros m Hm. lia.
  - constructor; [cbn; lia | constructor].
Qed.

Lemma parseSnippetBlock_advances_witness :
  0 < state_line sample_committed <= 13
  /\ Forall (fun m => meta_index m < state_line sample_committed)
            (collectMetaLines sample_state 0 13)
  /\ src sample_committed = src sample_state
  /\ marks sample_committed = marks sample_state
  /\ blkIndent sample_committed = blkIndent sample_state.
Proof.
  apply (parseSnippetBlock_advances sample_state 0 13 sample_committed).
  vm_compute. reflexivity.
Defined.

Lemma in_lang_tokens (st : StateBlock) (e : nat) (ls : list MetaLine) (lvl : Z)
    (tok : Token) :
  In tok (lang_tokens st e ls lvl) ->
  type tok = "stack_snippet_lang" /\ nesting tok = 1%Z
  /\ exists l, In l ls /\ attrGet tok "language" = Some (meta_language l).
Proof.
  revert lvl. induction ls as [|l rest IH]; intros lvl; cbn [lang_tokens In];
    [intros []|].
  intros [<-|Hin].
  - split; [reflexivity|]. split; [reflexivity|]. exists l. split; [now left|].
    reflexivity.
  - destruct (IH _ Hin) as (H1 & H2 & l' & Hl' & Hg).
    split; [exact H1|]. split; [exact H2|]. exists l'. split; [now right | exact Hg].
Qed.

(** X15. The attributes of the emitted tokens fit the schema of the nodes: the
    five attributes of the open token are tri-state values, and the language
    of every language token passes the [validate] of the attribute
    [language]. *)
Theorem parseSnippetBlock_attrs_fit_schema
    (st : StateBlock) (startLine endLine : nat) (st' : StateBlock) :
  parseSnippetBlock st startLine endLine false = Ret (true, st') ->
  exists new,
    tokens st' = (tokens st ++ new)%list /\ Forall schema_attrs_ok new.
Proof.
  intros H. apply parseSnippetBlock_true_inv in H.
  destruct H as (_ & i & b & br & bt & c & h & mid & endIndex & Hc & _ & ->).
  cbn [committed tokens]. eexists. split; [reflexivity|].
  constructor; [|apply Forall_app; split].
  - split; [|cbn; discriminate]. intros _.
    destruct (collected_begin st startLine endLine i b br bt c h)
      as (Hh & Hcn & Hb & Hbr & Hbt).
    { rewrite Hc. now left. }
    exists h, c, b, br, bt. repeat split; assumption.
  - apply Forall_forall. intros tok Hin.
    destruct (in_lang_tokens _ _ _ _ _ Hin) as (Hty & _ & l & Hl & Hg).
    split; [rewrite Hty; discriminate|]. intros _.
    exists (meta_language l). split; [exact Hg|].
    apply language_validate_iff.
    apply (Permutation_in _ (sort_by_index_perm _)) in Hl.
    apply filter_In in Hl. destruct Hl as (Hl & Hlang).
    destruct l as [| |j lang]; try discriminate. cbn [meta_language].
    apply (collected_lang st startLine endLine j lang).
    rewrite Hc. right. apply in_or_app. now left.
  - constructor; [|constructor]. split; cbn; discriminate.
Qed.

Lemma parseSnippetBlock_attrs_fit_schema_witness :
  exists new,
    tokens sample_committed = (tokens sample_state ++ new)%list
    /\ Forall schema_attrs_ok new.
Proof.
  apply (parseSnippetBlock_attrs_fit_schema sample_state 0 13 sample_committed).
  vm_compute. reflexivity.
Defined.

Lemma sum_nesting_app (a b : list Token) :
  sum_nesting (a ++ b)%list = (sum_nesting a + sum_nesting b)%Z.
Proof.
  induction a as [|t a IH]; [reflexivity|]. cbn [app].
  unfold sum_nesting in *. cbn [fold_right]. rewrite IH. lia.
Qed.

Lemma sum_nesting_lang_tokens (st : StateBlock) (e : nat) (ls : list MetaLine)
    (lvl : Z) :
  sum_nesting (lang_tokens st e ls lvl) = Z.of_nat (List.length ls).
Proof.
  revert lvl. induction ls as [|l rest IH]; intros lvl; [reflexivity|].
  cbn [lang_tokens]. unfold sum_nesting in *. cbn [fold_right List.length].
  rewrite IH. cbn [lang_token nesting]. lia.
Qed.

(** X16. Nesting: the open token and every language token are pushed with
    nesting 1, the close token with nesting -1, and no language token is
    closed: the nesting of the emitted tokens sums to the number of language
    tokens, and the level of the block state rises by that number. *)
Theorem parseSnippetBlock_level
    (st : StateBlock) (startLine endLine : nat) (st' : StateBlock) :
  parseSnippetBlock st startLine endLine false = Ret (true, st') ->
  exists openToken langTokens closeToken,
    tokens st' = (tokens st ++ openToken :: langTokens ++ [closeToken])%list
    /\ Forall (fun t => type t = "stack_snippet_lang" /\ nesting t = 1%Z)
              langTokens
    /\ nesting openToken = 1%Z /\ nesting closeToken = (-1)%Z
    /\ sum_nesting (openToken :: langTokens ++ [closeToken])
       = Z.of_nat (List.length langTokens)
    /\ state_level st'
       = (state_level st + Z.of_nat (List.length langTokens))%Z.
Proof.
  intros H. apply parseSnippetBlock_true_inv in H.
  destruct H as (_ & i & b & br & bt & c & h & mid & endIndex & Hc & _ & ->).
  cbn [committed tokens state_level].
  eexists _, _, _. split; [reflexivity|]. split.
  { apply Forall_forall. intros tok Hin.
    destruct (in_lang_tokens _ _ _ _ _ Hin) as (H1 & H2 & _). now split. }
  split; [reflexivity|]. split; [reflexivity|].
  rewrite lang_tokens_length. split; [|reflexivity].
  change (sum_nesting (?a :: ?l)) with (nesting a + sum_nesting l)%Z.
  rewrite sum_nesting_app, sum_nesting_lang_tokens.
  unfold sum_nesting. cbn [fold_right open_token close_token nesting]. lia.
Qed.

Lemma parseSnippetBlock_level_witness :
  exists openToken langTokens closeToken,
    tokens sample_committed
    = (tokens sample_state ++ openToken :: langTokens ++ [closeToken])%list
    /\ Forall (fun t => type t = "stack_snippet_lang" /\ nesting t = 1%Z)
              langTokens
    /\ nesting openToken = 1%Z /\ nesting closeToken = (-1)%Z
    /\ sum_nesting (openToken :: langTokens ++ [closeToken])
       = Z.of_nat (List.length langTokens)
    /\ state_level sample_committed
       = (state_level sample_state + Z.of_nat (List.length langTokens))%Z.
Proof.
  apply (parseSnippetBlock_level sample_state 0 13 sample_committed).
  vm_compute. reflexivity.
Defined.

(** X9. The third test after validation never fires: what the filter on the
    type leaves, sorted, holds language markers only, so no list of
    meta-lines makes the rule give up there. *)
Theorem rest_not_lang_never (metaLines : list MetaLine) :
  forallb is_lang (sort_by_index (filter is_lang metaLines)) = true
  /\ ~ rest_not_lang metaLines.
Proof.
  split; [apply langSort_all_lang|].
  intros (m & rest & mid & e & _ & _ & H).
  rewrite langSort_all_lang in H. discriminate.
Qed.

(** ** Serialized nodes *)

Lemma printable_snippet_lines (node : SnippetNode) :
  printable_node node -> well_formed_doc (snippet_lines node).
Proof.
  intros ((h & c & b & br & bt & E1 & E2 & E3 & E4 & E5 & Hh & Hc & Hb & Hbr & Hbt)
          & Hns).
  split.
  - unfold snippet_lines. rewrite E1, E2, E3, E4, E5. cbn [value_or_null].
    destruct (begin_marker_facts h c b br bt 0 Hh Hc Hb Hbr Hbt) as (Hno & _).
    apply Forall_app. split; [repeat constructor; assumption|].
    apply Forall_app. split; [|repeat constructor].
    apply Forall_flat_map. eapply Forall_impl; [|exact Hns].
    intros n (l & Hl & Hs). unfold lang_lines. rewrite Hl. cbn [value_or_null].
    destruct (lang_marker_facts l 0 Hs) as (Hnl & _).
    apply Forall_app. split; [repeat constructor; assumption|].
    apply Forall_app. split; [|repeat constructor].
    apply Forall_map. eapply Forall_impl; [|apply split_lines_no_lf].
    intros t. apply no_lf_indent4.
  - unfold snippet_lines.
    eexists (_ ++ _)%list, end_marker. split; [now rewrite <- app_assoc | reflexivity].
Qed.

Lemma serialized_state (node : SnippetNode) (h c b br bt : string) :
  hide node = Some h -> console node = Some c -> babel node = Some b ->
  babelPresetReact node = Some br -> babelPresetTS node = Some bt ->
  tri_state h -> tri_state c -> tri_state b -> tri_state br -> tri_state bt ->
  Forall (fun n => exists l, language n = Some l /\ snippet_language l)
         (children node) ->
  let st := mkState (serialize node) in
  guards_pass st 0 = true
  /\ lineMax st = List.length (snippet_lines node)
  /\ collectMetaLines st 0 (lineMax st)
     = (Begin 0 b br bt c h
          :: langs_meta 2 (children node)
          ++ [End_ (2 + List.length (flat_map lang_lines (children node)))])%list.
Proof.
  intros E1 E2 E3 E4 E5 Hh Hc Hb Hbr Hbt Hns. cbv zeta.
  assert (Hp : printable_node node).
  { split; [|exact Hns]. exists h, c, b, br, bt. repeat split; assumption. }
  assert (Hdocwf := printable_snippet_lines node Hp).
  rewrite serialize_lines. rewrite (lineMax_mkState _ Hdocwf).
  assert (Hdoc := mkState_doc_lines _ Hdocwf).
  destruct (begin_marker_facts h c b br bt 0 Hh Hc Hb Hbr Hbt)
    as (_ & Hlead & Hvalid & _).
  assert (Hline0 : nth_error (snippet_lines node) 0
                   = Some (begin_marker h c b br bt)).
  { unfold snippet_lines. now rewrite E1, E2, E3, E4, E5. }
  split; [|split; [reflexivity|]].
  - apply (guards_pass_begin (mkState (join NL (snippet_lines node)))
             (begin_marker h c b br bt) _ eq_refl (Hdoc 0 _ Hline0) Hlead Hvalid).
  - rewrite (doc_lines_collect _ _ Hdoc). now apply meta_of_snippet_lines.
Qed.

(** X17. Contents cannot forge markers: for a node with tri-state attributes
    and languages among the three, the meta-lines collected over its
    serialized text are the begin marker at line 0, one language marker for
    each child at the line where its block starts, and the end marker,
    whatever the contents of the children. *)
Theorem serialize_meta_lines (node : SnippetNode) :
  printable_node node ->
  exists h c b br bt,
    hide node = Some h /\ console node = Some c /\ babel node = Some b
    /\ babelPresetReact node = Some br /\ babelPresetTS node = Some bt
    /\ collectMetaLines (mkState (serialize node)) 0
         (lineMax (mkState (serialize node)))
       = (Begin 0 b br bt c h
            :: langs_meta 2 (children node)
            ++ [End_ (2 + List.length (flat_map lang_lines (children node)))])%list.
Proof.
  intros ((h & c & b & br & bt & E1 & E2 & E3 & E4 & E5 & Hh & Hc & Hb & Hbr & Hbt)
          & Hns).
  exists h, c, b, br, bt. repeat (split; [assumption|]).
  exact (proj2 (proj2 (serialized_state node h c b br bt E1 E2 E3 E4 E5
                         Hh Hc Hb Hbr Hbt Hns))).
Qed.

Lemma serialize_meta_lines_witness :
  exists h c b br bt,
    hide marker_content_node = Some h /\ console marker_content_node = Some c
    /\ babel marker_content_node = Some b
    /\ babelPresetReact marker_content_node = Some br
    /\ babelPresetTS marker_content_node = Some bt
    /\ collectMetaLines (mkState (serialize marker_content_node)) 0
         (lineMax (mkState (serialize marker_content_node)))
       = (Begin 0 b br bt c h
            :: langs_meta 2 (children marker_content_node)
            ++ [End_ (2 + List.length
                            (flat_map lang_lines (children marker_content_node)))])%list.
Proof.
  apply (serialize_meta_lines marker_content_node).
  split.
  - exists "null", "true", "false", "null", "null".
    unfold tri_state. cbn. repeat split; auto.
  - repeat constructor. exists "html". unfold snippet_language. cbn. auto.
Defined.

(** X18. Serializing and then parsing gives the node back, for every node with
    tri-state attributes, exactly three children with pairwise different
    languages among the three, and no content that ends in a line feed,
    whatever else the contents hold. *)
Theorem serialize_then_parse (node : SnippetNode) :
  well_formed_node node ->
  List.length (children node) = 3 ->
  Forall (fun n => ends_with_lf (textContent n) = false) (children node) ->
  parseEnvelope (serialize node) = Some node.
Proof.
  intros Hwf Hlen Hlf.
  rewrite parseEnvelope_tree, (parse_serialized _ Hwf), (tree_of_three _ Hlen).
  now rewrite (trim_lang_id _ Hlf), with_children_id.
Qed.

Lemma serialize_then_parse_witness :
  parseEnvelope (serialize marker_content_full_node) = Some marker_content_full_node.
Proof.
  apply (serialize_then_parse marker_content_full_node).
  - split; [|split].
    + exists "null", "true", "false", "null", "null".
      unfold tri_state. cbn. repeat split; auto.
    + repeat constructor; eexists; (split; [reflexivity|]);
        unfold snippet_language; auto.
    + cbn. repeat constructor; cbn; intuition discriminate.
  - reflexivity.
  - repeat constructor.
Defined.

(** X19. The serializer loses nothing: two nodes with tri-state attributes
    and pairwise different languages among the three that serialize to the
    same text are the same node. *)
Theorem serialize_injective (n1 n2 : SnippetNode) :
  well_formed_node n1 -> well_formed_node n2 ->
  serialize n1 = serialize n2 -> n1 = n2.
Proof.
  intros H1 H2 E.
  pose proof (parse_serialized n1 H1) as P1.
  pose proof (parse_serialized n2 H2) as P2.
  rewrite E, P2 in P1. now injection P1.
Qed.

Lemma serialize_injective_witness : sample_node = sample_node.
Proof.
  assert (H : well_formed_node sample_node).
  { split; [|split].
    - exists "null", "true", "false", "null", "null".
      unfold tri_state. cbn. repeat split; auto.
    - repeat constructor; eexists; (split; [reflexivity|]);
        unfold snippet_language; auto.
    - cbn. repeat constructor; cbn; intuition discriminate. }
  apply (serialize_injective sample_node sample_node H H). reflexivity.
Defined.

(** ** Repeated languages *)

Lemma validate_duplicate
    (pre : list MetaLine) (m : MetaLine) (rest : list MetaLine)
    (c : category) (m0 : MetaLine) :
  NoDup (categories pre) ->
  has_begin pre && has_end pre = false ->
  category_of m = Some c ->
  In m0 pre -> category_of m0 = Some c -> meta_index m0 <> 0 ->
  validateMetaLines (pre ++ m :: rest) = duplicate (duplicate_reason c).
Proof.
  intros Hnd Hboth Hc Hin Hc0 Hidx.
  destruct (scan_exhausts pre initialResult) as [v Hv]; auto.
  { intros c' _. apply initial_fresh. }
  unfold validateMetaLines. rewrite validate_loop_app, Hv. simpl.
  rewrite validate_switch_spec, Hc.
  apply exhausted_inv in Hv as (_ & _ & Hrec & _).
  rewrite Hrec, (last_index_of_unique c pre m0 Hnd Hin Hc0).
  destruct (meta_index m0); [congruence | reflexivity].
Qed.

Lemma language_eq_dec (a b : option string) : {a = b} + {a <> b}.
Proof. decide equality. apply string_dec. Qed.

Lemma first_repeat (ns : list LangNode) :
  NoDup (List.map language ns)
  \/ exists na n nb,
       ns = (na ++ n :: nb)%list /\ NoDup (List.map language na)
       /\ In (language n) (List.map language na).
Proof.
  induction ns as [|n ns IH] using rev_ind; [left; constructor|].
  destruct IH as [Hnd|(na & n' & nb & -> & Hnd & Hin)].
  - destruct (in_dec language_eq_dec (language n) (List.map language ns))
      as [Hin|Hnin].
    + right. exists ns, n, []. auto.
    + left. rewrite map_app. cbn [List.map].
      apply NoDup_app; [exact Hnd | repeat constructor; intros [] |].
      intros x Hx [<-|[]]. contradiction.
  - right. exists na, n', (nb ++ [n])%list. rewrite <- app_assoc. auto.
Qed.

Lemma langs_meta_app (k : nat) (a b : list LangNode) :
  langs_meta k (a ++ b)%list
  = (langs_meta k a
     ++ langs_meta (k + List.length (flat_map lang_lines a)) b)%list.
Proof.
  revert k. induction a as [|n a IH]; intros k; cbn [app langs_meta flat_map].
  - cbn. now rewrite Nat.add_0_r.
  - rewrite IH, length_app. cbn [app]. do 3 f_equal. lia.
Qed.

Lemma in_langs_meta (k : nat) (ns : list LangNode) (n : LangNode) :
  In n ns ->
  exists k', k <= k' /\ In (Lang k' (value_or_null (language n))) (langs_meta k ns).
Proof.
  revert k. induction ns as [|x ns IH]; intros k; [intros []|].
  cbn [langs_meta]. intros [-> | Hin].
  - exists k. split; [lia | now left].
  - destruct (IH (k + List.length (lang_lines x)) Hin) as (k' & Hk & Hk').
    exists k'. split; [lia | now right].
Qed.

Lemma category_of_language (i : nat) (l : string) :
  snippet_language l -> exists c, category_of (Lang i l) = Some c.
Proof. intros [-> | [-> | ->]]; eexists; reflexivity. Qed.

Lemma repeated_language_invalid (b br bt c h : string) (ns : list LangNode)
    (e : nat) :
  Forall (fun n => exists l, language n = Some l /\ snippet_language l) ns ->
  ~ NoDup (List.map language ns) ->
  valid (validateMetaLines
           (Begin 0 b br bt c h :: langs_meta 2 ns ++ [End_ e])%list) = false.
Proof.
  intros Hns Hdup.
  destruct (first_repeat ns) as [Hnd|(na & n & nb & -> & Hnd & Hin)];
    [contradiction|].
  apply Forall_app in Hns. destruct Hns as (Hna & Hnb).
  apply Forall_inv in Hnb. destruct Hnb as (l & Hl & Hs).
  apply in_map_iff in Hin. destruct Hin as (n0 & Hn0 & Hin0).
  destruct (in_langs_meta 2 na n0 Hin0) as (k0 & Hk0 & Hm0).
  rewrite Hn0, Hl in Hm0. cbn [value_or_null] in Hm0.
  destruct (category_of_language 0 l Hs) as (cat & Hcat).
  rewrite langs_meta_app. cbn [langs_meta]. rewrite Hl. cbn [value_or_null].
  rewrite <- app_assoc. cbn [app]. rewrite app_comm_cons.
  rewrite (validate_duplicate (Begin 0 b br bt c h :: langs_meta 2 na) _ _ cat
             (Lang k0 l)).
  - reflexivity.
  - rewrite categories_cons. cbn [category_of]. constructor.
    + intros Hin. apply existsb_in_category in Hin.
      rewrite not_in_category_langs_meta in Hin by auto. discriminate.
    + now apply nodup_categories_langs_meta.
  - unfold has_end. cbn [existsb].
    rewrite not_in_category_langs_meta by auto. apply andb_false_r.
  - exact Hcat.
  - now right.
  - exact Hcat.
  - cbn [meta_index]. lia.
Qed.

Lemma parseSnippetBlock_invalid (st : StateBlock) (startLine endLine : nat)
    (silent : bool) :
  guards_pass st startLine = true ->
  valid (validateMetaLines (collectMetaLines st startLine endLine)) = false ->
  parseSnippetBlock st startLine endLine silent = Ret (false, st).
Proof.
  intros Hg Hv. destruct (guards_pass_true _ _ Hg) as (Hg1 & Hg2 & Hg3).
  unfold parseSnippetBlock. rewrite Hg1, Hg2, Hg3, Hv. cbn.
  now rewrite orb_true_r.
Qed.

(** X20. A node with tri-state attributes and languages among the three, one
    of them twice, is serialized to a text that the rule does not recognize:
    the meta-lines of the text do not validate, the committing call over the
    text returns false and leaves the state alone, and no node is parsed
    back. *)
Theorem serialize_repeated_language (node : SnippetNode) :
  printable_node node ->
  ~ NoDup (List.map language (children node)) ->
  let st := mkState (serialize node) in
  valid (validateMetaLines (collectMetaLines st 0 (lineMax st))) = false
  /\ parseSnippetBlock st 0 (lineMax st) false = Ret (false, st)
  /\ parseEnvelope (serialize node) = None.
Proof.
  intros ((h & c & b & br & bt & E1 & E2 & E3 & E4 & E5 & Hh & Hc & Hb & Hbr & Hbt)
          & Hns) Hdup. cbv zeta.
  destruct (serialized_state node h c b br bt E1 E2 E3 E4 E5 Hh Hc Hb Hbr Hbt Hns)
    as (Hg & _ & Hcollect).
  assert (Hv : valid (validateMetaLines
                        (collectMetaLines (mkState (serialize node)) 0
                           (lineMax (mkState (serialize node))))) = false).
  { rewrite Hcollect. now apply repeated_language_invalid. }
  assert (Hp := parseSnippetBlock_invalid _ 0 _ false Hg Hv).
  split; [exact Hv|]. split; [exact Hp|].
  unfold parseEnvelope. now rewrite Hp.
Qed.

Lemma serialize_repeated_language_witness :
  let st := mkState (serialize repeated_js_node) in
  valid (validateMetaLines (collectMetaLines st 0 (lineMax st))) = false
  /\ parseSnippetBlock st 0 (lineMax st) false = Ret (false, st)
  /\ parseEnvelope (serialize repeated_js_node) = None.
Proof.
  apply (serialize_repeated_language repeated_js_node).
  - split.
    + exists "null", "true", "false", "null", "null".
      unfold tri_state. cbn. repeat split; auto.
    + repeat constructor; exists "js"; unfold snippet_language; cbn; auto.
  - cbn. intros H. inversion H as [|x l Hnin _]. apply Hnin. now left.
Defined.

(** ** The pre-check of the scan *)

Lemma take_drop (n : nat) (s : string) : take n s ++ drop n s = s.
Proof.
  revert s. induction n as [|n IH]; intros s; [reflexivity|].
  destruct s as [|c r]; [reflexivity|]. cbn. now rewrite IH.
Qed.

Lemma marker_kind_complete (kind r : string) :
  In kind ["begin snippet:"; "end snippet "; "language:"] ->
  first_alt ["begin snippet:"; "end snippet "; "language:"] (kind ++ r)
  = Some (kind, r).
Proof. intros [<- | [<- | [<- | []]]]; reflexivity. Qed.

(** X3. The pre-check of the scan: a line passes [validSnippetRegex] exactly
    when it is the opening [<!-- ], one of the three marker words, any text
    without line terminator, and [-->] at the very end of the line. *)
Theorem validSnippetRegex_iff (l : string) :
  validSnippetRegex l = true
  <-> exists kind rest,
        In kind ["begin snippet:"; "end snippet "; "language:"]
        /\ no_line_terminator rest = true
        /\ l = "<!-- " ++ kind ++ rest ++ "-->".
Proof.
  unfold validSnippetRegex. split.
  - destruct (strip_prefix "<!-- " l) as [r|] eqn:E; [|discriminate].
    apply strip_prefix_spec in E.
    destruct (first_alt _ r) as [[kind r']|] eqn:EA; [|discriminate].
    apply first_alt_sound in EA. destruct EA as (Hk & ->).
    unfold dots_then_arrow_at_end. intros H.
    apply andb_prop in H. destruct H as (H & Hno).
    apply andb_prop in H. destruct H as (_ & Hd).
    apply String.eqb_eq in Hd.
    exists kind, (take (length r' - 3) r'). split; [exact Hk|].
    split; [exact Hno|]. rewrite <- Hd, take_drop. exact E.
  - intros (kind & rest & Hk & Hno & ->).
    rewrite strip_prefix_append, (marker_kind_complete _ _ Hk).
    unfold dots_then_arrow_at_end.
    rewrite length_append. cbn [length]. rewrite Nat.add_sub.
    rewrite drop_append, take_append, Hno, String.eqb_refl.
    rewrite andb_true_r, andb_true_r. apply Nat.leb_le. lia.
Qed.

(** ** Installing the escape-preserving rule *)

Lemma ruler_at_none (ruler : list EscapeRuler.Rule) (name : string)
    (f : Escape.RuleFn) :
  EscapeRuler.ruler_at ruler name f = None
  <-> forall r, In r ruler -> EscapeRuler.rule_name r <> name.
Proof.
  induction ruler as [|r ruler IH]; cbn [EscapeRuler.ruler_at].
  - split; [intros _ r [] | reflexivity].
  - destruct (EscapeRuler.rule_name r =? name) eqn:E.
    + apply String.eqb_eq in E. split; [discriminate|].
      intros H. exfalso. apply (H r); [now left | exact E].
    + apply String.eqb_neq in E.
      destruct (EscapeRuler.ruler_at ruler name f) as [rest'|].
      * split; [discriminate|]. intros H.
        assert (X : Some rest' = None)
          by (apply IH; intros x Hx; apply H; now right).
        discriminate.
      * split; [|reflexivity]. intros _ x [<-|Hx]; [exact E|].
        now apply (proj1 IH).
Qed.

Lemma ruler_at_app (pre : list EscapeRuler.Rule) (r : EscapeRuler.Rule)
    (post : list EscapeRuler.Rule) (name : string) (f : Escape.RuleFn) :
  (forall x, In x pre -> EscapeRuler.rule_name x <> name) ->
  EscapeRuler.rule_name r = name ->
  EscapeRuler.ruler_at (pre ++ r :: post)%list name f
  = Some (pre ++ {| EscapeRuler.rule_name := name;
                    EscapeRuler.enabled := EscapeRuler.enabled r;
                    EscapeRuler.fn := f |} :: post)%list.
Proof.
  intros Hpre Hr. induction pre as [|x pre IH]; cbn [app EscapeRuler.ruler_at].
  - rewrite Hr, String.eqb_refl. reflexivity.
  - assert (E : (EscapeRuler.rule_name x =? name) = false)
      by (apply String.eqb_neq, Hpre; now left).
    rewrite E, IH; [reflexivity|]. intros y Hy. apply Hpre. now right.
Qed.

Lemma rule_fn_app (pre : list EscapeRuler.Rule) (r : EscapeRuler.Rule)
    (post : list EscapeRuler.Rule) (name : string) :
  (forall x, In x pre -> EscapeRuler.rule_name x <> name) ->
  EscapeRuler.rule_name r = name ->
  EscapeRuler.rule_fn (pre ++ r :: post)%list name = Some (EscapeRuler.fn r).
Proof.
  intros Hpre Hr. induction pre as [|x pre IH]; cbn [app EscapeRuler.rule_fn].
  - rewrite Hr, String.eqb_refl. reflexivity.
  - assert (E : (EscapeRuler.rule_name x =? name) = false)
      by (apply String.eqb_neq, Hpre; now left).
    rewrite E. apply IH. intros y Hy. apply Hpre. now right.
Qed.

Lemma no_escape_fn (l : list EscapeRuler.Rule) :
  (forall x, In x l -> EscapeRuler.enabled x = true ->
             Escape.name (EscapeRuler.fn x) <> "escape") ->
  filter (fun r => Escape.name r =? "escape") (EscapeRuler.getRules l) = [].
Proof.
  unfold EscapeRuler.getRules. induction l as [|x l IH]; intros H; [reflexivity|].
  cbn [filter]. destruct (EscapeRuler.enabled x) eqn:E.
  - cbn [List.map filter].
    assert (En : (Escape.name (EscapeRuler.fn x) =? "escape") = false)
      by (apply String.eqb_neq, H; [now left | exact E]).
    rewrite En. apply IH. intros y Hy. apply H. now right.
  - apply IH. intros y Hy. apply H. now right.
Qed.

Lemma getRules_app (a b : list EscapeRuler.Rule) :
  EscapeRuler.getRules (a ++ b)%list
  = (EscapeRuler.getRules a ++ EscapeRuler.getRules b)%list.
Proof. unfold EscapeRuler.getRules. now rewrite filter_app, map_app. Qed.

Lemma build_first (pre : list EscapeRuler.Rule) (r : EscapeRuler.Rule)
    (post : list EscapeRuler.Rule) :
  (forall x, In x pre -> EscapeRuler.enabled x = true ->
             Escape.name (EscapeRuler.fn x) <> "escape") ->
  EscapeRuler.enabled r = true -> Escape.name (EscapeRuler.fn r) = "escape" ->
  EscapeRuler.buildPreserveEscapeFn (pre ++ r :: post)%list
  = EscapeRuler.preserveEscapeFn (EscapeRuler.fn r).
Proof.
  intros Hpre He Hn. unfold EscapeRuler.buildPreserveEscapeFn.
  rewrite getRules_app, filter_app, (no_escape_fn pre Hpre).
  unfold EscapeRuler.getRules. cbn [filter]. rewrite He.
  cbn [List.map filter app]. rewrite Hn. reflexivity.
Qed.

Lemma build_none (l : list EscapeRuler.Rule) :
  (forall x, In x l -> EscapeRuler.enabled x = true ->
             Escape.name (EscapeRuler.fn x) <> "escape") ->
  EscapeRuler.buildPreserveEscapeFn l = EscapeRuler.noop.
Proof.
  intros H. unfold EscapeRuler.buildPreserveEscapeFn.
  now rewrite (no_escape_fn l H).
Qed.

(** The function [preserve_escape] builds behaves as the one
    [Escape.buildPreserveEscapeFn] builds from the enabled rules. *)
Lemma buildPreserveEscapeFn_call (ruler : list EscapeRuler.Rule) :
  Escape.call (EscapeRuler.buildPreserveEscapeFn ruler)
  = Escape.buildPreserveEscapeFn (EscapeRuler.md_of ruler).
Proof.
  unfold EscapeRuler.buildPreserveEscapeFn, Escape.buildPreserveEscapeFn,
    EscapeRuler.md_of, Escape.getRules. cbn [Escape.inline_rules].
  destruct (filter _ _); reflexivity.
Qed.

(** X22. [preserve_escape] throws exactly when no rule is registered under
    the name [escape]: the fallback of [buildPreserveEscapeFn] covers an
    escape rule that is disabled, not one that is missing. *)
Theorem preserve_escape_throws_iff (ruler : list EscapeRuler.Rule) :
  EscapeRuler.preserve_escape ruler = Throw
  <-> forall r, In r ruler -> EscapeRuler.rule_name r <> "escape".
Proof.
  unfold EscapeRuler.preserve_escape. cbv zeta.
  rewrite <- (ruler_at_none ruler "escape" (EscapeRuler.buildPreserveEscapeFn ruler)).
  destruct (EscapeRuler.ruler_at _ _ _); split; (discriminate || reflexivity).
Qed.

(** X23. A disabled escape rule: when the rule registered as [escape] is
    disabled and no enabled rule has a function called [escape],
    [preserve_escape] puts the rule that never matches in its place, and the
    rule stays disabled. *)
Theorem preserve_escape_disabled (pre : list EscapeRuler.Rule)
    (esc : EscapeRuler.Rule) (post : list EscapeRuler.Rule) :
  (forall x, In x pre -> EscapeRuler.rule_name x <> "escape") ->
  (forall x, In x (pre ++ post)%list -> EscapeRuler.enabled x = true ->
             Escape.name (EscapeRuler.fn x) <> "escape") ->
  EscapeRuler.rule_name esc = "escape" ->
  EscapeRuler.enabled esc = false ->
  EscapeRuler.preserve_escape (pre ++ esc :: post)%list
  = Ret (pre ++ {| EscapeRuler.rule_name := "escape";
                   EscapeRuler.enabled := false;
                   EscapeRuler.fn := EscapeRuler.noop |} :: post)%list.
Proof.
  intros Hn Hf Hr He. unfold EscapeRuler.preserve_escape. cbv zeta.
  rewrite build_none.
  - rewrite (ruler_at_app pre esc post "escape" _ Hn Hr), He. reflexivity.
  - intros x Hx Hex. apply in_app_or in Hx. destruct Hx as [Hx|[<-|Hx]].
    + apply Hf; [apply in_or_app; now left | exact Hex].
    + rewrite He in Hex. discriminate.
    + apply Hf; [apply in_or_app; now right | exact Hex].
Qed.

Lemma preserve_escape_disabled_witness :
  EscapeRuler.preserve_escape ([sample_text_rule] ++ sample_disabled_rule :: [])%list
  = Ret ([sample_text_rule]
           ++ {| EscapeRuler.rule_name := "escape"; EscapeRuler.enabled := false;
                 EscapeRuler.fn := EscapeRuler.noop |} :: [])%list.
Proof.
  apply (preserve_escape_disabled [sample_text_rule] sample_disabled_rule []).
  - intros x [<-|[]]. cbn. discriminate.
  - intros x [<-|[]] _. cbn. discriminate.
  - reflexivity.
  - reflexivity.
Defined.

Lemma preserve_escape_wraps_aux (pre : list EscapeRuler.Rule)
    (esc : EscapeRuler.Rule) (post : list EscapeRuler.Rule) :
  (forall x, In x pre -> EscapeRuler.rule_name x <> "escape") ->
  (forall x, In x pre -> EscapeRuler.enabled x = true ->
             Escape.name (EscapeRuler.fn x) <> "escape") ->
  EscapeRuler.rule_name esc = "escape" ->
  EscapeRuler.enabled esc = true ->
  Escape.name (EscapeRuler.fn esc) = "escape" ->
  EscapeRuler.preserve_escape (pre ++ esc :: post)%list
  = Ret (pre ++ {| EscapeRuler.rule_name := "escape";
                   EscapeRuler.enabled := true;
                   EscapeRuler.fn :=
                     EscapeRuler.preserveEscapeFn (EscapeRuler.fn esc) |}
             :: post)%list.
Proof.
  intros Hn Hf Hr He Hfn. unfold EscapeRuler.preserve_escape. cbv zeta.
  rewrite (build_first pre esc post Hf He Hfn).
  rewrite (ruler_at_app pre esc post "escape" _ Hn Hr), He. reflexivity.
Qed.

(** X24. On a host whose escape rule is enabled and holds the first enabled
    function called [escape], [preserve_escape] puts the wrapper of that
    function in its place and leaves every other rule, the order and the
    enabled flags as they were. *)
Theorem preserve_escape_wraps (pre : list EscapeRuler.Rule)
    (esc : EscapeRuler.Rule) (post : list EscapeRuler.Rule) :
  (forall x, In x pre -> EscapeRuler.rule_name x <> "escape") ->
  (forall x, In x pre -> EscapeRuler.enabled x = true ->
             Escape.name (EscapeRuler.fn x) <> "escape") ->
  EscapeRuler.rule_name esc = "escape" ->
  EscapeRuler.enabled esc = true ->
  Escape.name (EscapeRuler.fn esc) = "escape" ->
  EscapeRuler.preserve_escape (pre ++ esc :: post)%list
  = Ret (pre ++ {| EscapeRuler.rule_name := "escape";
                   EscapeRuler.enabled := true;
                   EscapeRuler.fn :=
                     EscapeRuler.preserveEscapeFn (EscapeRuler.fn esc) |}
             :: post)%list.
Proof. apply preserve_escape_wraps_aux. Qed.

Lemma preserve_escape_wraps_witness :
  EscapeRuler.preserve_escape ([sample_text_rule] ++ sample_escape_rule :: [])%list
  = Ret ([sample_text_rule]
           ++ {| EscapeRuler.rule_name := "escape"; EscapeRuler.enabled := true;
                 EscapeRuler.fn :=
                   EscapeRuler.preserveEscapeFn (EscapeRuler.fn sample_escape_rule) |}
           :: [])%list.
Proof.
  apply (preserve_escape_wraps [sample_text_rule] sample_escape_rule []).
  - intros x [<-|[]]. cbn. discriminate.
  - intros x [<-|[]] _. cbn. discriminate.
  - reflexivity.
  - reflexivity.
  - reflexivity.
Defined.

(** X25. [preserve_escape] is not idempotent: the wrapper it installs is
    called [preserveEscapeFn], so a second call finds no function called
    [escape] and replaces the wrapper by the rule that never matches. *)
Theorem preserve_escape_twice (pre : list EscapeRuler.Rule)
    (esc : EscapeRuler.Rule) (post : list EscapeRuler.Rule) :
  (forall x, In x pre -> EscapeRuler.rule_name x <> "escape") ->
  (forall x, In x (pre ++ post)%list -> EscapeRuler.enabled x = true ->
             Escape.name (EscapeRuler.fn x) <> "escape") ->
  EscapeRuler.rule_name esc = "escape" ->
  EscapeRuler.enabled esc = true ->
  Escape.name (EscapeRuler.fn esc) = "escape" ->
  exists once twice,
    EscapeRuler.preserve_escape (pre ++ esc :: post)%list = Ret once
    /\ EscapeRuler.preserve_escape once = Ret twice
    /\ twice = (pre ++ {| EscapeRuler.rule_name := "escape";
                          EscapeRuler.enabled := true;
                          EscapeRuler.fn := EscapeRuler.noop |} :: post)%list
    /\ EscapeRuler.rule_fn twice "escape" = Some EscapeRuler.noop
    /\ forall state silent,
         Escape.call EscapeRuler.noop state silent = (false, state).
Proof.
  intros Hn Hf Hr He Hfn.
  assert (Hfpre : forall x, In x pre -> EscapeRuler.enabled x = true ->
                            Escape.name (EscapeRuler.fn x) <> "escape")
    by (intros x Hx; apply Hf, in_or_app; now left).
  eexists _, _. split; [apply (preserve_escape_wraps_aux pre esc post); assumption|].
  set (w := {| EscapeRuler.rule_name := "escape"; EscapeRuler.enabled := true;
               EscapeRuler.fn := EscapeRuler.preserveEscapeFn (EscapeRuler.fn esc) |}).
  assert (Hb : EscapeRuler.buildPreserveEscapeFn (pre ++ w :: post)%list
               = EscapeRuler.noop).
  { apply build_none. intros x Hx Hex. apply in_app_or in Hx.
    destruct Hx as [Hx|[<-|Hx]].
    - now apply Hfpre.
    - cbn. discriminate.
    - apply Hf; [apply in_or_app; now right | exact Hex]. }
  split; [|split; [reflexivity|split]].
  - unfold EscapeRuler.preserve_escape. cbv zeta. rewrite Hb.
    rewrite (ruler_at_app pre w post "escape" _ Hn eq_refl). reflexivity.
  - now rewrite (rule_fn_app pre
                   {| EscapeRuler.rule_name := "escape"; EscapeRuler.enabled := true;
                      EscapeRuler.fn := EscapeRuler.noop |} post "escape" Hn eq_refl).
  - reflexivity.
Qed.

Lemma preserve_escape_twice_witness :
  exists once twice,
    EscapeRuler.preserve_escape ([sample_text_rule] ++ sample_escape_rule :: [])%list
    = Ret once
    /\ EscapeRuler.preserve_escape once = Ret twice
    /\ twice = ([sample_text_rule]
                  ++ {| EscapeRuler.rule_name := "escape";
                        EscapeRuler.enabled := true;
                        EscapeRuler.fn := EscapeRuler.noop |} :: [])%list
    /\ EscapeRuler.rule_fn twice "escape" = Some EscapeRuler.noop
    /\ forall state silent,
         Escape.call EscapeRuler.noop state silent = (false, state).
Proof.
  apply (preserve_escape_twice [sample_text_rule] sample_escape_rule []).
  - intros x [<-|[]]. cbn. discriminate.
  - intros x [<-|[]] _. cbn. discriminate.
  - reflexivity.
  - reflexivity.
  - reflexivity.
Defined.

(** ** Languages of a recognized region *)

(** A scan that runs past the last element met no category whose recorded
    position counts as true. *)
Lemma exhausted_fresh (ms : list MetaLine) (v0 v : ValidationResult) (c : category) :
  validate_loop v0 ms = Exhausted v ->
  truthy (recorded c v0) = true -> ~ In c (categories ms).
Proof.
  revert v0. induction ms as [|m ms IH]; intros v0 H Ht; [intros []|].
  cbn [validate_loop] in H. rewrite validate_switch_spec in H.
  rewrite categories_cons.
  destruct (category_of m) as [c'|] eqn:Ec.
  - destruct (truthy (recorded c' v0)) eqn:Et; [discriminate|].
    destruct (_ && _) in H; [discriminate|].
    intros [<-|Hin].
    + rewrite Ht in Et. discriminate.
    + apply (IH _ H); [|exact Hin].
      rewrite recorded_record. destruct (category_eqb c' c) eqn:E; [|exact Ht].
      apply category_eqb_eq in E. subst c'. rewrite Ht in Et. discriminate.
  - destruct (_ && _) in H; [discriminate|]. now apply (IH _ H).
Qed.

Lemma exhausted_nodup (ms : list MetaLine) (v0 v : ValidationResult) :
  validate_loop v0 ms = Exhausted v ->
  Forall (fun m => meta_index m <> 0) ms ->
  NoDup (categories ms).
Proof.
  revert v0. induction ms as [|m ms IH]; intros v0 H Hnz; [constructor|].
  apply Forall_cons_iff in Hnz. destruct Hnz as (Hm & Hnz).
  cbn [validate_loop] in H. rewrite validate_switch_spec in H.
  rewrite categories_cons.
  destruct (category_of m) as [c|] eqn:Ec.
  - destruct (truthy (recorded c v0)) eqn:Et; [discriminate|].
    destruct (_ && _) in H; [discriminate|].
    constructor; [|now apply (IH _ H)].
    apply (exhausted_fresh _ _ _ c H).
    rewrite recorded_record.
    assert (E : category_eqb c c = true) by now apply category_eqb_eq.
    rewrite E. destruct (meta_index m); [contradiction | reflexivity].
  - destruct (_ && _) in H; [discriminate|]. now apply (IH _ H).
Qed.

Lemma nodup_languages (ms : list MetaLine) :
  NoDup (categories ms) ->
  Forall (fun m => is_lang m = true -> snippet_language (meta_language m)) ms ->
  NoDup (List.map meta_language (filter is_lang ms)).
Proof.
  induction ms as [|m ms IH]; intros Hnd Hl; [constructor|].
  apply Forall_cons_iff in Hl. destruct Hl as (Hm & Hl).
  rewrite categories_cons in Hnd.
  destruct m as [i b br bt c h|i|i l]; cbn [filter is_lang List.map].
  - cbn [category_of] in Hnd. apply NoDup_cons_iff in Hnd. now apply IH.
  - cbn [category_of] in Hnd. apply NoDup_cons_iff in Hnd. now apply IH.
  - cbn [meta_language]. specialize (Hm eq_refl). cbn [meta_language] in Hm.
    destruct (category_of_language i l Hm) as (c & Hc). rewrite Hc in Hnd.
    apply NoDup_cons_iff in Hnd. destruct Hnd as (Hnin & Hnd).
    constructor; [|now apply IH].
    intros Hin. apply in_map_iff in Hin. destruct Hin as (m' & Hl' & Hin').
    apply filter_In in Hin'. destruct Hin' as (Hin' & Hlang).
    apply Hnin. apply existsb_in_category. apply existsb_exists.
    exists m'. split; [exact Hin'|]. apply in_category_iff.
    destruct m' as [| |j l']; try discriminate. cbn [meta_language] in Hl'.
    subst l'. exact Hc.
Qed.

Lemma in_category_end (m : MetaLine) : in_category CEnd m = is_end m.
Proof.
  destruct m as [| |i l]; try reflexivity.
  unfold in_category, category_of.
  destruct (l =? "js"), (l =? "html"), (l =? "css"); reflexivity.
Qed.

Lemma filter_is_end_none (ms : list MetaLine) :
  filter is_end ms = [] -> has_end ms = false.
Proof.
  unfold has_end. induction ms as [|m ms IH]; [reflexivity|].
  cbn [filter existsb]. rewrite in_category_end.
  destruct (is_end m); [discriminate|]. exact IH.
Qed.

Lemma validate_begin_first (i : nat) (b br bt c h : string) (rest : list MetaLine) :
  validate_loop initialResult (Begin i b br bt c h :: rest)
  = validate_loop (set_beginIndex initialResult i) rest.
Proof. reflexivity. Qed.

(** X21. Languages before the only End: when the span of a recognized region
    holds one end marker only, the language tokens it emits have pairwise
    different languages, so there are at most three of them. *)
Theorem parseSnippetBlock_languages_distinct
    (st : StateBlock) (startLine endLine : nat) (st' : StateBlock) :
  parseSnippetBlock st startLine endLine false = Ret (true, st') ->
  List.length (filter is_end (collectMetaLines st startLine endLine)) = 1 ->
  exists openToken langTokens closeToken,
    tokens st' = (tokens st ++ openToken :: langTokens ++ [closeToken])%list
    /\ NoDup (List.map (fun t => attrGet t "language") langTokens)
    /\ List.length langTokens <= 3.
Proof.
  intros H Hend. apply parseSnippetBlock_true_inv in H.
  destruct H as (_ & i & b & br & bt & c & h & mid & ePos & Hc & Hv & ->).
  rewrite (sort_collected st startLine endLine _ _ _ Hc).
  cbn [committed tokens]. eexists _, _, _. split; [reflexivity|].
  (* the languages of the tokens are those of the markers *)
  assert (Hlangs :
    List.map (fun t => attrGet t "language")
      (lang_tokens st ePos (filter is_lang mid) (state_level st + 1))
    = List.map (fun m => Some (meta_language m)) (filter is_lang mid)).
  { rewrite <- languages_of_lang_tokens
      with (st := st) (e := ePos) (lvl := (state_level st + 1)%Z).
    rewrite map_map. reflexivity. }
  (* the scan of the validator runs over the Begin and the middle *)
  assert (Hmid_end : filter is_end mid = []).
  { rewrite Hc in Hend. cbn [filter is_end] in Hend.
    rewrite filter_app, length_app in Hend. cbn in Hend.
    destruct (filter is_end mid); [reflexivity | cbn in Hend; lia]. }
  assert (Hex : exists v, validate_loop (set_beginIndex initialResult i) mid
                          = Exhausted v).
  { rewrite Hc in Hv. unfold validateMetaLines in Hv.
    rewrite validate_begin_first in Hv.
    rewrite validate_loop_app in Hv.
    destruct (validate_loop (set_beginIndex initialResult i) mid) as [r|v|v] eqn:E.
    - apply validate_loop_returned in E. rewrite E in Hv. discriminate.
    - apply validate_loop_broke in E. cbn [set_beginIndex endIndex initialResult
                                            not_null orb] in E.
      rewrite (filter_is_end_none _ Hmid_end) in E.
      rewrite andb_false_r in E. discriminate.
    - eauto. }
  destruct Hex as (v & Hex).
  destruct (collected_sorted st startLine endLine) as (Hs & _).
  rewrite Hc in Hs. cbn [List.map] in Hs. apply StronglySorted_inv in Hs.
  destruct Hs as (_ & Hlt). rewrite map_app, Forall_app in Hlt.
  destruct Hlt as (Hlt & _).
  assert (Hnz : Forall (fun m => meta_index m <> 0) mid).
  { rewrite Forall_map in Hlt. eapply Forall_impl; [|exact Hlt].
    cbn. intros m Hm. lia. }
  assert (Hnd : NoDup (List.map meta_language (filter is_lang mid))).
  { apply nodup_languages; [exact (exhausted_nodup _ _ _ Hex Hnz)|].
    apply Forall_forall. intros m Hin Hlang.
    destruct m as [| |j l]; try discriminate. cbn [meta_language].
    apply (collected_lang st startLine endLine j l).
    rewrite Hc. right. apply in_or_app. now left. }
  split.
  - rewrite Hlangs, <- map_map.
    apply Finite.Injective_map_NoDup; [intros x y [= ->]; reflexivity | exact Hnd].
  - rewrite lang_tokens_length, <- (length_map meta_language).
    change 3 with (List.length ["js"; "css"; "html"]).
    apply NoDup_incl_length; [exact Hnd|].
    intros l Hl. apply in_map_iff in Hl. destruct Hl as (m & <- & Hm).
    apply filter_In in Hm. destruct Hm as (Hm & Hlang).
    destruct m as [| |j l]; try discriminate. cbn [meta_language].
    assert (Hs' : snippet_language l).
    { apply (collected_lang st startLine endLine j l).
      rewrite Hc. right. apply in_or_app. now left. }
    destruct Hs' as [-> | [-> | ->]]; cbn; tauto.
Qed.

Lemma parseSnippetBlock_languages_distinct_witness :
  exists openToken langTokens closeToken,
    tokens sample_committed
    = (tokens sample_state ++ openToken :: langTokens ++ [closeToken])%list
    /\ NoDup (List.map (fun t => attrGet t "language") langTokens)
    /\ List.length langTokens <= 3.
Proof.
  apply (parseSnippetBlock_languages_distinct sample_state 0 13 sample_committed).
  - vm_compute. reflexivity.
  - vm_compute. reflexivity.
Defined.
